(** * Snapback SDK: session engine, blob store, rollback and recovery

    A shallow embedding of the session core of the SDK, and what holds of it.

    The program:
    - [Sha256]: the digest behind [createHash("sha256")] (FIPS 180-4);
    - [Path]: the part of [node:path] (POSIX) the engine calls;
    - [Fs]: the part of [node:fs] the engine calls, as a state-and-exception
      monad over a finite map of files with an oracle of I/O faults;
    - [FilesystemBlobStore]: [storage/BlobStore.fs.ts];
    - [SessionDeduplication]: [computeFingerprint], [checkDuplicate] and
      [register] of [cache/lru-cache.ts];
    - [SessionRollback]: [session/SessionRollback.ts];
    - [SessionRecovery]: [session/SessionRecovery.ts];
    - [SessionManager]: [start], [track], [normalizePath],
      [computeDeferredHashes], [finalize], [autoFinalize] and the trigger
      bitmask of the session manager.

    The properties: a small Hoare logic for the monad, then the blob store,
    the fingerprint, the inverse change list, the rollback and its abort on
    a failed validation, the recovery sweeper, the session manager, and
    runs on concrete inputs; then the store's other operations, the swap
    file by file and as a whole, the rollback that goes through, manual
    recovery, deduplication, triggers and sessions, with their runs.
*)

From Stdlib Require Import NArith ZArith QArith List Bool Lia Sorted Permutation.
From Stdlib.Strings Require Import Ascii String Byte.
From stdpp Require Import base option gmap strings list fin_maps.

Local Open Scope list_scope.
Local Open Scope string_scope.

(** Bytes are [Byte.byte]; a [Uint8Array] or [Buffer] is a list of them. *)
Abbreviation bytes := (list Byte.byte).

Definition bytes_of_string (s : string) : bytes := list_byte_of_string s.

(* ===================================================================== *)
(** ** SHA-256 *)
(* ===================================================================== *)

Module Sha256.
Local Open Scope N_scope.
Local Open Scope list_scope.

Definition mask32 : N := 0xFFFFFFFF.

Definition add32 (a b : N) : N := N.land (a + b) mask32.
Definition rotr (n x : N) : N :=
  N.lor (N.shiftr x n) (N.land (N.shiftl x (32 - n)) mask32).
Definition shr (n x : N) : N := N.shiftr x n.
Definition not32 (x : N) : N := N.lxor x mask32.

Definition Ch (x y z : N) : N := N.lxor (N.land x y) (N.land (not32 x) z).
Definition Maj (x y z : N) : N :=
  N.lxor (N.lxor (N.land x y) (N.land x z)) (N.land y z).
Definition bigS0 (x : N) : N := N.lxor (N.lxor (rotr 2 x) (rotr 13 x)) (rotr 22 x).
Definition bigS1 (x : N) : N := N.lxor (N.lxor (rotr 6 x) (rotr 11 x)) (rotr 25 x).
Definition smallS0 (x : N) : N := N.lxor (N.lxor (rotr 7 x) (rotr 18 x)) (shr 3 x).
Definition smallS1 (x : N) : N := N.lxor (N.lxor (rotr 17 x) (rotr 19 x)) (shr 10 x).

(** The round constants are the first 32 bits of the fractional parts
    of the cube roots of the first 64 primes, the initial hash value those
    of the square roots of the first 8 (FIPS 180-4, 4.2.2 and 5.3.3). *)
Definition is_prime (n : nat) : bool :=
  (1 <? n)%nat && forallb (fun d => negb (n mod d =? 0)%nat) (seq 2 (n - 2)).

Definition primes (count : nat) : list N :=
  map N.of_nat (firstn count (List.filter is_prime (seq 2 320))).

(** The largest [r] below [2 ^ bits] with [r ^ 3 <= n]. *)
Fixpoint cube_root (bits : nat) (n r : N) : N :=
  match bits with
  | O => r
  | S b =>
      let r' := r + N.shiftl 1 (N.of_nat b) in
      cube_root b n (if r' * r' * r' <=? n then r' else r)
  end.

Definition K : list N :=
  Eval vm_compute in
    map (fun p => N.land (cube_root 36 (N.shiftl p 96) 0) mask32) (primes 64).

Definition H0 : list N :=
  Eval vm_compute in
    map (fun p => N.land (N.sqrt (N.shiftl p 64)) mask32) (primes 8).

(** Padding: a 1 bit, zeros up to 56 mod 64, the bit length on 8 bytes. *)
Definition be_bytes (n : nat) (x : N) : list N :=
  map (fun i => N.land (N.shiftr x (8 * N.of_nat i)) 0xFF) (rev (seq 0 n)).

Definition pad (msg : list N) : list N :=
  let len := length msg in
  let zeros := ((64 - ((len + 9) mod 64)) mod 64)%nat in
  msg ++ [0x80] ++ repeat 0 zeros ++ be_bytes 8 (8 * N.of_nat len).

Fixpoint words (n : nat) (l : list N) : list N :=
  match n with
  | O => []
  | S n' =>
      match l with
      | b0 :: b1 :: b2 :: b3 :: rest =>
          N.lor (N.shiftl b0 24) (N.lor (N.shiftl b1 16) (N.lor (N.shiftl b2 8) b3))
            :: words n' rest
      | _ => []
      end
  end.

(** The message schedule is kept as a window of the last 16 words. *)
Definition next_w (w : list N) : N :=
  add32 (add32 (smallS1 (nth 14 w 0)) (nth 9 w 0))
        (add32 (smallS0 (nth 1 w 0)) (nth 0 w 0)).

Definition round (st : list N * list N) (k : N) : list N * list N :=
  let (v, w) := st in
  match v with
  | [a; b; c; d; e; f; g; h] =>
      let t1 := add32 (add32 (add32 (add32 h (bigS1 e)) (Ch e f g)) k) (nth 0 w 0) in
      let t2 := add32 (bigS0 a) (Maj a b c) in
      ([add32 t1 t2; a; b; c; add32 d t1; e; f; g], tl w ++ [next_w w])
  | _ => st
  end.

Definition compress (h : list N) (block : list N) : list N :=
  let (v, _) := fold_left round K (h, words 16 block) in
  map (fun p => add32 (fst p) (snd p)) (combine h v).

Fixpoint blocks (n : nat) (h : list N) (l : list N) : list N :=
  match n with
  | O => h
  | S n' => blocks n' (compress h (firstn 64 l)) (skipn 64 l)
  end.

Definition digest_words (msg : list N) : list N :=
  let p := pad msg in blocks (length p / 64) H0 p.

Definition hex_digit (n : N) : ascii :=
  nth (N.to_nat n)
      ["0"; "1"; "2"; "3"; "4"; "5"; "6"; "7"; "8"; "9"; "a"; "b"; "c"; "d"; "e"; "f"]%char
      "0"%char.

Definition hex_byte (b : N) : string :=
  String (hex_digit (N.shiftr b 4)) (String (hex_digit (N.land b 0xF)) EmptyString).

Definition hex_word (w : N) : string :=
  fold_right (fun b acc => hex_byte b ++ acc)%string EmptyString (be_bytes 4 w).

(** [createHash("sha256").update(buf).digest("hex")] *)
Definition sha256_hex (b : bytes) : string :=
  fold_right (fun w acc => hex_word w ++ acc)%string EmptyString
             (digest_words (map Byte.to_N b)).
End Sha256.

Abbreviation sha256_hex := Sha256.sha256_hex.

(* ===================================================================== *)
(** ** Exceptions and the state monad of the engine *)
(* ===================================================================== *)

(** A thrown JavaScript value, as far as the engine looks at it: the
    [message] ([error instanceof Error ? error.message : String(error)])
    and, for system errors, the [code] ([error.code === "EXDEV"]). *)
Record Exn := mkExn { exn_code : option string; exn_msg : string }.

Definition Error (msg : string) : Exn := mkExn None msg.

(** [M S A]: a computation over the mutable state [S] that returns an [A]
    or throws.  The state survives a throw, as the objects a [catch] block
    reads do. *)
Definition M (S A : Type) : Type := S -> (Exn + A) * S.

Definition ret {S A} (a : A) : M S A := fun s => (inr a, s).
Definition throw {S A} (e : Exn) : M S A := fun s => (inl e, s).
Definition bind {S A B} (m : M S A) (k : A -> M S B) : M S B :=
  fun s => match m s with
           | (inl e, s') => (inl e, s')
           | (inr a, s') => k a s'
           end.
Definition try_catch {S A} (m : M S A) (h : Exn -> M S A) : M S A :=
  fun s => match m s with
           | (inl e, s') => h e s'
           | (inr a, s') => (inr a, s')
           end.
Definition gets {S A} (f : S -> A) : M S A := fun s => (inr (f s), s).
Definition modify {S} (f : S -> S) : M S unit := fun s => (inr tt, f s).

Notation "'let!' x ':=' m 'in' k" := (bind m (fun x => k))
  (at level 10, x name, m at level 200, k at level 200).
Notation "m >>> k" := (bind m (fun _ => k))
  (at level 90, right associativity).

(** [for (const x of xs) body(x)] *)
Fixpoint for_each {S A} (xs : list A) (body : A -> M S unit) : M S unit :=
  match xs with
  | [] => ret tt
  | x :: rest => body x >>> for_each rest body
  end.

Definition when {S} (b : bool) (m : M S unit) : M S unit :=
  if b then m else ret tt.

(** A computation that ran to a value without throwing. *)
Definition returns {S A} (m : M S A) (s : S) (a : A) (s' : S) : Prop :=
  m s = (inr a, s').

(* ===================================================================== *)
(** ** Paths ([node:path], POSIX) *)
(* ===================================================================== *)

Module Path.

(** [s.split("/")] *)
Fixpoint split (s : string) : list string :=
  match s with
  | EmptyString => [EmptyString]
  | String c rest =>
      if Ascii.eqb c "/" then EmptyString :: split rest
      else match split rest with
           | seg :: segs => String c seg :: segs
           | [] => [String c EmptyString]
           end
  end.

Definition isAbsolute (s : string) : bool := String.prefix "/" s.

(** Whether the last character is [/]. *)
Fixpoint trailingSeparator (s : string) : bool :=
  match s with
  | EmptyString => false
  | String c EmptyString => Ascii.eqb c "/"
  | String _ rest => trailingSeparator rest
  end.

(** [normalizeString] of [node:path], on segments. *)
Definition normalizeStep (allowAboveRoot : bool) (res : list string) (seg : string)
  : list string :=
  if String.eqb seg "" || String.eqb seg "." then res
  else if String.eqb seg ".." then
    match rev res with
    | last :: _ =>
        if String.eqb last ".." then
          (if allowAboveRoot then res ++ [".."] else res)%list
        else removelast res
    | [] => (if allowAboveRoot then res ++ [".."] else res)%list
    end
  else (res ++ [seg])%list.

Definition normalizeSegments (allowAboveRoot : bool) (segs : list string) : list string :=
  fold_left (normalizeStep allowAboveRoot) segs [].

(** [path.normalize] on POSIX. *)
Definition normalize (s : string) : string :=
  if String.eqb s "" then "."
  else
    let body := String.concat "/" (normalizeSegments (negb (isAbsolute s)) (split s)) in
    if String.eqb body "" then
      (if isAbsolute s then "/" else if trailingSeparator s then "./" else ".")
    else
      (if isAbsolute s then "/" else "") ++ body
        ++ (if trailingSeparator s then "/" else "").

(** [path.join] on POSIX: the non-empty arguments joined by [/], then
    normalised. *)
Definition join (segs : list string) : string :=
  normalize (String.concat "/" (List.filter (fun s => negb (String.eqb s "")) segs)).

(** [path.resolve(p)] on POSIX, as the segments below the root; [cwd] is
    [process.cwd()], an absolute path. *)
Definition resolve (cwd p : string) : list string :=
  let full :=
    if isAbsolute p then p
    else if String.eqb p "" then cwd
    else cwd ++ "/" ++ p in
  normalizeSegments false (split full).

Fixpoint stripCommon (a b : list string) : list string * list string :=
  match a, b with
  | x :: a', y :: b' => if String.eqb x y then stripCommon a' b' else (a, b)
  | _, _ => (a, b)
  end.

(** [path.relative(from, to)] on POSIX. *)
Definition relative (cwd from to : string) : string :=
  if String.eqb from to then ""
  else
    let (up, down) := stripCommon (resolve cwd from) (resolve cwd to) in
    String.concat "/" (repeat ".." (List.length up) ++ down)%list.

(** [relPath.split(path.sep).join("/")] with [path.sep = "/"]. *)
Definition join_sep (segs : list string) : string := String.concat "/" segs.

(** [path.dirname] on POSIX: trailing separators are skipped, then the
    path is cut at the last separator left (the first character is never
    cut). *)
Fixpoint dropWhile (f : ascii -> bool) (l : list ascii) : list ascii :=
  match l with
  | [] => []
  | c :: rest => if f c then dropWhile f rest else l
  end.

Definition isSep (c : ascii) : bool := Ascii.eqb c "/".

Definition dirname (s : string) : string :=
  match s with
  | EmptyString => "."
  | String c0 body =>
      let hasRoot := isSep c0 in
      let r1 := dropWhile isSep (rev (list_ascii_of_string body)) in
      match dropWhile (fun c => negb (isSep c)) r1 with
      | [] => if hasRoot then "/" else "."
      | _ :: r3 =>
          if hasRoot && Nat.eqb (List.length r3) 0 then "//"
          else String c0 (string_of_list_ascii (rev r3))
      end
  end.

End Path.

(* ===================================================================== *)
(** ** The file system ([node:fs], [node:path]) *)
(* ===================================================================== *)

Module Fs.

Inductive FsOp :=
| OpMkdir | OpWriteFile | OpReadFile | OpRename | OpCopyFile
| OpUnlink | OpRm | OpUtimes | OpChmod.

#[export] Instance FsOp_eq_dec : EqDecision FsOp.
Proof. solve_decision. Defined.

(** The world: regular files with their content, the directories that
    were created, and the failures of the environment (permissions, full
    disk, cross-device renames): [fault op p] is the system error that
    [op] raises on path [p] ([src] for rename and copyFile).  Times and
    modes of files are not part of the state. *)
Record World := mkWorld {
  files : gmap string bytes;
  dirs : gset string;
  fault : FsOp -> string -> option Exn
}.

Definition set_files (f : gmap string bytes -> gmap string bytes) (w : World) : World :=
  mkWorld (f (files w)) (dirs w) (fault w).
Definition set_dirs (f : gset string -> gset string) (w : World) : World :=
  mkWorld (files w) (f (dirs w)) (fault w).

Definition enoent (syscall p : string) : Exn :=
  mkExn (Some "ENOENT")
        ("ENOENT: no such file or directory, " ++ syscall ++ " '" ++ p ++ "'").

(** Every operation first consults the environment. *)
Definition guard (op : FsOp) (p : string) : M World unit :=
  fun w => match fault w op p with
           | Some e => (inl e, w)
           | None => (inr tt, w)
           end.

(** [existsSync] never throws. *)
Definition exists_in (w : World) (p : string) : bool :=
  bool_decide (is_Some (files w !! p)) || bool_decide (p ∈ dirs w).
Definition existsSync (p : string) : M World bool := gets (fun w => exists_in w p).

(** [fs.mkdir(p, { recursive: true })] *)
Definition mkdir (p : string) : M World unit :=
  guard OpMkdir p >>> modify (set_dirs (fun d => {[p]} ∪ d)).

Definition writeFile (p : string) (data : bytes) : M World unit :=
  guard OpWriteFile p >>> modify (set_files (fun f => <[p := data]> f)).

Definition readFile (p : string) : M World bytes :=
  guard OpReadFile p >>>
  let! o := gets (fun w => files w !! p) in
  match o with
  | Some data => ret data
  | None => throw (enoent "open" p)
  end.

Definition rename (src dst : string) : M World unit :=
  guard OpRename src >>>
  let! o := gets (fun w => files w !! src) in
  match o with
  | Some data => modify (set_files (fun f => <[dst := data]> (delete src f)))
  | None => throw (enoent "rename" src)
  end.

Definition copyFile (src dst : string) : M World unit :=
  guard OpCopyFile src >>>
  let! o := gets (fun w => files w !! src) in
  match o with
  | Some data => modify (set_files (fun f => <[dst := data]> f))
  | None => throw (enoent "copyfile" src)
  end.

Definition unlink (p : string) : M World unit :=
  guard OpUnlink p >>>
  let! o := gets (fun w => files w !! p) in
  match o with
  | Some _ => modify (set_files (delete p))
  | None => throw (enoent "unlink" p)
  end.

(** Paths at or below [d]. *)
Definition under (d p : string) : bool :=
  bool_decide (p = d) || String.prefix (d ++ "/") p.

(** [fs.rm(p, { recursive: true, force: true })] *)
Definition rm (p : string) : M World unit :=
  guard OpRm p >>>
  modify (fun w =>
    mkWorld (filter (fun kv => under p (fst kv) = false) (files w))
            (filter (fun d => under p d = false) (dirs w))
            (fault w)).

Definition utimes (p : string) : M World unit :=
  guard OpUtimes p >>>
  let! o := gets (fun w => files w !! p) in
  match o with
  | Some _ => ret tt
  | None => throw (enoent "utime" p)
  end.

Definition chmod (p : string) : M World unit :=
  guard OpChmod p >>>
  let! o := gets (fun w => files w !! p) in
  match o with
  | Some _ => ret tt
  | None => throw (enoent "chmod" p)
  end.

Definition path_join := Path.join.
Definition dirname := Path.dirname.

(** A world where nothing fails on its own. *)
Definition no_fault : FsOp -> string -> option Exn := fun _ _ => None.

End Fs.

Export Fs.

(** State that carries a world. *)
Class HasWorld (S : Type) := {
  getW : S -> World;
  setW : World -> S -> S
}.

#[export] Instance World_HasWorld : HasWorld World := {| getW := id; setW := fun w _ => w |}.

Definition liftW {S A} `{HasWorld S} (m : M World A) : M S A :=
  fun s => let (r, w') := m (getW s) in (r, setW w' s).

(* ===================================================================== *)
(** ** storage/BlobStore.ts, storage/BlobStore.fs.ts *)
(* ===================================================================== *)

Inductive Result (T E : Type) : Type :=
| Ok (value : T)
| Err (error : E).
Arguments Ok {T E} value.
Arguments Err {T E} error.

Inductive BlobStoreErrorCode :=
| HASH_MISMATCH | BLOB_NOT_FOUND | STORAGE_FULL
| COMPRESSION_FAILED | DECOMPRESSION_FAILED | IO_ERROR.

Record BlobStoreError := mkBlobStoreError {
  code : BlobStoreErrorCode;
  message : string;
  details : list (string * string)
}.

(** The [BlobStore] interface, as far as the session engine calls it. *)
Class BlobStore (B : Type) := {
  put : B -> bytes -> M World (Result string BlobStoreError);
  get : B -> string -> M World (Result (option bytes) BlobStoreError)
}.

Module FilesystemBlobStore.

(** The LZ4 codec of the source is a placeholder that returns its input. *)
Module LZ4.
Definition compress (buf : bytes) : M World bytes := ret buf.
Definition decompress (buf : bytes) : M World bytes := ret buf.
End LZ4.

Definition err {T} (c : BlobStoreErrorCode) (msg : string)
           (d : list (string * string)) : Result T BlobStoreError :=
  Err (mkBlobStoreError c msg d).
Definition ok {T} (v : T) : Result T BlobStoreError := Ok v.

Record t := mk { basePath : string; initialized : bool }.

(** [hash.slice(i, j)] *)
Definition slice (i j : nat) (s : string) : string := String.substring i (j - i) s.

Definition getShardPath (st : t) (hash algo : string) : string :=
  path_join [basePath st; algo; slice 0 2 hash; slice 2 4 hash].

Definition getFilePath (st : t) (hash algo : string) : string :=
  path_join [getShardPath st hash algo; hash ++ ".lz4"].

Definition initialize (st : t) : M World (Result unit BlobStoreError * t) :=
  try_catch
    (mkdir (basePath st) >>>
     ret (ok tt, mk (basePath st) true))
    (fun e => ret (err IO_ERROR ("Failed to initialize blob store: " ++ exn_msg e)
                       [("basePath", basePath st)], st)).

Definition put (st : t) (buf : bytes) : M World (Result string BlobStoreError) :=
  if negb (initialized st) then ret (err IO_ERROR "BlobStore not initialized" [])
  else
    try_catch
      (let hash := sha256_hex buf in
       let shardPath := getShardPath st hash "sha256" in
       let filePath := getFilePath st hash "sha256" in
       let! present := existsSync filePath in
       if present then ret (ok hash)
       else
         mkdir shardPath >>>
         let! compressed :=
           try_catch (let! c := LZ4.compress buf in ret (inr c))
             (fun e => ret (inl (err COMPRESSION_FAILED
                                     ("LZ4 compression failed: " ++ exn_msg e)
                                     [("hash", hash)]))) in
         match compressed with
         | inl failure => ret failure
         | inr compressed =>
             writeFile filePath compressed >>>
             ret (ok hash)
         end)
      (fun e => ret (err IO_ERROR ("Failed to store blob: " ++ exn_msg e) [])).

Definition get (st : t) (hash : string)
  : M World (Result (option bytes) BlobStoreError) :=
  if negb (initialized st) then ret (err IO_ERROR "BlobStore not initialized" [])
  else
    try_catch
      (let filePath := getFilePath st hash "sha256" in
       let! present := existsSync filePath in
       if negb present then ret (ok None)
       else
         let! compressed := readFile filePath in
         let! decompressed :=
           try_catch (let! d := LZ4.decompress compressed in ret (inr d))
             (fun e => ret (inl (err DECOMPRESSION_FAILED
                                     ("LZ4 decompression failed: " ++ exn_msg e)
                                     [("hash", hash)]))) in
         match decompressed with
         | inl failure => ret failure
         | inr decompressed =>
             let computedHash := sha256_hex decompressed in
             if negb (String.eqb computedHash hash) then
               ret (err HASH_MISMATCH
                        ("Hash verification failed: expected " ++ hash
                           ++ ", got " ++ computedHash)
                        [("expected", hash); ("actual", computedHash)])
             else ret (ok (Some decompressed))
         end)
      (fun e => ret (err IO_ERROR ("Failed to retrieve blob: " ++ exn_msg e)
                         [("hash", hash)])).

Definition has (st : t) (hash : string) : M World bool :=
  existsSync (getFilePath st hash "sha256").


(** [delete(hash)] *)
Definition delete (st : t) (hash : string) : M World (Result unit BlobStoreError) :=
  if negb (initialized st) then ret (err IO_ERROR "BlobStore not initialized" [])
  else
    try_catch
      (let filePath := getFilePath st hash "sha256" in
       let! present := existsSync filePath in
       if negb present then
         ret (err BLOB_NOT_FOUND ("Blob not found: " ++ hash) [("hash", hash)])
       else
         unlink filePath >>>
         ret (ok tt))
      (fun e => ret (err IO_ERROR ("Failed to delete blob: " ++ exn_msg e)
                         [("hash", hash)])).

(** [close()]: the store is marked as not initialized; nothing in it can
    throw. *)
Definition close (st : t) : M World (Result unit BlobStoreError * t) :=
  try_catch
    (ret (ok tt, mk (basePath st) false))
    (fun e => ret (err IO_ERROR ("Failed to close blob store: " ++ exn_msg e) [], st)).

End FilesystemBlobStore.

#[export] Instance FilesystemBlobStore_BlobStore : BlobStore FilesystemBlobStore.t :=
  {| put := FilesystemBlobStore.put; get := FilesystemBlobStore.get |}.

(* ===================================================================== *)
(** ** Session changes ([@snapback-oss/contracts/session]) *)
(* ===================================================================== *)

Inductive ChangeOp := created | modified | deleted | renamed.

#[export] Instance ChangeOp_eq_dec : EqDecision ChangeOp.
Proof. solve_decision. Defined.

Definition ChangeOp_string (o : ChangeOp) : string :=
  match o with
  | created => "created"
  | modified => "modified"
  | deleted => "deleted"
  | renamed => "renamed"
  end.

Inductive EOLType := lf | crlf | cr | mixed.

(** Modelled from the spec: the declaration of [SessionChange] is in the
    contracts package; the fields are the ones the engine reads and writes
    ([dbRowToSessionChange] lists them all), all optional but [p] and [op]. *)
Module Change.
Record t := mk {
  p : string;
  op : ChangeOp;
  from : option string;
  hOld : option string;
  hNew : option string;
  sizeBefore : option Z;
  sizeAfter : option Z;
  mtimeBefore : option Z;
  mtimeAfter : option Z;
  modeBefore : option Z;
  modeAfter : option Z;
  eolBefore : option EOLType;
  eolAfter : option EOLType
}.

(** Field assignments on a copy ([inversed.op = ...]). *)
Definition set_p (v : string) (c : t) : t :=
  mk v (op c) (from c) (hOld c) (hNew c) (sizeBefore c) (sizeAfter c)
     (mtimeBefore c) (mtimeAfter c) (modeBefore c) (modeAfter c) (eolBefore c) (eolAfter c).
Definition set_op (v : ChangeOp) (c : t) : t :=
  mk (p c) v (from c) (hOld c) (hNew c) (sizeBefore c) (sizeAfter c)
     (mtimeBefore c) (mtimeAfter c) (modeBefore c) (modeAfter c) (eolBefore c) (eolAfter c).
Definition set_from (v : option string) (c : t) : t :=
  mk (p c) (op c) v (hOld c) (hNew c) (sizeBefore c) (sizeAfter c)
     (mtimeBefore c) (mtimeAfter c) (modeBefore c) (modeAfter c) (eolBefore c) (eolAfter c).
Definition set_hOld (v : option string) (c : t) : t :=
  mk (p c) (op c) (from c) v (hNew c) (sizeBefore c) (sizeAfter c)
     (mtimeBefore c) (mtimeAfter c) (modeBefore c) (modeAfter c) (eolBefore c) (eolAfter c).
Definition set_hNew (v : option string) (c : t) : t :=
  mk (p c) (op c) (from c) (hOld c) v (sizeBefore c) (sizeAfter c)
     (mtimeBefore c) (mtimeAfter c) (modeBefore c) (modeAfter c) (eolBefore c) (eolAfter c).
Definition set_sizes (b a : option Z) (c : t) : t :=
  mk (p c) (op c) (from c) (hOld c) (hNew c) b a
     (mtimeBefore c) (mtimeAfter c) (modeBefore c) (modeAfter c) (eolBefore c) (eolAfter c).
Definition set_mtimes (b a : option Z) (c : t) : t :=
  mk (p c) (op c) (from c) (hOld c) (hNew c) (sizeBefore c) (sizeAfter c)
     b a (modeBefore c) (modeAfter c) (eolBefore c) (eolAfter c).
Definition set_modes (b a : option Z) (c : t) : t :=
  mk (p c) (op c) (from c) (hOld c) (hNew c) (sizeBefore c) (sizeAfter c)
     (mtimeBefore c) (mtimeAfter c) b a (eolBefore c) (eolAfter c).
Definition set_eols (b a : option EOLType) (c : t) : t :=
  mk (p c) (op c) (from c) (hOld c) (hNew c) (sizeBefore c) (sizeAfter c)
     (mtimeBefore c) (mtimeAfter c) (modeBefore c) (modeAfter c) b a.
End Change.

Abbreviation SessionChange := Change.t.

(** JavaScript truthiness of an optional string: [undefined] and [""] are
    falsy. *)
Definition truthy (o : option string) : bool :=
  match o with
  | Some s => negb (String.eqb s "")
  | None => false
  end.

(** [o || d] *)
Definition or_else (o : option string) (d : string) : string :=
  match o with
  | Some s => if String.eqb s "" then d else s
  | None => d
  end.

(** Truthiness of an optional number: [undefined] and [0] are falsy. *)
Definition truthyZ (o : option Z) : bool :=
  match o with
  | Some z => negb (Z.eqb z 0)
  | None => false
  end.

(* ===================================================================== *)
(** ** SessionDeduplication.computeFingerprint *)
(* ===================================================================== *)

Module Hash.
(** [crypto.createHash("sha256")]: the bytes fed so far. *)
Definition t := bytes.
Definition createHash : t := [].
Definition update (item : string) (h : t) : t := (h ++ bytes_of_string item)%list.
Definition digest (h : t) : string := sha256_hex h.
End Hash.

Module SessionDeduplication.

(** [items.sort()]: ascending, strings compared unit by unit
    ([String.leb]; strings are held in UTF-8). *)
Fixpoint insert_sorted (x : string) (l : list string) : list string :=
  match l with
  | [] => [x]
  | y :: rest => if String.leb x y then x :: l else y :: insert_sorted x rest
  end.

Definition sort (l : list string) : list string :=
  fold_right insert_sorted [] l.

Definition item (change : SessionChange) : string :=
  let path := Change.p change in
  let op := Change.op change in
  let hNew := or_else (Change.hNew change) "" in
  let hOld := or_else (Change.hOld change) "" in
  path ++ ":" ++ ChangeOp_string op ++ ":" ++ hOld ++ ":" ++ hNew.

Definition computeFingerprint (changes : list SessionChange) : string :=
  if Nat.eqb (List.length changes) 0 then ""
  else
    let items := sort (map item changes) in
    let hash := fold_left (fun h it => Hash.update it h) items Hash.createHash in
    Hash.digest hash.


(** A registered fingerprint. *)
Record SessionFingerprint := mkFingerprint {
  fp_fingerprint : string;
  fp_timestamp : Z;
  fp_sessionId : string;
  fp_changeCount : nat
}.

Record DeduplicationResult := mkResult {
  isDuplicate : bool;
  reason : option string;
  existingSessionId : option string;
  fingerprint : string
}.

Section WithCache.

(** The cache is a [QuickLRU] of the [quick-lru] package, taken as it
    comes: [cache_new maxSize] is [new QuickLRU({ maxSize })], [cache_get]
    is [get] (which may reorder the cache) and [cache_set] is [set].
    [number_string n] is the text of the number [n] in a template string.
    Timestamps and deltas are whole numbers of milliseconds. *)
Variable Cache : Type.
Variable cache_new : Z -> Cache.
Variable cache_get : Cache -> string -> option SessionFingerprint * Cache.
Variable cache_set : Cache -> string -> SessionFingerprint -> Cache.
Variable number_string : Z -> string.

Record t := mk {
  timeDeltaMs : Z;
  minFilesForDedup : Z;
  fingerprintCache : Cache
}.

Definition default (o : option Z) (d : Z) : Z :=
  match o with Some v => v | None => d end.

(** [new SessionDeduplication({ timeDeltaMs, cacheSize, minFilesForDedup })] *)
Definition new (o_timeDeltaMs o_cacheSize o_minFilesForDedup : option Z) : t :=
  mk (default o_timeDeltaMs (5 * 60 * 1000))
     (default o_minFilesForDedup 5)
     (cache_new (default o_cacheSize 100)).

Definition with_cache (c : Cache) (self : t) : t :=
  mk (timeDeltaMs self) (minFilesForDedup self) c.

(** [checkDuplicate(changes, timestamp)] *)
Definition checkDuplicate (self : t) (changes : list SessionChange) (timestamp : Z)
  : DeduplicationResult * t :=
  if Z.ltb (Z.of_nat (List.length changes)) (minFilesForDedup self) then
    let fingerprint := computeFingerprint changes in
    (mkResult false (Some "Session too small for deduplication") None fingerprint, self)
  else
    let fingerprint := computeFingerprint changes in
    let (existing, cache) := cache_get (fingerprintCache self) fingerprint in
    match existing with
    | None => (mkResult false None None fingerprint, with_cache cache self)
    | Some existing =>
        let timeDelta := (timestamp - fp_timestamp existing)%Z in
        if Z.gtb timeDelta (timeDeltaMs self) then
          (mkResult false
             (Some ("Time delta " ++ number_string timeDelta ++ "ms exceeds threshold "
                      ++ number_string (timeDeltaMs self) ++ "ms"))
             None fingerprint,
           with_cache cache self)
        else
          (mkResult true
             (Some ("Duplicate of session " ++ fp_sessionId existing
                      ++ " (time delta: " ++ number_string timeDelta ++ "ms)"))
             (Some (fp_sessionId existing)) fingerprint,
           with_cache cache self)
    end.

(** [register(sessionId, changes, timestamp)] *)
Definition register (self : t) (sessionId : string) (changes : list SessionChange)
           (timestamp : Z) : t :=
  let fingerprint := computeFingerprint changes in
  with_cache
    (cache_set (fingerprintCache self) fingerprint
               (mkFingerprint fingerprint timestamp sessionId (List.length changes)))
    self.

End WithCache.

End SessionDeduplication.

(* ===================================================================== *)
(** ** session/SessionRollback.ts *)
(* ===================================================================== *)

(** Modelled from the spec: [SessionManifestV1] is declared in the
    contracts package; these are the fields [getManifest] fills in. *)
Record SessionManifestV1 := mkManifest {
  sessionId : string;
  workspaceUri : string;
  name : string;
  changeCount : Z;
  filesChanged : list SessionChange
}.

Inductive JournalStatus := pending | committed | rolled_back.

Record Backup := mkBackup { original : string; backup : string }.

Module Journal.
Record t := mk {
  sessionId : string;
  timestamp : Z;
  workspaceRoot : string;
  changes : list SessionChange;
  backups : list Backup;
  status : JournalStatus
}.
Definition set_status (v : JournalStatus) (j : t) : t :=
  mk (sessionId j) (timestamp j) (workspaceRoot j) (changes j) (backups j) v.
Definition push_backup (b : Backup) (j : t) : t :=
  mk (sessionId j) (timestamp j) (workspaceRoot j) (changes j) (backups j ++ [b])%list (status j).
End Journal.

Abbreviation JournalEntry := Journal.t.

Record FileError := mkFileError { path : string; error : string }.

Module RollbackResult.
Record t := mk {
  success : bool;
  filesReverted : list string;
  filesSkipped : list string;
  errors : list FileError;
  journalPath : option string
}.
Definition set_success (v : bool) (r : t) : t :=
  mk v (filesReverted r) (filesSkipped r) (errors r) (journalPath r).
Definition set_filesReverted (v : list string) (r : t) : t :=
  mk (success r) v (filesSkipped r) (errors r) (journalPath r).
Definition push_filesSkipped (v : list string) (r : t) : t :=
  mk (success r) (filesReverted r) (filesSkipped r ++ v)%list (errors r) (journalPath r).
Definition push_errors (v : list FileError) (r : t) : t :=
  mk (success r) (filesReverted r) (filesSkipped r) (errors r ++ v)%list (journalPath r).
Definition set_journalPath (v : string) (r : t) : t :=
  mk (success r) (filesReverted r) (filesSkipped r) (errors r) (Some v).
End RollbackResult.

Record RollbackOptions := mkOptions {
  (** [onProgress(percent)]: [Some e] when the callback throws [e]. *)
  onProgress : option (Q -> option Exn);
  dryRun : bool;
  skipVerification : bool
}.

Record StagedFile := mkStaged { hash : string; content : bytes }.

(** [Map.prototype.set]: a present key keeps its place. *)
Fixpoint map_set {V} (k : string) (v : V) (m : list (string * V)) : list (string * V) :=
  match m with
  | [] => [(k, v)]
  | (k', v') :: rest =>
      if String.eqb k' k then (k, v) :: rest else (k', v') :: map_set k v rest
  end.

(** [Set.prototype.add] *)
Definition set_add (k : string) (s : list string) : list string :=
  if existsb (String.eqb k) s then s else (s ++ [k])%list.

Module SessionRollback.
Section WithStore.

Context {B : Type} `{BlobStore B}.

(** [JSON.stringify(journal, null, 2)], as bytes on disk. *)
Variable stringify : JournalEntry -> bytes.

Record t := mk {
  workspaceRoot : string;
  blobStore : B;
  journalDir : string;
  (** [process.platform === "win32"] *)
  win32 : bool
}.

(** The constructor: [journalDir ?? path.join(workspaceRoot, ".sb_journal")]. *)
Definition new (workspaceRoot : string) (blobStore : B) (journalDir : option string)
           (win32 : bool) : t :=
  mk workspaceRoot blobStore
     (match journalDir with
      | Some d => d
      | None => path_join [workspaceRoot; ".sb_journal"]
      end)
     win32.

(** The objects a rollback mutates: the world, [result], [journal], the
    staging map and set, and the three arrays of [atomicSwap]. *)
Record State := mkState {
  world : World;
  result : RollbackResult.t;
  journal : JournalEntry;
  stagedFiles : list (string * StagedFile);
  filesToDelete : list string;
  reverted : list string;
  skipped : list string;
  errors : list FileError
}.

Definition on_world (f : World -> World) (s : State) : State :=
  mkState (f (world s)) (result s) (journal s) (stagedFiles s) (filesToDelete s)
          (reverted s) (skipped s) (errors s).
Definition on_result (f : RollbackResult.t -> RollbackResult.t) (s : State) : State :=
  mkState (world s) (f (result s)) (journal s) (stagedFiles s) (filesToDelete s)
          (reverted s) (skipped s) (errors s).
Definition on_journal (f : JournalEntry -> JournalEntry) (s : State) : State :=
  mkState (world s) (result s) (f (journal s)) (stagedFiles s) (filesToDelete s)
          (reverted s) (skipped s) (errors s).
Definition on_stagedFiles (f : list (string * StagedFile) -> list (string * StagedFile))
           (s : State) : State :=
  mkState (world s) (result s) (journal s) (f (stagedFiles s)) (filesToDelete s)
          (reverted s) (skipped s) (errors s).
Definition on_filesToDelete (f : list string -> list string) (s : State) : State :=
  mkState (world s) (result s) (journal s) (stagedFiles s) (f (filesToDelete s))
          (reverted s) (skipped s) (errors s).
Definition on_reverted (f : list string -> list string) (s : State) : State :=
  mkState (world s) (result s) (journal s) (stagedFiles s) (filesToDelete s)
          (f (reverted s)) (skipped s) (errors s).
Definition on_skipped (f : list string -> list string) (s : State) : State :=
  mkState (world s) (result s) (journal s) (stagedFiles s) (filesToDelete s)
          (reverted s) (f (skipped s)) (errors s).
Definition on_errors (f : list FileError -> list FileError) (s : State) : State :=
  mkState (world s) (result s) (journal s) (stagedFiles s) (filesToDelete s)
          (reverted s) (skipped s) (f (errors s)).

#[export] Instance State_HasWorld : HasWorld State :=
  {| getW := world; setW := fun w s => on_world (fun _ => w) s |}.

Definition push {A} (x : A) (l : list A) : list A := (l ++ [x])%list.

(** [options?.onProgress?.(percent)] *)
Definition progress {St} (options : option RollbackOptions) (percent : Q) : M St unit :=
  match options with
  | Some o =>
      match onProgress o with
      | Some callback =>
          match callback percent with
          | Some e => throw e
          | None => ret tt
          end
      | None => ret tt
      end
  | None => ret tt
  end.

Definition opt_dryRun (options : option RollbackOptions) : bool :=
  match options with Some o => dryRun o | None => false end.
Definition opt_skipVerification (options : option RollbackOptions) : bool :=
  match options with Some o => skipVerification o | None => false end.

(** *** reverseChanges *)

Definition inverse (change : SessionChange) : SessionChange :=
  let inversed := change in
  match Change.op change with
  | created =>
      Change.set_hNew None
        (Change.set_hOld (Change.hNew change)
           (Change.set_op deleted inversed))
  | modified =>
      Change.set_eols (Change.eolAfter change) (Change.eolBefore change)
        (Change.set_modes (Change.modeAfter change) (Change.modeBefore change)
           (Change.set_mtimes (Change.mtimeAfter change) (Change.mtimeBefore change)
              (Change.set_sizes (Change.sizeAfter change) (Change.sizeBefore change)
                 (Change.set_hNew (Change.hOld change)
                    (Change.set_hOld (Change.hNew change) inversed)))))
  | deleted =>
      Change.set_hOld None
        (Change.set_hNew (Change.hOld change)
           (Change.set_op created inversed))
  | renamed =>
      let temp := Change.p inversed in
      Change.set_hNew (Change.hOld change)
        (Change.set_hOld (Change.hNew change)
           (Change.set_from (Some temp)
              (Change.set_p (or_else (Change.from change) (Change.p change)) inversed)))
  end.

Definition reverseChanges (changes : list SessionChange) : list SessionChange :=
  let reversed := rev changes in
  map inverse reversed.

(** *** safeRename, cleanupStaging *)

Definition safeRename (src dst : string) : M World unit :=
  try_catch (rename src dst)
    (fun e =>
       if bool_decide (exn_code e = Some "EXDEV") then
         copyFile src dst >>> unlink src
       else throw e).

Definition cleanupStaging (stagingDir : string) : M World unit :=
  try_catch
    (let! present := existsSync stagingDir in
     when present (rm stagingDir))
    (fun _ => ret tt).

(** *** stageChange *)

Definition stageChange (self : t) (change : SessionChange) (stagingDir : string)
  : M State unit :=
  let stagingPath := path_join [stagingDir; Change.p change] in
  match Change.op change with
  | deleted => modify (on_filesToDelete (set_add (Change.p change)))
  | _ =>
      if negb (truthy (Change.hNew change)) then
        throw (Error ("Missing hash for " ++ ChangeOp_string (Change.op change)
                        ++ " operation on " ++ Change.p change))
      else
        let hash := or_else (Change.hNew change) "" in
        let! blobResult := liftW (get (blobStore self) hash) in
        match blobResult with
        | Err e =>
            throw (Error ("Failed to retrieve blob " ++ hash ++ ": " ++ message e))
        | Ok None => throw (Error ("Blob not found: " ++ hash))
        | Ok (Some content) =>
            liftW (mkdir (dirname stagingPath)) >>>
            liftW (writeFile stagingPath content) >>>
            when (truthyZ (Change.mtimeAfter change)) (liftW (utimes stagingPath)) >>>
            when (truthyZ (Change.modeAfter change) && negb (win32 self))
                 (liftW (chmod stagingPath)) >>>
            modify (on_stagedFiles (map_set (Change.p change) (mkStaged hash content)))
        end
  end.

(** *** validateStaging *)

Definition validateStaging (stagedFiles : list (string * StagedFile)) : list FileError :=
  flat_map
    (fun entry =>
       let filePath := fst entry in
       let computedHash := sha256_hex (content (snd entry)) in
       if negb (String.eqb computedHash (hash (snd entry))) then
         [mkFileError filePath
            ("Hash mismatch: expected " ++ hash (snd entry) ++ ", got " ++ computedHash)]
       else [])
    stagedFiles.

(** *** atomicSwap *)

Record SwapResult := mkSwap {
  swap_success : bool;
  swap_reverted : list string;
  swap_skipped : list string;
  swap_errors : list FileError
}.

(** [for] loop with a running index, [i] for the first element. *)
Fixpoint for_indexed {St A} (i : nat) (xs : list A)
         (body : nat -> A -> M St unit) : M St unit :=
  match xs with
  | [] => ret tt
  | x :: rest => body i x >>> for_indexed (S i) rest body
  end.

Definition Qnat (n : nat) : Q := inject_Z (Z.of_nat n).

Definition swapStaged (self : t) (sessionId : string) (relPath : string) : M State unit :=
  let absPath := path_join [workspaceRoot self; relPath] in
  let stagingPath :=
    path_join [workspaceRoot self; ".snapback-rollback-" ++ sessionId; relPath] in
  let backupPath := absPath ++ ".bak-" ++ sessionId in
  try_catch
    (let! present := liftW (existsSync absPath) in
     when present
       (liftW (safeRename absPath backupPath) >>>
        modify (on_journal (Journal.push_backup (mkBackup absPath backupPath)))) >>>
     liftW (safeRename stagingPath absPath) >>>
     modify (on_reverted (push relPath)))
    (fun error =>
       modify (on_skipped (push relPath)) >>>
       modify (on_errors (push (mkFileError relPath (exn_msg error)))) >>>
       let! present := liftW (existsSync backupPath) in
       when present (liftW (safeRename backupPath absPath))).

Definition swapDeleted (self : t) (sessionId : string) (relPath : string) : M State unit :=
  let absPath := path_join [workspaceRoot self; relPath] in
  let backupPath := absPath ++ ".bak-" ++ sessionId in
  try_catch
    (let! present := liftW (existsSync absPath) in
     if present then
       liftW (safeRename absPath backupPath) >>>
       modify (on_journal (Journal.push_backup (mkBackup absPath backupPath))) >>>
       modify (on_reverted (push relPath))
     else modify (on_skipped (push relPath)))
    (fun error =>
       modify (on_skipped (push relPath)) >>>
       modify (on_errors (push (mkFileError relPath (exn_msg error)))) >>>
       let! present := liftW (existsSync backupPath) in
       when present (liftW (safeRename backupPath absPath))).

Definition atomicSwap (self : t) (sessionId : string) (options : option RollbackOptions)
  : M State SwapResult :=
  modify (on_errors (fun _ => [])) >>>
  modify (on_skipped (fun _ => [])) >>>
  modify (on_reverted (fun _ => [])) >>>
  try_catch
    (let! staged := gets stagedFiles in
     let! toDelete := gets filesToDelete in
     let total := (List.length staged + List.length toDelete)%nat in
     for_indexed 0 (map fst staged)
       (fun i relPath =>
          let processed := S i in
          progress options (60 + (Qnat processed / Qnat total) * 30)%Q >>>
          swapStaged self sessionId relPath) >>>
     for_indexed (List.length staged) toDelete
       (fun i relPath =>
          let processed := S i in
          progress options (60 + (Qnat processed / Qnat total) * 30)%Q >>>
          swapDeleted self sessionId relPath) >>>
     let! s := gets id in
     ret (mkSwap (Nat.eqb (List.length (errors s)) 0) (reverted s) (skipped s) (errors s)))
    (fun error =>
       let! j := gets journal in
       for_each (Journal.backups j)
         (fun b =>
            let! present := liftW (existsSync (backup b)) in
            when present
              (try_catch (liftW (safeRename (backup b) (original b))) (fun _ => ret tt))) >>>
       let! s := gets id in
       ret (mkSwap false (reverted s) (skipped s)
              (mkFileError "<session>" ("Fatal error during swap: " ++ exn_msg error)
                 :: errors s))).

(** *** rollback *)

(** [now] is the reading of [Date.now()]. *)
Definition rollback_body (self : t) (manifest : SessionManifestV1)
           (options : option RollbackOptions) : M State RollbackResult.t :=
  try_catch
    (liftW (mkdir (path_join [journalDir self; "pending"])) >>>
     liftW (mkdir (path_join [journalDir self; "committed"])) >>>
     let journalPath :=
       path_join [journalDir self; "pending"; sessionId manifest ++ ".json"] in
     let! j := gets journal in
     liftW (writeFile journalPath (stringify j)) >>>
     modify (on_result (RollbackResult.set_journalPath journalPath)) >>>
     progress options 10%Q >>>
     let reversedChanges := reverseChanges (filesChanged manifest) in
     let stagingDir :=
       path_join [workspaceRoot self; ".snapback-rollback-" ++ sessionId manifest] in
     liftW (mkdir stagingDir) >>>
     let deletedDir := path_join [stagingDir; ".deleted"] in
     liftW (mkdir deletedDir) >>>
     for_indexed 0 reversedChanges
       (fun i change =>
          progress options
            (10 + (Qnat i / Qnat (List.length reversedChanges)) * 40)%Q >>>
          try_catch (stageChange self change stagingDir)
            (fun error =>
               modify (on_result (RollbackResult.push_filesSkipped [Change.p change])) >>>
               modify (on_result (RollbackResult.push_errors
                                    [mkFileError (Change.p change) (exn_msg error)])))) >>>
     progress options 50%Q >>>
     let! staged := gets stagedFiles in
     let validationErrors :=
       if negb (opt_skipVerification options) then validateStaging staged else [] in
     if Nat.ltb 0 (List.length validationErrors) then
       for_each validationErrors
         (fun error =>
            modify (on_result (RollbackResult.push_errors [error])) >>>
            modify (on_result (RollbackResult.push_filesSkipped [path error]))) >>>
       liftW (cleanupStaging stagingDir) >>>
       modify (on_journal (Journal.set_status rolled_back)) >>>
       let! j := gets journal in
       liftW (writeFile journalPath (stringify j)) >>>
       gets result
     else
       progress options 60%Q >>>
       if opt_dryRun options then
         modify (on_result (RollbackResult.set_success true)) >>>
         modify (on_result (RollbackResult.set_filesReverted (map fst staged))) >>>
         liftW (cleanupStaging stagingDir) >>>
         liftW (unlink journalPath) >>>
         gets result
       else
         let! swapResult := atomicSwap self (sessionId manifest) options in
         modify (on_result (RollbackResult.set_filesReverted (swap_reverted swapResult))) >>>
         modify (on_result (RollbackResult.push_filesSkipped (swap_skipped swapResult))) >>>
         modify (on_result (RollbackResult.push_errors (swap_errors swapResult))) >>>
         modify (on_result (RollbackResult.set_success (swap_success swapResult))) >>>
         progress options 90%Q >>>
         (if swap_success swapResult then
            modify (on_journal (Journal.set_status committed)) >>>
            let! j := gets journal in
            liftW (writeFile
                     (path_join [journalDir self; "committed"; sessionId manifest ++ ".json"])
                     (stringify j)) >>>
            liftW (unlink journalPath) >>>
            for_each (Journal.backups j)
              (fun b =>
                 let! present := liftW (existsSync (backup b)) in
                 when present (liftW (unlink (backup b))))
          else
            modify (on_journal (Journal.set_status pending)) >>>
            let! j := gets journal in
            liftW (writeFile journalPath (stringify j))) >>>
         liftW (cleanupStaging stagingDir) >>>
         progress options 100%Q >>>
         gets result)
    (fun error =>
       modify (on_result (RollbackResult.push_errors
                            [mkFileError "<session>"
                               ("Rollback failed: " ++ exn_msg error)])) >>>
       gets result).

Definition initial_state (self : t) (manifest : SessionManifestV1) (now : Z)
           (w : World) : State :=
  mkState w
    (RollbackResult.mk false [] [] [] None)
    (Journal.mk (sessionId manifest) now (workspaceRoot self)
                (filesChanged manifest) [] pending)
    [] [] [] [] [].

Definition rollback (self : t) (manifest : SessionManifestV1)
           (options : option RollbackOptions) (now : Z) : M World RollbackResult.t :=
  fun w =>
    let (r, s) := rollback_body self manifest options (initial_state self manifest now w) in
    (r, world s).

End WithStore.
End SessionRollback.

(* ===================================================================== *)
(** ** session/SessionRecovery.ts *)
(* ===================================================================== *)

Inductive RecoveryStatus := recovered | cleaned | failed.

Module RecoveryResult.
Record t := mk {
  sessionId : string;
  status : RecoveryStatus;
  filesRestored : nat;
  error : option string
}.
Definition set_status (v : RecoveryStatus) (r : t) : t :=
  mk (sessionId r) v (filesRestored r) (error r).
Definition set_filesRestored (v : nat) (r : t) : t :=
  mk (sessionId r) (status r) v (error r).
Definition set_error (v : string) (r : t) : t :=
  mk (sessionId r) (status r) (filesRestored r) (Some v).
End RecoveryResult.

Module SessionRecovery.

(** The objects a recovery mutates: the world, [result], and the counter
    [restoredCount] of [rollbackFromBackups]. *)
Record State := mkState {
  world : World;
  result : RecoveryResult.t;
  restoredCount : nat
}.

Definition on_world (f : World -> World) (s : State) : State :=
  mkState (f (world s)) (result s) (restoredCount s).
Definition on_result (f : RecoveryResult.t -> RecoveryResult.t) (s : State) : State :=
  mkState (world s) (f (result s)) (restoredCount s).
Definition on_restoredCount (f : nat -> nat) (s : State) : State :=
  mkState (world s) (result s) (f (restoredCount s)).

#[export] Instance State_HasWorld : HasWorld State :=
  {| getW := world; setW := fun w s => on_world (fun _ => w) s |}.

Definition checkBackupsExist (backups : list Backup) : M World bool :=
  gets (fun w => existsb (fun b => exists_in w (backup b)) backups).

Definition safeRename (src dst : string) : M World unit :=
  try_catch (rename src dst)
    (fun e =>
       if bool_decide (exn_code e = Some "EXDEV") then
         copyFile src dst >>> unlink src
       else throw e).

Definition restoreBackup (b : Backup) : M State unit :=
  try_catch
    (let! present := liftW (existsSync (backup b)) in
     if negb present then ret tt
     else
       liftW (safeRename (backup b) (original b)) >>>
       modify (on_restoredCount S) >>>
       let! residual := liftW (existsSync (backup b)) in
       when residual (liftW (unlink (backup b))))
    (fun _ => ret tt).

Definition rollbackFromBackups (backups : list Backup) : M State nat :=
  modify (on_restoredCount (fun _ => 0)) >>>
  for_each backups restoreBackup >>>
  gets restoredCount.

Definition recoverJournal_body (journal : JournalEntry) (journalPath : string)
  : M State RecoveryResult.t :=
  try_catch
    (let! backupExists := liftW (checkBackupsExist (Journal.backups journal)) in
     if negb backupExists then
       liftW (unlink journalPath) >>>
       modify (on_result (RecoveryResult.set_status cleaned)) >>>
       gets result
     else
       let! count := rollbackFromBackups (Journal.backups journal) in
       modify (on_result (RecoveryResult.set_filesRestored count)) >>>
       modify (on_result (RecoveryResult.set_status recovered)) >>>
       liftW (unlink journalPath) >>>
       gets result)
    (fun error =>
       modify (on_result (RecoveryResult.set_status failed)) >>>
       modify (on_result (RecoveryResult.set_error (exn_msg error))) >>>
       gets result).

Definition recoverJournal (journal : JournalEntry) (journalPath : string)
  : M World RecoveryResult.t :=
  fun w =>
    let (r, s) :=
      recoverJournal_body journal journalPath
        (mkState w (RecoveryResult.mk (Journal.sessionId journal) cleaned 0 None) 0) in
    (r, world s).


(** The recovery of a workspace: [new SessionRecovery(workspaceRoot,
    journalDir)]. *)
Record t := mk { workspaceRoot : string; journalDir : string }.

Definition new (workspaceRoot : string) (journalDir : option string) : t :=
  mk workspaceRoot
     (match journalDir with
      | Some d => d
      | None => path_join [workspaceRoot; ".sb_journal"]
      end).

(** [recoverJournalById(sessionId)]; [parse] is [JSON.parse], which
    throws on a text that is not JSON. *)
Definition recoverJournalById (parse : bytes -> Exn + JournalEntry)
           (self : t) (sessionId : string) : M World RecoveryResult.t :=
  let journalPath := path_join [journalDir self; "pending"; sessionId ++ ".json"] in
  let! present := existsSync journalPath in
  if negb present then
    ret (RecoveryResult.mk sessionId failed 0 (Some "Journal not found"))
  else
    let! content := readFile journalPath in
    match parse content with
    | inl e => throw e
    | inr journal => recoverJournal journal journalPath
    end.

(** [deleteJournal(sessionId)] *)
Definition deleteJournal (self : t) (sessionId : string) : M World unit :=
  let pendingPath := path_join [journalDir self; "pending"; sessionId ++ ".json"] in
  let committedPath := path_join [journalDir self; "committed"; sessionId ++ ".json"] in
  (let! present := existsSync pendingPath in
   when present (unlink pendingPath)) >>>
  (let! present := existsSync committedPath in
   when present (unlink committedPath)).

End SessionRecovery.

(* ===================================================================== *)
(** ** SessionManager *)
(* ===================================================================== *)


(** [s.replace(pat, rep)] with a string pattern: the first occurrence. *)
Definition replace_first (pat rep s : string) : string :=
  match String.index 0 pat s with
  | Some n =>
      String.substring 0 n s ++ rep
        ++ String.substring (n + String.length pat)
                            (String.length s - (n + String.length pat)) s
  | None => s
  end.

Inductive SessionTrigger :=
| filewatch | pre_commit | manual | idle_finalize | blur | task | max_duration.

#[export] Instance SessionTrigger_eq_dec : EqDecision SessionTrigger.
Proof. solve_decision. Defined.

Record TrackMeta := mkMeta {
  meta_fromPath : option string;
  meta_oldUri : option string;
  meta_newUri : option string;
  meta_size : option Z;
  meta_mtime : option Z;
  meta_mode : option Z
}.

Record ActiveSessionState := mkActive {
  active_sessionId : string;
  startedAt : Z;
  triggers : list SessionTrigger;
  changeBuffer : list SessionChange
}.

Module SessionManager.
Section WithStore.

Context {B : Type} `{BlobStore B}.

(** [minimatch(relPath, pattern, { dot: true })] *)
Variable minimatch : string -> string -> bool.

Record Options := mkOpts {
  opt_workspaceUri : string;
  opt_workspaceRoot : string;
  opt_blobStore : B;
  opt_flushBatchSize : option nat;
  opt_ignorePatterns : option (list string);
  (** whether a database connection was given *)
  opt_db : bool;
  (** [process.cwd()] *)
  opt_cwd : string
}.

Definition default_ignorePatterns : list string :=
  [ "node_modules/**"; ".next/**"; "dist/**"; "build/**"; "coverage/**";
    ".git/**"; "*.log"; "*.tmp"; "*.swp"; ".DS_Store" ].

Definition ignorePatterns (o : Options) : list string :=
  match opt_ignorePatterns o with
  | Some l => l
  | None => default_ignorePatterns
  end.

(** The manager, the files it works on, and the rows it has written to
    [session_changes] (session id and the persisted columns).  Timers,
    analytics and the AI tracker do not touch the change buffer and are
    left out; so are the rows of the [sessions] table. *)
Record State := mkState {
  world : World;
  activeSession : option ActiveSessionState;
  session_changes : list (string * SessionChange)
}.

Definition on_world (f : World -> World) (s : State) : State :=
  mkState (f (world s)) (activeSession s) (session_changes s).
Definition on_activeSession (f : option ActiveSessionState -> option ActiveSessionState)
           (s : State) : State :=
  mkState (world s) (f (activeSession s)) (session_changes s).
Definition on_session_changes (f : list (string * SessionChange) -> list (string * SessionChange))
           (s : State) : State :=
  mkState (world s) (activeSession s) (f (session_changes s)).

#[export] Instance State_HasWorld : HasWorld State :=
  {| getW := world; setW := fun w s => on_world (fun _ => w) s |}.

Definition normalizePath (o : Options) (absolutePath : string) : string :=
  let relPath := Path.relative (opt_cwd o) (opt_workspaceRoot o) absolutePath in
  Path.join_sep (Path.split relPath).

Definition shouldIgnore (o : Options) (relPath : string) : bool :=
  existsb (fun pattern => minimatch relPath pattern) (ignorePatterns o).

Definition set_add_trigger (t : SessionTrigger) (l : list SessionTrigger)
  : list SessionTrigger :=
  if existsb (fun t' => bool_decide (t' = t)) l then l else (l ++ [t])%list.

Definition push_change (change : SessionChange) (a : ActiveSessionState)
  : ActiveSessionState :=
  mkActive (active_sessionId a) (startedAt a) (triggers a) (changeBuffer a ++ [change])%list.

(** *** track *)
Definition track (o : Options) (absolutePath : string) (op : ChangeOp)
           (meta : option TrackMeta) : M State unit :=
  let! active := gets activeSession in
  match active with
  | None => ret tt
  | Some _ =>
      let relPath := normalizePath o absolutePath in
      if shouldIgnore o relPath then ret tt
      else
        let fromPath :=
          match op, meta with
          | renamed, Some m =>
              if truthy (meta_fromPath m) then
                Some (normalizePath o (or_else (meta_fromPath m) ""))
              else if truthy (meta_oldUri m) then
                let oldAbsPath := replace_first "file://" "" (or_else (meta_oldUri m) "") in
                Some (normalizePath o oldAbsPath)
              else None
          | _, _ => None
          end in
        let change :=
          Change.mk relPath op fromPath None None
                    None (meta ≫= meta_size)
                    None (meta ≫= meta_mtime)
                    None (meta ≫= meta_mode)
                    None None in
        modify (on_activeSession (fmap (push_change change)))
  end.

(** *** computeDeferredHashes *)
Definition hashChange (o : Options) (change : SessionChange) : M World SessionChange :=
  let absPath := path_join [opt_workspaceRoot o; Change.p change] in
  try_catch
    (if negb (bool_decide (Change.op change = deleted)) then
       let! content := readFile absPath in
       let! result := put (opt_blobStore o) content in
       match result with
       | Ok value => ret (Change.set_hNew (Some value) change)
       | Err _ => ret change
       end
     else ret change)
    (fun _ => ret change).

Fixpoint computeDeferredHashes (o : Options) (changes : list SessionChange)
  : M World (list SessionChange) :=
  match changes with
  | [] => ret []
  | change :: rest =>
      let! change' := hashChange o change in
      let! rest' := computeDeferredHashes o rest in
      ret (change' :: rest')
  end.

(** The columns of the [INSERT INTO session_changes]. *)
Definition row_of (change : SessionChange) : SessionChange :=
  Change.mk (Change.p change) (Change.op change) (Change.from change)
            (Change.hOld change) (Change.hNew change)
            None (Change.sizeAfter change)
            None (Change.mtimeAfter change)
            None (Change.modeAfter change)
            None (Change.eolAfter change).

(** *** finalize *)
Definition finalize (o : Options) : M State (string * nat) :=
  let! active := gets activeSession in
  match active with
  | None => throw (Error "No active session to finalize")
  | Some a =>
      let sessionId := active_sessionId a in
      let changeCount := List.length (changeBuffer a) in
      let triggers' := set_add_trigger manual (triggers a) in
      let! hashed := liftW (computeDeferredHashes o (changeBuffer a)) in
      modify (on_activeSession
                (fun _ => Some (mkActive sessionId (startedAt a) triggers' hashed))) >>>
      when (opt_db o && Nat.ltb 0 (List.length hashed))
           (modify (on_session_changes
                      (fun rows => rows ++ map (fun c => (sessionId, row_of c)) hashed)%list)) >>>
      modify (on_activeSession (fun _ => None)) >>>
      ret (sessionId, changeCount)
  end.

(** *** start; [sessionId] is the value of [createId()], [now] of
    [Date.now()]. *)
Definition start (o : Options) (sessionId : string) (now : Z) : M State string :=
  let! active := gets activeSession in
  match active with
  | Some _ => finalize o >>> ret tt
  | None => ret tt
  end >>>
  modify (on_activeSession (fun _ => Some (mkActive sessionId now [filewatch] []))) >>>
  ret sessionId.

(** The manifest changes that [getManifest] reads back for a session. *)
Definition manifest_changes (sessionId : string) (s : State) : list SessionChange :=
  map snd (List.filter (fun row => String.eqb (fst row) sessionId) (session_changes s)).


(** *** Triggers as a bitmask *)

(** [encodeTriggers]: the four tests of the loop body, one after the
    other, on every trigger of the set. *)
Definition encodeTrigger (mask : Z) (trigger : SessionTrigger) : Z :=
  let mask := if bool_decide (trigger = filewatch) then Z.lor mask 1 else mask in
  let mask := if bool_decide (trigger = pre_commit) then Z.lor mask 2 else mask in
  let mask := if bool_decide (trigger = manual) then Z.lor mask 4 else mask in
  let mask := if bool_decide (trigger = idle_finalize) then Z.lor mask 8 else mask in
  mask.

Definition encodeTriggers (triggers : list SessionTrigger) : Z :=
  fold_left encodeTrigger triggers 0%Z.

(** [decodeTriggers]; [mask & b] is truthy when it is not 0. *)
Definition decodeTriggers (mask : Z) : list SessionTrigger :=
  let triggers : list SessionTrigger := [] in
  let triggers := if negb (Z.eqb (Z.land mask 1) 0) then (triggers ++ [filewatch])%list else triggers in
  let triggers := if negb (Z.eqb (Z.land mask 2) 0) then (triggers ++ [pre_commit])%list else triggers in
  let triggers := if negb (Z.eqb (Z.land mask 4) 0) then (triggers ++ [manual])%list else triggers in
  let triggers :=
    if negb (Z.eqb (Z.land mask 8) 0) then (triggers ++ [idle_finalize])%list else triggers in
  triggers.

(** *** current, autoFinalize *)

Definition current (s : State) : option string * nat :=
  match activeSession s with
  | None => (None, 0)
  | Some a => (Some (active_sessionId a), List.length (changeBuffer a))
  end.

Definition add_trigger (t : SessionTrigger) (a : ActiveSessionState) : ActiveSessionState :=
  mkActive (active_sessionId a) (startedAt a) (set_add_trigger t (triggers a))
           (changeBuffer a).

Definition autoFinalize (o : Options) : M State unit :=
  let! active := gets activeSession in
  match active with
  | None => ret tt
  | Some _ =>
      modify (on_activeSession (fmap (add_trigger idle_finalize))) >>>
      finalize o >>> ret tt
  end.

End WithStore.
End SessionManager.

(* ===================================================================== *)
(** ** Inputs for concrete runs *)
(* ===================================================================== *)

Module Fixture.
Definition status_string (s : JournalStatus) : string :=
  match s with
  | pending => "pending"
  | committed => "committed"
  | rolled_back => "rolled-back"
  end.

(** A stand-in for [JSON.stringify]: the session id and the status. *)
Definition show_journal (j : JournalEntry) : bytes :=
  bytes_of_string (Journal.sessionId j ++ ":" ++ status_string (Journal.status j)).

Definition store : FilesystemBlobStore.t := FilesystemBlobStore.mk "/blobs" true.
Definition engine : SessionRollback.t := SessionRollback.new "/work" store None false.

Definition eacces (p : string) : Exn :=
  mkExn (Some "EACCES") ("EACCES: permission denied, " ++ p).
Definition exdev (p : string) : Exn :=
  mkExn (Some "EXDEV") ("EXDEV: cross-device link not permitted, " ++ p).

(** An environment where one operation on one path fails. *)
Definition fail_on (op : FsOp) (p : string) (e : Exn) : FsOp -> string -> option Exn :=
  fun op' p' => if bool_decide (op' = op) && String.eqb p' p then Some e else None.

(** The blobs [l] put into the store. *)
Definition with_blobs (l : list bytes) (w : World) : World :=
  fold_left (fun w b => snd (FilesystemBlobStore.put store b w)) l w.

Definition plain (p : string) (op : ChangeOp) (hOld hNew : option string) : SessionChange :=
  Change.mk p op None hOld hNew None None None None None None None None.

Definition modified_file (p : string) (old new : bytes) : SessionChange :=
  plain p modified (Some (sha256_hex old)) (Some (sha256_hex new)).

(** A store that hands out what it holds without checking it (the
    interface does not promise the check of [FilesystemBlobStore.get]). *)
Record Unchecked := unchecked { blobs : list (string * bytes) }.

Fixpoint held (h : string) (l : list (string * bytes)) : option bytes :=
  match l with
  | [] => None
  | (h', b) :: rest => if String.eqb h' h then Some b else held h rest
  end.

#[export] Instance Unchecked_BlobStore : BlobStore Unchecked :=
  {| put := fun _ buf => ret (Ok (sha256_hex buf));
     get := fun st h => ret (Ok (held h (blobs st))) |}.

(** No ignore pattern is configured, so the matcher is never asked. *)
Definition no_match (relPath pattern : string) : bool := false.

Definition manager : SessionManager.Options :=
  SessionManager.mkOpts "file:///work" "/work" store None (Some []) true "/".

Definition idle (w : World) : SessionManager.State := SessionManager.mkState w None [].
End Fixture.

(* ===================================================================== *)
(** * Properties *)
(* ===================================================================== *)

(** ** The digest on known inputs *)

Example sha256_empty :
  sha256_hex [] = "e3b0c44298fc1c149afbf4c8996fb92427ae41e4649b934ca495991b7852b855".
Proof. vm_compute. reflexivity. Qed.

Example sha256_hello_world :
  sha256_hex (bytes_of_string "Hello, world!")
  = "315f5bdb76d078c43b8ac0064e4a0164612b1fce77c869345bfc94c75894edd3".
Proof. vm_compute. reflexivity. Qed.

Example sha256_two_blocks :
  sha256_hex (bytes_of_string "abcdbcdecdefdefgefghfghighijhijkijkljklmklmnlmnomnopnopq")
  = "248d6a61d20638b8e5c026930c3e6039a33ce45964ff2167f6ecedd419db06c1".
Proof. vm_compute. reflexivity. Qed.

(** * Reasoning about computations in [M] *)

Ltac munfold :=
  unfold bind, ret, throw, try_catch, gets, modify, when, Fs.guard, liftW in *.


Section Keeps.
Context {S : Type}.

(** [keeps I m]: [m] preserves [I], whether it returns or throws. *)
Definition keeps {A} (I : S -> Prop) (m : M S A) : Prop :=
  forall s r s', I s -> m s = (r, s') -> I s'.

(** [total m]: [m] returns a value in every state. *)
Definition total {A} (m : M S A) : Prop :=
  forall s, exists a s', m s = (inr a, s').

Lemma keeps_ret {A} I (a : A) : keeps I (ret a).
Proof. intros s r s' HI [= <- <-]. exact HI. Qed.

Lemma keeps_throw {A} I e : keeps I (@throw S A e).
Proof. intros s r s' HI [= <- <-]. exact HI. Qed.

Lemma keeps_gets {A} I (f : S -> A) : keeps I (gets f).
Proof. intros s r s' HI [= <- <-]. exact HI. Qed.

Lemma keeps_modify I (f : S -> S) : (forall s, I s -> I (f s)) -> keeps I (modify f).
Proof. intros Hf s r s' HI [= <- <-]. now apply Hf. Qed.

Lemma keeps_bind {A B} I (m : M S A) (k : A -> M S B) :
  keeps I m -> (forall a, keeps I (k a)) -> keeps I (bind m k).
Proof.
  intros Hm Hk s r s' HI. unfold bind.
  destruct (m s) as [[e|a] s1] eqn:Em.
  - intros [= <- <-]. eapply Hm; eauto.
  - intros Hk'. eapply Hk; [|exact Hk']. eapply Hm; eauto.
Qed.

(** Two assignments in a row may break and restore the invariant. *)
Lemma keeps_modify2 {A} I (f g : S -> S) (k : M S A) :
  (forall s, I s -> I (g (f s))) -> keeps I k ->
  keeps I (bind (modify f) (fun _ => bind (modify g) (fun _ => k))).
Proof.
  intros Hfg Hk s r s' HI. unfold bind, modify. simpl. intros Hr.
  eapply Hk; [|exact Hr]. now apply Hfg.
Qed.

Lemma keeps_try {A} I (m : M S A) (h : Exn -> M S A) :
  keeps I m -> (forall e, keeps I (h e)) -> keeps I (try_catch m h).
Proof.
  intros Hm Hh s r s' HI. unfold try_catch.
  destruct (m s) as [[e|a] s1] eqn:Em.
  - intros Hh'. eapply Hh; [|exact Hh']. eapply Hm; eauto.
  - intros [= <- <-]. eapply Hm; eauto.
Qed.

Lemma keeps_when I (b : bool) (m : M S unit) : keeps I m -> keeps I (when b m).
Proof. destruct b; simpl; [auto|intros _; apply keeps_ret]. Qed.

Lemma keeps_for_each {A} I (xs : list A) (body : A -> M S unit) :
  (forall x, keeps I (body x)) -> keeps I (for_each xs body).
Proof.
  intros Hb. induction xs as [|x xs IH]; simpl.
  - apply keeps_ret.
  - apply keeps_bind; [apply Hb|intros _; exact IH].
Qed.

Lemma keeps_liftW {A} `{HasWorld S} I (m : M World A) :
  (forall s w, I s -> I (setW w s)) -> keeps I (liftW m).
Proof.
  intros Hw s r s' HI. unfold liftW.
  destruct (m (getW s)) as [r1 w1]. intros [= <- <-]. now apply Hw.
Qed.

Lemma total_ret {A} (a : A) : total (ret a).
Proof. intros s. now exists a, s. Qed.

Lemma total_gets {A} (f : S -> A) : total (gets f).
Proof. intros s. now exists (f s), s. Qed.

Lemma total_modify (f : S -> S) : total (modify f).
Proof. intros s. now exists tt, (f s). Qed.

Lemma total_bind {A B} (m : M S A) (k : A -> M S B) :
  total m -> (forall a, total (k a)) -> total (bind m k).
Proof.
  intros Hm Hk s. destruct (Hm s) as (a & s1 & Em).
  destruct (Hk a s1) as (b & s2 & Ek). exists b, s2.
  unfold bind. now rewrite Em.
Qed.

Lemma total_try {A} (m : M S A) (h : Exn -> M S A) :
  (forall e, total (h e)) -> total (try_catch m h).
Proof.
  intros Hh s. unfold try_catch.
  destruct (m s) as [[e|a] s1]; [apply Hh|now exists a, s1].
Qed.

Lemma total_when (b : bool) (m : M S unit) : total m -> total (when b m).
Proof. destruct b; simpl; [auto|intros _; apply total_ret]. Qed.

Lemma total_for_each {A} (xs : list A) (body : A -> M S unit) :
  (forall x, total (body x)) -> total (for_each xs body).
Proof.
  intros Hb. induction xs as [|x xs IH]; simpl.
  - apply total_ret.
  - apply total_bind; [apply Hb|intros _; exact IH].
Qed.

(** Postconditions on the value returned and on the exception thrown. *)
Definition hoare {A} (P : S -> Prop) (m : M S A)
           (Q : A -> S -> Prop) (E : Exn -> S -> Prop) : Prop :=
  forall s r s', P s -> m s = (r, s') ->
                 match r with inr a => Q a s' | inl e => E e s' end.

Lemma hoare_conseq {A} (P P' : S -> Prop) (m : M S A) (Q Q' : A -> S -> Prop) E E' :
  hoare P' m Q' E' ->
  (forall s, P s -> P' s) -> (forall a s, Q' a s -> Q a s) ->
  (forall e s, E' e s -> E e s) ->
  hoare P m Q E.
Proof.
  intros Hm HP HQ HE s r s' Hs Hr. specialize (Hm s r s' (HP s Hs) Hr).
  destruct r; auto.
Qed.

Lemma hoare_keeps {A} I (m : M S A) : keeps I m -> hoare I m (fun _ => I) (fun _ => I).
Proof. intros Hm s r s' Hs Hr. destruct r; eapply Hm; eauto. Qed.

Lemma hoare_ret {A} (P : S -> Prop) (a : A) (Q : A -> S -> Prop) E :
  (forall s, P s -> Q a s) -> hoare P (ret a) Q E.
Proof. intros HQ s r s' Hs [= <- <-]. auto. Qed.

Lemma hoare_gets {A} (P : S -> Prop) (f : S -> A) (Q : A -> S -> Prop) E :
  (forall s, P s -> Q (f s) s) -> hoare P (gets f) Q E.
Proof. intros HQ s r s' Hs [= <- <-]. auto. Qed.

Lemma hoare_modify (P : S -> Prop) (f : S -> S) (Q : unit -> S -> Prop) E :
  (forall s, P s -> Q tt (f s)) -> hoare P (modify f) Q E.
Proof. intros HQ s r s' Hs [= <- <-]. auto. Qed.

Lemma hoare_bind {A B} (P : S -> Prop) (m : M S A) (k : A -> M S B)
      (R : A -> S -> Prop) (Q : B -> S -> Prop) E :
  hoare P m R E -> (forall a, hoare (R a) (k a) Q E) -> hoare P (bind m k) Q E.
Proof.
  intros Hm Hk s r s' Hs. unfold bind.
  destruct (m s) as [[e|a] s1] eqn:Em.
  - intros [= <- <-]. exact (Hm s _ _ Hs Em).
  - intros Hr. exact (Hk a s1 r s' (Hm s _ _ Hs Em) Hr).
Qed.

Lemma hoare_try {A} (P : S -> Prop) (m : M S A) (h : Exn -> M S A)
      (Q : A -> S -> Prop) (E' E : Exn -> S -> Prop) :
  hoare P m Q E' -> (forall e, hoare (E' e) (h e) Q E) -> hoare P (try_catch m h) Q E.
Proof.
  intros Hm Hh s r s' Hs. unfold try_catch.
  destruct (m s) as [[e|a] s1] eqn:Em.
  - intros Hr. exact (Hh e s1 r s' (Hm s _ _ Hs Em) Hr).
  - intros [= <- <-]. exact (Hm s _ _ Hs Em).
Qed.

(** A prefix that only has to preserve the invariant. *)
Lemma hoare_seq_keeps {A B} (I : S -> Prop) (m : M S A) (k : A -> M S B)
      (Q : B -> S -> Prop) (E : Exn -> S -> Prop) :
  keeps I m -> (forall e s, I s -> E e s) ->
  (forall a, hoare I (k a) Q E) -> hoare I (bind m k) Q E.
Proof.
  intros Hm HE Hk. eapply hoare_bind with (R := fun _ => I); [|exact Hk].
  eapply hoare_conseq; [apply hoare_keeps, Hm|auto..].
Qed.

(** A ghost value read off the initial state. *)
Lemma hoare_ghost {A G} (g : S -> G) (P : S -> Prop) (m : M S A) Q E :
  (forall x, hoare (fun s => P s /\ g s = x) m Q E) -> hoare P m Q E.
Proof. intros Hm s r s' Hs Hr. exact (Hm (g s) s r s' (conj Hs eq_refl) Hr). Qed.

(** An assignment, by its strongest postcondition. *)
Lemma hoare_assign {A} (P : S -> Prop) (f : S -> S) (k : M S A) Q E :
  hoare (fun s => exists s0, P s0 /\ s = f s0) k Q E ->
  hoare P (bind (modify f) (fun _ => k)) Q E.
Proof.
  intros Hk s r s' Hs. unfold bind, modify. simpl. intros Hr.
  exact (Hk (f s) r s' (ex_intro _ s (conj Hs eq_refl)) Hr).
Qed.

(** A computation that always returns meets any exceptional postcondition. *)
Lemma hoare_total {A} (P : S -> Prop) (m : M S A) Q E E' :
  total m -> hoare P m Q E -> hoare P m Q E'.
Proof.
  intros Ht Hm s r s' Hs Hr. specialize (Hm s r s' Hs Hr).
  destruct (Ht s) as (a & s1 & Ha). rewrite Ha in Hr. injection Hr as <- <-. exact Hm.
Qed.

(** [steady I m]: [m] preserves [I] and does not throw. *)
Definition steady {A} (I : S -> Prop) (m : M S A) : Prop :=
  hoare I m (fun _ => I) (fun _ _ => False).

Lemma steady_ret {A} I (a : A) : steady I (ret a).
Proof. apply hoare_ret. auto. Qed.

Lemma steady_gets {A} I (f : S -> A) : steady I (gets f).
Proof. apply hoare_gets. auto. Qed.

Lemma steady_modify I (f : S -> S) : (forall s, I s -> I (f s)) -> steady I (modify f).
Proof. intros Hf. apply hoare_modify. auto. Qed.

Lemma steady_bind {A B} I (m : M S A) (k : A -> M S B) :
  steady I m -> (forall a, steady I (k a)) -> steady I (bind m k).
Proof. intros Hm Hk. eapply hoare_bind; [exact Hm|exact Hk]. Qed.

Lemma steady_try {A} I (m : M S A) (h : Exn -> M S A) :
  keeps I m -> (forall e, steady I (h e)) -> steady I (try_catch m h).
Proof.
  intros Hm Hh. eapply hoare_try; [apply hoare_keeps, Hm|exact Hh].
Qed.

Lemma steady_when I (b : bool) (m : M S unit) : steady I m -> steady I (when b m).
Proof. destruct b; simpl; [auto|intros _; apply steady_ret]. Qed.

Lemma steady_for_each {A} I (xs : list A) (body : A -> M S unit) :
  (forall x, In x xs -> steady I (body x)) -> steady I (for_each xs body).
Proof.
  induction xs as [|x xs IH]; intros Hb; simpl.
  - apply steady_ret.
  - apply steady_bind; [apply Hb; now left|intros _; apply IH].
    intros y Hy. apply Hb. now right.
Qed.

(** A prefix that preserves the invariant and does not throw. *)
Lemma hoare_seq_steady {A B} (I : S -> Prop) (m : M S A) (k : A -> M S B)
      (Q : B -> S -> Prop) (E : Exn -> S -> Prop) :
  steady I m -> (forall a, hoare I (k a) Q E) -> hoare I (bind m k) Q E.
Proof.
  intros Hm Hk. eapply hoare_bind with (R := fun _ => I); [|exact Hk].
  eapply hoare_conseq; [exact Hm|auto|auto|intros ? ? []].
Qed.

(** A lifted operation, by what it does to the world. *)
Lemma keeps_liftW_run {A} `{HasWorld S} I (m : M World A) :
  (forall s r w', I s -> m (getW s) = (r, w') -> I (setW w' s)) -> keeps I (liftW m).
Proof.
  intros Hw s r s' HI. unfold liftW.
  destruct (m (getW s)) as [r1 w1] eqn:Em. intros [= <- <-]. eapply Hw; eauto.
Qed.

Lemma steady_liftW_run {A} `{HasWorld S} I (m : M World A) :
  (forall s, I s -> exists a w', m (getW s) = (inr a, w') /\ I (setW w' s)) ->
  steady I (liftW m).
Proof.
  intros Hw s r s' HI. unfold liftW.
  destruct (Hw s HI) as (a & w' & Em & HI'). rewrite Em. intros [= <- <-]. exact HI'.
Qed.

(** Reading a component of the state. *)
Lemma hoare_read {A B} (P : S -> Prop) (f : S -> A) (k : A -> M S B) Q E :
  (forall a, hoare (fun s => P s /\ f s = a) (k a) Q E) ->
  hoare P (bind (gets f) k) Q E.
Proof.
  intros Hk s r s' Hs. unfold bind, gets. intros Hr.
  exact (Hk (f s) s r s' (conj Hs eq_refl) Hr).
Qed.

(** The rest of a run that only has to preserve [I]. *)
Lemma hoare_of_keeps {A} (I : S -> Prop) (m : M S A) (Q : A -> S -> Prop) E :
  keeps I m -> (forall a s, I s -> Q a s) -> (forall e s, I s -> E e s) ->
  hoare I m Q E.
Proof.
  intros Hm HQ HE. eapply hoare_conseq; [apply hoare_keeps, Hm|auto..].
Qed.
End Keeps.

Lemma total_existsSync {S} `{HasWorld S} p : total (S:=S) (liftW (existsSync p)).
Proof. intros s. unfold liftW, existsSync, gets. simpl. eauto. Qed.

(** * Loops and callbacks of the rollback engine *)

Module RollbackLogic.
Import SessionRollback.

Lemma keeps_for_indexed {St A} (I : St -> Prop) (xs : list A) body (i : nat) :
  (forall i x, In x xs -> keeps I (body i x)) -> keeps I (for_indexed i xs body).
Proof.
  revert i. induction xs as [|x xs IH]; intros i Hb; simpl.
  - apply keeps_ret.
  - apply keeps_bind; [apply Hb; now left|intros _; apply IH].
    intros j y Hy. apply Hb. now right.
Qed.

Lemma steady_for_indexed {St A} (I : St -> Prop) (xs : list A) body (i : nat) :
  (forall i x, In x xs -> steady I (body i x)) -> steady I (for_indexed i xs body).
Proof.
  revert i. induction xs as [|x xs IH]; intros i Hb; simpl.
  - apply steady_ret.
  - apply steady_bind; [apply Hb; now left|intros _; apply IH].
    intros j y Hy. apply Hb. now right.
Qed.

Lemma keeps_progress {St} (I : St -> Prop) options q : keeps I (progress options q).
Proof.
  unfold progress. destruct options as [o|]; [|apply keeps_ret].
  destruct (onProgress o) as [cb|]; [|apply keeps_ret].
  destruct (cb q); [apply keeps_throw|apply keeps_ret].
Qed.
End RollbackLogic.

(** One step of an invariance proof, by the shape of the program. *)
Ltac keeps_step :=
  lazymatch goal with
  | |- keeps _ (ret _) => apply keeps_ret
  | |- keeps _ (throw _) => apply keeps_throw
  | |- keeps _ (gets _) => apply keeps_gets
  | |- keeps _ (SessionRollback.progress _ _) => apply RollbackLogic.keeps_progress
  | |- keeps _ (bind (modify _) (fun _ => bind (modify _) _)) =>
      apply keeps_modify2; [intros ? ?|]
  | |- keeps _ (bind _ _) => apply keeps_bind; [|intros ?]
  | |- keeps _ (try_catch _ _) => apply keeps_try; [|intros ?]
  | |- keeps _ (when _ _) => apply keeps_when
  | |- keeps _ (for_each _ _) => apply keeps_for_each; intros ?
  | |- keeps _ (SessionRollback.for_indexed _ _ _) =>
      apply RollbackLogic.keeps_for_indexed; intros ? ? ?
  | |- keeps _ (liftW _) => apply keeps_liftW; intros ? ? ?
  | |- keeps _ (modify _) => apply keeps_modify; intros ? ?
  | |- keeps _ (if ?b then _ else _) => destruct b
  | |- keeps _ (match ?x with _ => _ end) => destruct x
  | |- keeps _ (let _ := _ in _) => cbv zeta
  end.

(** * Paths *)

Module PathFacts.
Import Path.

Fixpoint no_slash (s : string) : bool :=
  match s with
  | EmptyString => true
  | String c rest => negb (Ascii.eqb c "/") && no_slash rest
  end.

(** A segment that [path.normalize] leaves alone. *)
Definition clean_seg (s : string) : bool :=
  negb (String.eqb s "") && negb (String.eqb s ".") && negb (String.eqb s "..").

(** A relative path of clean segments: no [..], no [.], no empty segment,
    so no leading or trailing separator. *)
Definition rel_clean (p : string) : bool := forallb clean_seg (split p).

(** An absolute path of clean segments. *)
Definition abs_clean (d : string) : bool :=
  match split d with
  | first :: l => String.eqb first "" && negb (Nat.eqb (List.length l) 0) && forallb clean_seg l
  | [] => false
  end.

(** [String.append] is sealed against [simpl]: its two equations. *)
Lemma sapp_nil (s : string) : "" ++ s = s.
Proof. reflexivity. Qed.

Lemma sapp_cons c (a b : string) : String c a ++ b = String c (a ++ b).
Proof. reflexivity. Qed.

Ltac ssimpl := repeat (rewrite ?sapp_cons, ?sapp_nil; simpl).

Lemma split_nonempty s : split s <> [].
Proof.
  destruct s as [|c s]; simpl; [discriminate|].
  destruct (Ascii.eqb c "/"); [discriminate|]. destruct (split s); discriminate.
Qed.

Lemma split_app_cons a b : split (a ++ String "/" b) = (split a ++ split b)%list.
Proof.
  induction a as [|c a IH]; ssimpl; [reflexivity|].
  rewrite IH. destruct (Ascii.eqb c "/"); [reflexivity|].
  destruct (split a) as [|s0 ss] eqn:Ea; [now destruct (split_nonempty a)|reflexivity].
Qed.

Lemma split_app a b : split (a ++ "/" ++ b) = (split a ++ split b)%list.
Proof. apply split_app_cons. Qed.

Lemma concat_cons sep x l :
  l <> [] -> String.concat sep (x :: l) = x ++ sep ++ String.concat sep l.
Proof. destruct l; [congruence|reflexivity]. Qed.

Lemma concat_split s : String.concat "/" (split s) = s.
Proof.
  induction s as [|c s IH]; simpl; [reflexivity|].
  destruct (Ascii.eqb_spec c "/") as [->|Hc].
  - rewrite concat_cons by apply split_nonempty. ssimpl. now rewrite IH.
  - destruct (split s) as [|s0 ss] eqn:Es; [now destruct (split_nonempty s)|].
    destruct ss as [|s1 ss]; simpl in *; rewrite <- IH; ssimpl; reflexivity.
Qed.

Lemma append_assoc (a b c : string) : (a ++ b) ++ c = a ++ (b ++ c).
Proof. induction a as [|x a IH]; ssimpl; [reflexivity|f_equal; exact IH]. Qed.

Lemma append_nil_r (a : string) : a ++ "" = a.
Proof. induction a as [|x a IH]; ssimpl; [reflexivity|f_equal; exact IH]. Qed.

Lemma concat_app sep (a b : list string) :
  a <> [] -> b <> [] ->
  String.concat sep (a ++ b) = String.concat sep a ++ sep ++ String.concat sep b.
Proof.
  intros Ha Hb. induction a as [|x a IH]; [congruence|].
  destruct a as [|y a].
  - simpl. now apply concat_cons.
  - change ((x :: y :: a) ++ b)%list with (x :: ((y :: a) ++ b))%list.
    rewrite concat_cons by discriminate. rewrite IH by discriminate.
    rewrite (concat_cons sep x (y :: a)) by discriminate.
    now rewrite !append_assoc.
Qed.

Lemma normalizeStep_clean b res seg :
  clean_seg seg = true -> normalizeStep b res seg = (res ++ [seg])%list.
Proof.
  unfold clean_seg, normalizeStep. intros Hc.
  apply andb_true_iff in Hc as [Hc H3]. apply andb_true_iff in Hc as [H1 H2].
  apply negb_true_iff in H1, H2, H3. now rewrite H1, H2, H3.
Qed.

Lemma normalize_clean b l acc :
  forallb clean_seg l = true ->
  fold_left (normalizeStep b) l acc = (acc ++ l)%list.
Proof.
  revert acc. induction l as [|x l IH]; intros acc Hl; simpl.
  - now rewrite app_nil_r.
  - simpl in Hl. apply andb_true_iff in Hl as [Hx Hl].
    rewrite normalizeStep_clean by exact Hx. rewrite IH by exact Hl.
    now rewrite <- app_assoc.
Qed.

Lemma trailing_split s :
  trailingSeparator s = true -> exists l, split s = (l ++ [""])%list.
Proof.
  induction s as [|c s IH]; simpl; [discriminate|].
  destruct s as [|c' s'].
  - intros Hc. rewrite Hc. now exists [""].
  - intros Ht. destruct (IH Ht) as [l Hl]. rewrite Hl.
    destruct (Ascii.eqb c "/").
    + now exists ("" :: l).
    + destruct l as [|x l]; simpl.
      * exfalso. simpl in Hl.
        destruct (Ascii.eqb c' "/").
        -- pose proof (split_nonempty s'). destruct (split s'); [congruence|discriminate].
        -- destruct (split s'); discriminate.
      * now exists (String c x :: l).
Qed.

Lemma forallb_last {A} (f : A -> bool) l x :
  forallb f (l ++ [x]) = true -> f x = true.
Proof. rewrite forallb_app. simpl. intros H. apply andb_true_iff in H as [_ H]. now rewrite andb_true_r in H. Qed.

Lemma no_trailing (s : string) (pre l : list string) :
  split s = (pre ++ l)%list -> l <> [] -> forallb clean_seg l = true ->
  trailingSeparator s = false.
Proof.
  intros Hs Hne Hl. destruct (trailingSeparator s) eqn:Et; [|reflexivity].
  destruct (trailing_split s Et) as [l' Hl']. rewrite Hl' in Hs.
  destruct (exists_last Hne) as (l0 & x & ->).
  rewrite app_assoc in Hs. apply app_inj_tail in Hs as [_ <-].
  apply forallb_last in Hl. discriminate Hl.
Qed.

Lemma abs_clean_split d :
  abs_clean d = true ->
  exists l, split d = "" :: l /\ l <> [] /\ forallb clean_seg l = true /\
            d = "/" ++ String.concat "/" l.
Proof.
  unfold abs_clean. intros Hd. destruct (split d) as [|first l] eqn:Es; [discriminate|].
  apply andb_true_iff in Hd as [Hd Hl]. apply andb_true_iff in Hd as [Hf Hn].
  apply String.eqb_eq in Hf as ->. exists l.
  assert (Hne : l <> []) by (destruct l; [discriminate|discriminate]).
  repeat split; try assumption.
  rewrite <- (concat_split d) at 1. rewrite Es. now rewrite concat_cons.
Qed.

Lemma rel_clean_nonempty p : rel_clean p = true -> p <> "".
Proof. intros Hp ->. discriminate Hp. Qed.

Lemma prefix_append a b : String.prefix a (a ++ b) = true.
Proof.
  induction a as [|c a IH]; simpl; [now destruct b|].
  destruct (ascii_dec c c); [exact IH|contradiction].
Qed.

Lemma isAbsolute_slash x : isAbsolute ("/" ++ x) = true.
Proof. unfold isAbsolute. rewrite sapp_cons, sapp_nil. simpl. now destruct x. Qed.

(** Joining a clean relative path onto a clean absolute one is
    concatenation. *)
Lemma join_clean d p :
  abs_clean d = true -> rel_clean p = true ->
  join [d; p] = d ++ "/" ++ p /\ abs_clean (d ++ "/" ++ p) = true.
Proof.
  intros Hd Hp.
  destruct (abs_clean_split d Hd) as (l & Hs & Hne & Hl & Hdeq).
  pose proof (rel_clean_nonempty p Hp) as Hpne.
  assert (Hsplit : split (d ++ "/" ++ p) = ("" :: l ++ split p)%list).
  { rewrite split_app, Hs. reflexivity. }
  split.
  - unfold join. simpl.
    assert (Hdne : String.eqb d "" = false).
    { apply String.eqb_neq. rewrite Hdeq. discriminate. }
    rewrite Hdne. apply String.eqb_neq in Hpne. rewrite Hpne. simpl.
    unfold normalize.
    assert (Habs : isAbsolute (d ++ "/" ++ p) = true).
    { rewrite Hdeq. rewrite append_assoc. apply isAbsolute_slash. }
    rewrite Habs. simpl negb.
    assert (Hfull : String.eqb (d ++ "/" ++ p) "" = false).
    { apply String.eqb_neq. rewrite Hdeq. discriminate. }
    rewrite Hfull. unfold normalizeSegments. rewrite Hsplit. simpl.
    rewrite normalize_clean by (rewrite forallb_app; now rewrite Hl).
    simpl.
    rewrite (no_trailing (d ++ "/" ++ p) ("" :: l) (split p));
      [|now rewrite Hsplit|apply split_nonempty|exact Hp].
    rewrite concat_app by (try assumption; apply split_nonempty).
    rewrite concat_split.
    assert (Hbody : String.eqb (String.concat "/" l ++ "/" ++ p) "" = false).
    { apply String.eqb_neq. destruct (String.concat "/" l); discriminate. }
    rewrite Hbody. rewrite append_nil_r. rewrite Hdeq.
    now rewrite !append_assoc.
  - unfold abs_clean. rewrite Hsplit. simpl.
    unfold rel_clean in Hp. rewrite forallb_app, Hl, Hp. simpl.
    destruct (l ++ split p)%list eqn:E; [|reflexivity].
    apply app_eq_nil in E as [-> _]. congruence.
Qed.

Lemma no_slash_split s : no_slash s = true -> split s = [s].
Proof.
  induction s as [|c s IH]; simpl; [reflexivity|].
  intros H. apply andb_true_iff in H as [Hc Hs]. apply negb_true_iff in Hc.
  rewrite Hc. now rewrite IH.
Qed.

Lemma no_slash_app a b : no_slash a = true -> no_slash b = true -> no_slash (a ++ b) = true.
Proof.
  induction a as [|c a IH]; simpl; [auto|].
  intros H Hb. apply andb_true_iff in H as [Hc Ha]. rewrite Hc. simpl. now apply IH.
Qed.
End PathFacts.


Section BlobStoreFacts.
Import FilesystemBlobStore.

Lemma exists_in_file w f c : files w !! f = Some c -> exists_in w f = true.
Proof.
  intros Hf. unfold exists_in. rewrite bool_decide_eq_true_2; [reflexivity|].
  rewrite Hf. eauto.
Qed.

Lemma get_of_file st h w c :
  initialized st = true ->
  fault w OpReadFile (getFilePath st h "sha256") = None ->
  files w !! getFilePath st h "sha256" = Some c ->
  get st h w =
    (inr (if negb (String.eqb (sha256_hex c) h)
          then err HASH_MISMATCH
                   ("Hash verification failed: expected " ++ h ++ ", got " ++ sha256_hex c)
                   [("expected", h); ("actual", sha256_hex c)]
          else ok (Some c)), w).
Proof.
  intros Hi Hr Hf. unfold get. rewrite Hi. simpl.
  unfold existsSync, readFile, LZ4.decompress. munfold.
  rewrite (exists_in_file _ _ _ Hf). simpl. rewrite Hr, Hf. simpl.
  destruct (String.eqb (sha256_hex c) h); reflexivity.
Qed.


(** C7: [get] verifies the digest.  Whatever bytes [get h] returns are
    the content of the blob's file and their SHA-256 is [h]; when the file
    holds bytes whose SHA-256 is not [h], the result is an error with code
    [HASH_MISMATCH]; when there is no file, the result is the success
    [Ok None]; and no error result equals [Ok None]. *)
Theorem get_verifies_digest (st : FilesystemBlobStore.t) (h : string) (w : World) :
  let f := getFilePath st h "sha256" in
  (forall b w', get st h w = (inr (Ok (Some b)), w') ->
                sha256_hex b = h /\ files w !! f = Some b) /\
  (initialized st = true -> fault w OpReadFile f = None ->
   forall c, files w !! f = Some c -> sha256_hex c <> h ->
             exists e, get st h w = (inr (Err e), w) /\ code e = HASH_MISMATCH) /\
  (initialized st = true -> exists_in w f = false -> get st h w = (inr (Ok None), w)) /\
  (forall e : BlobStoreError, @Err (option bytes) BlobStoreError e <> Ok None).
Proof.
  intros f. split; [|split; [|split]].
  - intros b w'. unfold get. destruct (initialized st); simpl; [|discriminate].
    unfold existsSync, readFile, LZ4.decompress. munfold. fold f.
    destruct (exists_in w f); simpl; [|discriminate].
    destruct (fault w OpReadFile f); simpl; [discriminate|].
    destruct (files w !! f) as [c|]; simpl; [|discriminate].
    destruct (String.eqb_spec (sha256_hex c) h) as [Heq|Hne]; simpl; [|discriminate].
    unfold ok. intros [= <- _]. split; [exact Heq|reflexivity].
  - intros Hi Hr c Hc Hne. rewrite (get_of_file st h w c Hi Hr Hc).
    apply String.eqb_neq in Hne. rewrite Hne. simpl. unfold err. eauto.
  - intros Hi He. unfold get. rewrite Hi. simpl. unfold existsSync. munfold.
    fold f. now rewrite He.
  - discriminate.
Qed.
End BlobStoreFacts.

Module DedupFacts.
Import SessionDeduplication.

Definition newline : string := String (Ascii.ascii_of_nat 10) EmptyString.

(** The fingerprint as the specification words it. *)
Definition fingerprint_spec (changes : list SessionChange) : string :=
  sha256_hex (bytes_of_string (String.concat newline (sort (map item changes)))).

Lemma bytes_of_string_app a b :
  bytes_of_string (a ++ b) = (bytes_of_string a ++ bytes_of_string b)%list.
Proof.
  unfold bytes_of_string, list_byte_of_string.
  induction a as [|c a IH]; simpl; [reflexivity|]. now rewrite IH.
Qed.

Lemma fold_update items acc :
  fold_left (fun h it => Hash.update it h) items acc
  = (acc ++ bytes_of_string (String.concat "" items))%list.
Proof.
  revert acc. induction items as [|x items IH]; intros acc; simpl.
  - now rewrite app_nil_r.
  - rewrite IH. unfold Hash.update. rewrite <- app_assoc. f_equal.
    destruct items as [|y items]; simpl.
    + now rewrite app_nil_r.
    + now rewrite bytes_of_string_app.
Qed.

Definition le_str (a b : string) : Prop := String.leb a b = true.

Lemma insert_sorted_perm x l : Permutation (insert_sorted x l) (x :: l).
Proof.
  induction l as [|y l IH]; simpl; [reflexivity|].
  destruct (String.leb x y); [reflexivity|].
  rewrite IH. apply perm_swap.
Qed.

Lemma sort_perm l : Permutation (sort l) l.
Proof.
  induction l as [|x l IH]; simpl; [constructor|].
  rewrite insert_sorted_perm. now constructor.
Qed.

Lemma insert_sorted_sorted x l : Sorted le_str l -> Sorted le_str (insert_sorted x l).
Proof.
  induction l as [|y l IH]; intros Hs; simpl.
  - repeat constructor.
  - destruct (String.leb x y) eqn:Hxy.
    + constructor; [exact Hs|]. constructor. exact Hxy.
    + inversion Hs as [|? ? Hl Hhd]; subst.
      constructor; [now apply IH|].
      assert (Hyx : le_str y x).
      { destruct (String.leb_total x y) as [Hc|Hc]; [congruence|exact Hc]. }
      destruct l as [|z l]; simpl.
      * constructor. exact Hyx.
      * destruct (String.leb x z); constructor; [exact Hyx|].
        now inversion Hhd.
Qed.

Lemma sort_sorted l : Sorted le_str (sort l).
Proof.
  induction l as [|x l IH]; simpl; [constructor|]. now apply insert_sorted_sorted.
Qed.

Definition change_a : SessionChange :=
  Change.mk "a.txt" modified None (Some "01") (Some "02")
            None None None None None None None None.
Definition change_b : SessionChange :=
  Change.mk "b.txt" created None None (Some "03")
            None None None None None None None None.


Lemma computeFingerprint_empty_counterexample :
  computeFingerprint [] <> fingerprint_spec [].
Proof. vm_compute. discriminate. Qed.


End DedupFacts.

Module ReverseFacts.
Import SessionRollback.

(** The inverse of one record, as the specification words it. *)
Definition inverse_claimed (c i : SessionChange) : Prop :=
  match Change.op c with
  | created =>
      Change.op i = deleted /\ Change.hOld i = Change.hNew c /\ Change.hNew i = None
  | modified =>
      Change.op i = modified /\
      Change.hOld i = Change.hNew c /\ Change.hNew i = Change.hOld c /\
      Change.sizeBefore i = Change.sizeAfter c /\ Change.sizeAfter i = Change.sizeBefore c /\
      Change.mtimeBefore i = Change.mtimeAfter c /\ Change.mtimeAfter i = Change.mtimeBefore c /\
      Change.modeBefore i = Change.modeAfter c /\ Change.modeAfter i = Change.modeBefore c /\
      Change.eolBefore i = Change.eolAfter c /\ Change.eolAfter i = Change.eolBefore c
  | deleted =>
      Change.op i = created /\ Change.hNew i = Change.hOld c /\ Change.hOld i = None
  | renamed =>
      Change.op i = renamed /\
      Some (Change.p i) = Change.from c /\ Change.from i = Some (Change.p c) /\
      Change.hOld i = Change.hNew c /\ Change.hNew i = Change.hOld c
  end.

(** What the code does for a renamed record: the fallback to the
    record's own path when it carries no (or an empty) [from]. *)
Definition inverse_amended (c i : SessionChange) : Prop :=
  match Change.op c with
  | renamed =>
      Change.op i = renamed /\
      Change.p i = (if truthy (Change.from c) then or_else (Change.from c) "" else Change.p c) /\
      Change.from i = Some (Change.p c) /\
      Change.hOld i = Change.hNew c /\ Change.hNew i = Change.hOld c
  | _ => inverse_claimed c i
  end.

Definition rename_without_from : SessionChange :=
  Change.mk "new.txt" renamed None (Some "01") (Some "02")
            None None None None None None None None.

(** C1, as stated, fails: a renamed record without [from] keeps its own
    path in the inverse, where a swap would leave it without one. *)
Lemma reverseChanges_counterexample :
  ~ Forall2 inverse_claimed
      (rev [rename_without_from]) (reverseChanges [rename_without_from]).
Proof.
  intros Hf. inversion Hf as [|? ? ? ? Hc _]; subst.
  destruct Hc as (_ & Hp & _). discriminate Hp.
Qed.

Lemma inverse_is_amended c : inverse_amended c (inverse c).
Proof.
  destruct c as [p op from hOld hNew sb sa mb ma ob oa eb ea].
  destruct op; unfold inverse_amended, inverse_claimed, inverse; simpl;
    repeat split; try reflexivity.
  destruct from as [f|]; simpl; [|reflexivity].
  destruct (String.eqb f ""); reflexivity.
Qed.

(** C1 (amended): the inverse list is the reversed list mapped record by
    record: created becomes deleted with [hOld] the original [hNew] and
    [hNew] cleared; modified stays modified with the digests, sizes,
    mtimes, modes and EOL markers swapped; deleted becomes created with
    [hNew] the original [hOld] and [hOld] cleared; renamed stays renamed
    with the digests swapped, [from] the original path, and as path the
    original [from] when that is present and not empty, the original path
    otherwise.  For a renamed record that carries a [from], this is the
    swap of [p] and [from]. *)
Theorem reverseChanges_inverse (changes : list SessionChange) :
  reverseChanges changes = map inverse (rev changes) /\
  Forall2 inverse_amended (rev changes) (reverseChanges changes) /\
  (forall c f, In c changes -> Change.op c = renamed ->
               Change.from c = Some f -> f <> "" ->
               inverse_claimed c (inverse c)).
Proof.
  split; [reflexivity|]. split.
  - unfold reverseChanges. induction (rev changes) as [|c l IH]; simpl; constructor.
    + apply inverse_is_amended.
    + exact IH.
  - intros c f _ Hop Hfrom Hne.
    pose proof (inverse_is_amended c) as Ha.
    unfold inverse_amended in Ha. unfold inverse_claimed. rewrite Hop in *.
    destruct Ha as (H1 & H2 & H3 & H4 & H5). repeat split; try assumption.
    rewrite H2, Hfrom. simpl.
    destruct (String.eqb_spec f ""); [contradiction|reflexivity].
Qed.
End ReverseFacts.

Module RollbackFacts.
Section WithStore.
Context {B : Type} `{BlobStore B}.
Variable stringify : JournalEntry -> bytes.
Import SessionRollback.

(** ** Rollback never throws *)

(** The part of C10 that holds: whatever happens inside, [rollback]
    returns a result. *)

Theorem rollback_never_throws (self : @SessionRollback.t B) manifest options now w :
  exists r w', rollback stringify self manifest options now w = (inr r, w').
Proof.
  unfold rollback.
  assert (Ht : total (rollback_body stringify self manifest options)).
  { unfold rollback_body. apply total_try. intros e.
    apply total_bind; [apply total_modify|intros _; apply total_gets]. }
  destruct (Ht (initial_state self manifest now w)) as (r & s' & Hr).
  rewrite Hr. eauto.
Qed.

(** ** Failures of the swap phase *)

(** No per-file error recorded by [atomicSwap]. *)
Definition no_swap_error (s : State) : Prop := errors s = [].

Definition errors_skipped (r0 : RollbackResult.t) (s : State) : Prop :=
  result s = r0 /\ forall e, In e (errors s) -> In (path e) (skipped s).

Definition reported (s : State) : Prop :=
  errors s <> [] ->
  RollbackResult.success (result s) = false /\
  forall e, In e (errors s) ->
            In (path e) (RollbackResult.filesSkipped (result s)) /\
            In e (RollbackResult.errors (result s)).

Lemma keeps_stageChange (self : @SessionRollback.t B) change stagingDir :
  keeps no_swap_error (stageChange self change stagingDir).
Proof.
  unfold stageChange. repeat keeps_step; assumption.
Qed.

Ltac errors_skipped_tac :=
  match goal with H : errors_skipped _ _ |- _ => destruct H as [? ?] end;
  split; [assumption|]; simpl; intros ? ?;
  unfold push in *; rewrite ?in_app_iff in *; simpl in *;
  intuition (subst; auto).

Lemma keeps_swapStaged r0 (self : @SessionRollback.t B) sid relPath :
  keeps (errors_skipped r0) (swapStaged self sid relPath).
Proof.
  unfold swapStaged. repeat keeps_step; errors_skipped_tac.
Qed.

Lemma keeps_swapDeleted r0 (self : @SessionRollback.t B) sid relPath :
  keeps (errors_skipped r0) (swapDeleted self sid relPath).
Proof.
  unfold swapDeleted. repeat keeps_step; errors_skipped_tac.
Qed.

Definition swap_reports (r0 : RollbackResult.t) (sr : SwapResult) (s : State) : Prop :=
  result s = r0 /\
  (errors s <> [] ->
   swap_success sr = false /\
   forall e, In e (errors s) -> In (path e) (swap_skipped sr) /\ In e (swap_errors sr)).

Ltac hk_step :=
  eapply hoare_seq_keeps; [repeat keeps_step| |intros ?].

Lemma total_atomicSwap (self : @SessionRollback.t B) sid options :
  total (atomicSwap self sid options).
Proof.
  unfold atomicSwap.
  repeat (apply total_bind; [apply total_modify|intros _]).
  apply total_try. intros e.
  apply total_bind; [apply total_gets|intros j].
  apply total_bind.
  - apply total_for_each. intros b.
    apply total_bind; [apply total_existsSync|intros present].
    apply total_when, total_try. intros _. apply total_ret.
  - intros _. apply total_bind; [apply total_gets|intros s]. apply total_ret.
Qed.

Lemma atomicSwap_reports r0 (self : @SessionRollback.t B) sid options :
  hoare (fun s => result s = r0) (atomicSwap self sid options)
        (swap_reports r0) (fun _ _ => False).
Proof.
  apply hoare_total with (E := fun _ _ => True); [apply total_atomicSwap|].
  unfold atomicSwap.
  do 3 apply hoare_assign.
  eapply hoare_conseq with (P' := errors_skipped r0) (Q' := swap_reports r0)
                           (E' := fun _ _ => True); [|
    intros s (s2 & (s1 & (s0 & Hs0 & ->) & ->) & ->); split; simpl; [exact Hs0|intros e []]
    |auto|auto].
  apply hoare_try with (E' := fun _ => errors_skipped r0).
  - hk_step; [errors_skipped_tac..|auto|].
    hk_step; [errors_skipped_tac..|auto|].
    hk_step; [try apply keeps_swapStaged; errors_skipped_tac..|auto|].
    hk_step; [try apply keeps_swapDeleted; errors_skipped_tac..|auto|].
    eapply hoare_bind with (R := fun a s => a = s /\ errors_skipped r0 s).
    + apply hoare_gets. auto.
    + intros s0. apply hoare_ret. intros s [-> [Hr Hs]]. split; [exact Hr|].
      intros Hne. simpl. split.
      * destruct (errors s); [congruence|reflexivity].
      * intros e He. split; [now apply Hs|exact He].
  - intros e.
    hk_step; [errors_skipped_tac..|auto|].
    hk_step; [errors_skipped_tac..|auto|].
    eapply hoare_bind with (R := fun a s => a = s /\ errors_skipped r0 s).
    + apply hoare_gets. auto.
    + intros s0. apply hoare_ret. intros s [-> [Hr Hs]]. split; [exact Hr|].
      intros Hne. simpl. split; [reflexivity|].
      intros fe He. split; [now apply Hs|now right].
Qed.

Lemma no_swap_error_reported s : no_swap_error s -> reported s.
Proof. intros Hz Hne. unfold no_swap_error in Hz. congruence. Qed.

Ltac reported_tac :=
  match goal with H : reported _ |- _ => exact H end.

Lemma reported_on_journal f s : reported s -> reported (on_journal f s).
Proof. exact (fun H => H). Qed.

Lemma reported_on_world f s : reported s -> reported (on_world f s).
Proof. exact (fun H => H). Qed.

Lemma reported_push_errors l s :
  reported s -> reported (on_result (RollbackResult.push_errors l) s).
Proof.
  intros Hr Hne. destruct (Hr Hne) as [Hs He]. split; [exact Hs|].
  intros e Hin. destruct (He e Hin) as [H1 H2]. split; [exact H1|].
  simpl. apply in_or_app. now left.
Qed.

Ltac z_step :=
  hk_step; [try apply keeps_stageChange; try assumption..
           |intros; now apply no_swap_error_reported|].

(** The same step when an exception needs no invariant. *)
Ltac z_step' :=
  hk_step; [try apply keeps_stageChange; try assumption..|intros; exact I|].

Ltac r_step :=
  hk_step; [first [assumption | now apply reported_push_errors]..
           |intros; first [assumption | exact I]|].

Lemma rollback_body_reports (self : @SessionRollback.t B) manifest options :
  hoare no_swap_error (rollback_body stringify self manifest options)
        (fun r s => r = result s /\ reported s) (fun _ _ => False).
Proof.
  apply hoare_total with (E := fun _ _ => True).
  { unfold rollback_body. apply total_try. intros e.
    apply total_bind; [apply total_modify|intros _; apply total_gets]. }
  unfold rollback_body.
  apply hoare_try with (E' := fun _ => reported).
  - (* the body *)
    do 11 z_step.
    destruct (0 <? _)%nat.
    + (* validation failed *)
      do 5 z_step.
      apply hoare_gets. intros s Hs. split; [reflexivity|now apply no_swap_error_reported].
    + z_step. destruct (opt_dryRun options).
      * do 4 z_step.
        apply hoare_gets. intros s Hs. split; [reflexivity|now apply no_swap_error_reported].
      * (* the swap phase *)
        apply hoare_ghost with (g := result). intros r0.
        eapply hoare_bind with (R := swap_reports r0).
        { eapply hoare_conseq;
            [apply atomicSwap_reports| |intros ? ? Hx; exact Hx|intros ? ? []].
          intros s [_ Hr]. exact Hr. }
        intros sr. do 4 apply hoare_assign.
        eapply hoare_conseq with (P' := reported) (Q' := fun r s => r = result s /\ reported s)
                                 (E' := fun _ => reported);
          [| |intros ? ? Hx; exact Hx|intros ? ? Hx; exact Hx].
        2:{ intros s (s3 & (s2 & (s1 & (s0 & [Hr Hs] & ->) & ->) & ->) & ->).
            intros Hne. simpl in *. destruct (Hs Hne) as [Hf He]. split; [exact Hf|].
            intros e Hin. destruct (He e Hin) as [H1 H2]. rewrite !in_app_iff. auto. }
        r_step.
        eapply hoare_seq_keeps.
        { destruct (swap_success sr); repeat keeps_step; assumption. }
        { auto. }
        intros _. do 2 r_step.
        apply hoare_gets. intros s Hs. split; [reflexivity|exact Hs].
  - intros e.
    r_step. apply hoare_gets. intros s Hs. split; [reflexivity|exact Hs].
Qed.

(** ** Every file of the swap phase is accounted for *)

(** [p] has been handled by the swap: reverted or skipped. *)
Definition handled (p : string) (s : State) : Prop :=
  In p (reverted s) \/ In p (skipped s).

(** What the swap phase reads and does not write. *)
Definition swap_inputs (st : list (string * StagedFile)) (td : list string)
           (r0 : RollbackResult.t) (s : State) : Prop :=
  stagedFiles s = st /\ filesToDelete s = td /\ result s = r0.

Definition no_session_error (l : list FileError) : Prop :=
  forall e, In e l -> path e <> "<session>".

(** The files of the swap phase are all in the result, reverted or skipped,
    unless the result carries a "<session>" error. *)
Definition accounted (s : State) : Prop :=
  no_session_error (RollbackResult.errors (result s)) ->
  forall p, In p (map fst (stagedFiles s)) \/ In p (filesToDelete s) ->
            In p (RollbackResult.filesReverted (result s)) \/
            In p (RollbackResult.filesSkipped (result s)).

Lemma hoare_top {St A} (P : St -> Prop) (m : M St A) :
  hoare P m (fun _ _ => True) (fun _ _ => True).
Proof. intros s [e|a] s' _ _; exact I. Qed.

Lemma hoare_pure {St A} (phi : Prop) (P : St -> Prop) (m : M St A) Q E :
  (forall s, P s -> phi) -> (phi -> hoare P m Q E) -> hoare P m Q E.
Proof. intros Hphi Hm s r s' Hp. exact (Hm (Hphi s Hp) s r s' Hp). Qed.

Lemma hoare_and {St A} (P1 P2 : St -> Prop) (m : M St A) Q1 Q2 E1 E2 :
  hoare P1 m Q1 E1 -> hoare P2 m Q2 E2 ->
  hoare (fun s => P1 s /\ P2 s) m (fun a s => Q1 a s /\ Q2 a s)
        (fun e s => E1 e s /\ E2 e s).
Proof.
  intros H1 H2 s r s' [Hp1 Hp2] Hrun.
  specialize (H1 s r s' Hp1 Hrun). specialize (H2 s r s' Hp2 Hrun).
  destruct r; split; assumption.
Qed.

(** A loop whose body handles its element, and never forgets one, has
    handled them all when it ends. *)
Lemma for_indexed_all {St A} (Q : A -> St -> Prop) body :
  (forall p i x, keeps (Q p) (body i x)) ->
  (forall i x, hoare (fun _ => True) (body i x) (fun _ => Q x) (fun _ _ => True)) ->
  forall (xs : list A) (i : nat),
    hoare (fun _ => True) (for_indexed i xs body)
          (fun _ s => forall x, In x xs -> Q x s) (fun _ _ => True).
Proof.
  intros Hk Hb xs. induction xs as [|x xs IH]; intros i; simpl.
  - apply hoare_ret. intros s _ y [].
  - intros s r s' _ Hrun. unfold bind in Hrun.
    destruct (body i x s) as [[e|[]] s1] eqn:H1.
    + injection Hrun as <- <-. exact I.
    + pose proof (Hb i x s (inr tt) s1 I H1) as Hx. simpl in Hx.
      pose proof (IH (S i) s1 r s' I Hrun) as Hrest.
      destruct r as [e|[]]; [exact I|].
      intros y [<-|Hy]; [|now apply Hrest].
      assert (Hkeep : keeps (Q x) (for_indexed (S i) xs body)).
      { apply RollbackLogic.keeps_for_indexed. intros j z _. apply Hk. }
      exact (Hkeep s1 _ s' Hx Hrun).
Qed.

Ltac handled_tac :=
  unfold handled, push in *; simpl in *; rewrite ?in_app_iff; simpl;
  intuition auto.

Ltac inputs_tac :=
  match goal with H : swap_inputs _ _ _ _ |- _ => exact H end.

Lemma keeps_handled_swapStaged p (self : @SessionRollback.t B) sid relPath :
  keeps (handled p) (swapStaged self sid relPath).
Proof. unfold swapStaged. repeat keeps_step; handled_tac. Qed.

Lemma keeps_handled_swapDeleted p (self : @SessionRollback.t B) sid relPath :
  keeps (handled p) (swapDeleted self sid relPath).
Proof. unfold swapDeleted. repeat keeps_step; handled_tac. Qed.

Lemma keeps_inputs_swapStaged st td r0 (self : @SessionRollback.t B) sid relPath :
  keeps (swap_inputs st td r0) (swapStaged self sid relPath).
Proof. unfold swapStaged. repeat keeps_step; inputs_tac. Qed.

Lemma keeps_inputs_swapDeleted st td r0 (self : @SessionRollback.t B) sid relPath :
  keeps (swap_inputs st td r0) (swapDeleted self sid relPath).
Proof. unfold swapDeleted. repeat keeps_step; inputs_tac. Qed.

(** A swap that returns has handled its file. *)
Lemma swapStaged_handles (self : @SessionRollback.t B) sid relPath :
  hoare (fun _ => True) (swapStaged self sid relPath)
        (fun _ => handled relPath) (fun _ _ => True).
Proof.
  unfold swapStaged. apply hoare_try with (E' := fun _ _ => True).
  - eapply hoare_bind with (R := fun _ _ => True); [apply hoare_top|intros present].
    eapply hoare_bind with (R := fun _ _ => True); [apply hoare_top|intros _].
    eapply hoare_bind with (R := fun _ _ => True); [apply hoare_top|intros _].
    apply hoare_modify. intros s _. handled_tac.
  - intros e.
    eapply hoare_bind with (R := fun _ => handled relPath).
    + apply hoare_modify. intros s _. handled_tac.
    + intros _. apply hoare_of_keeps; [repeat keeps_step; handled_tac|auto|auto].
Qed.

Lemma swapDeleted_handles (self : @SessionRollback.t B) sid relPath :
  hoare (fun _ => True) (swapDeleted self sid relPath)
        (fun _ => handled relPath) (fun _ _ => True).
Proof.
  unfold swapDeleted. apply hoare_try with (E' := fun _ _ => True).
  - eapply hoare_bind with (R := fun _ _ => True); [apply hoare_top|intros present].
    destruct present.
    + eapply hoare_bind with (R := fun _ _ => True); [apply hoare_top|intros _].
      eapply hoare_bind with (R := fun _ _ => True); [apply hoare_top|intros _].
      apply hoare_modify. intros s _. handled_tac.
    + apply hoare_modify. intros s _. handled_tac.
  - intros e.
    eapply hoare_bind with (R := fun _ => handled relPath).
    + apply hoare_modify. intros s _. handled_tac.
    + intros _. apply hoare_of_keeps; [repeat keeps_step; handled_tac|auto|auto].
Qed.

(** What [atomicSwap] returns: all files handled, or a "<session>" error. *)
Definition swap_accounts (st : list (string * StagedFile)) (td : list string)
           (sr : SwapResult) : Prop :=
  no_session_error (swap_errors sr) ->
  forall p, In p (map fst st) \/ In p td ->
            In p (swap_reverted sr) \/ In p (swap_skipped sr).

Lemma keeps_inputs_atomicSwap st td r0 (self : @SessionRollback.t B) sid options :
  keeps (swap_inputs st td r0) (atomicSwap self sid options).
Proof.
  unfold atomicSwap. repeat keeps_step;
    try apply keeps_inputs_swapStaged; try apply keeps_inputs_swapDeleted; inputs_tac.
Qed.

Lemma atomicSwap_accounts st td r0 (self : @SessionRollback.t B) sid options :
  hoare (swap_inputs st td r0) (atomicSwap self sid options)
        (fun sr s => swap_inputs st td r0 s /\ swap_accounts st td sr)
        (fun _ _ => False).
Proof.
  apply hoare_total with (E := fun _ s => swap_inputs st td r0 s /\ True);
    [apply total_atomicSwap|].
  eapply hoare_conseq;
    [apply hoare_and; [apply hoare_keeps, keeps_inputs_atomicSwap|]
    |intros s Hs; split; [exact Hs|exact Hs]
    |intros ? ? Hx; exact Hx|intros ? ? Hx; exact Hx].
  unfold atomicSwap.
  do 3 apply hoare_assign.
  eapply hoare_conseq with (P' := swap_inputs st td r0)
                           (Q' := fun sr _ => swap_accounts st td sr)
                           (E' := fun _ _ => True);
    [|intros s (s2 & (s1 & (s0 & Hs0 & ->) & ->) & ->); exact Hs0
     |intros ? ? Hx; exact Hx|auto].
  apply hoare_try with (E' := fun _ _ => True).
  - apply hoare_read. intros staged. apply hoare_read. intros toDelete.
    apply hoare_pure with (phi := staged = st /\ toDelete = td).
    { intros s [[(Hst & Htd & _) Hs] Ht]. split; congruence. }
    intros [-> ->].
    eapply hoare_conseq with (P' := fun _ => True);
      [|auto|intros ? ? Hx; exact Hx|intros ? ? Hx; exact Hx].
    eapply hoare_bind with (R := fun _ s => forall x, In x (map fst st) -> handled x s).
    { apply for_indexed_all with (Q := handled).
      - intros p i x. apply keeps_bind; [apply RollbackLogic.keeps_progress|intros _].
        apply keeps_handled_swapStaged.
      - intros i x. eapply hoare_bind with (R := fun _ _ => True); [apply hoare_top|intros _].
        apply swapStaged_handles. }
    intros _.
    eapply hoare_bind
      with (R := fun _ s => (forall x, In x (map fst st) -> handled x s) /\
                            (forall x, In x td -> handled x s)).
    { eapply hoare_conseq;
        [apply hoare_and;
         [apply hoare_keeps with (I := fun s => forall x, In x (map fst st) -> handled x s)
         |apply for_indexed_all with (Q := handled)]
        |intros s Hs; split; [exact Hs|exact I]
        |intros ? ? Hx; exact Hx|auto].
      - apply RollbackLogic.keeps_for_indexed. intros i x _.
        apply keeps_bind; [apply RollbackLogic.keeps_progress|intros _].
        intros s r s' Hall Hrun y Hy.
        exact (keeps_handled_swapDeleted y self sid x s r s' (Hall y Hy) Hrun).
      - intros p i x. apply keeps_bind; [apply RollbackLogic.keeps_progress|intros _].
        apply keeps_handled_swapDeleted.
      - intros i x. eapply hoare_bind with (R := fun _ _ => True); [apply hoare_top|intros _].
        apply swapDeleted_handles. }
    intros _.
    eapply hoare_bind
      with (R := fun a s => a = s /\ (forall x, In x (map fst st) -> handled x s) /\
                            (forall x, In x td -> handled x s)).
    { apply hoare_gets. auto. }
    intros s0. apply hoare_ret. intros s (-> & H1 & H2) _ p [Hp|Hp]; simpl.
    + exact (H1 p Hp).
    + exact (H2 p Hp).
  - intros e.
    eapply hoare_bind with (R := fun _ _ => True); [apply hoare_top|intros j].
    eapply hoare_bind with (R := fun _ _ => True); [apply hoare_top|intros _].
    eapply hoare_bind with (R := fun _ _ => True); [apply hoare_top|intros s0].
    apply hoare_ret. intros s _ Hno. exfalso.
    apply (Hno (mkFileError "<session>" ("Fatal error during swap: " ++ exn_msg e)));
      [now left|reflexivity].
Qed.

Lemma accounted_push_errors l s :
  accounted s -> accounted (on_result (RollbackResult.push_errors l) s).
Proof.
  intros Ha Hno. apply Ha. intros e He. apply Hno. simpl. apply in_or_app. now left.
Qed.

Ltac account_tac :=
  first [assumption | now apply accounted_push_errors].

Ltac a_step :=
  eapply hoare_seq_keeps; [repeat keeps_step; account_tac|intros; exact I|intros ?].

Ltac t_step :=
  eapply hoare_bind with (R := fun _ _ => True); [apply hoare_top|intros ?].

(** Once the swap phase is over, the result accounts for its files. *)
Lemma rollback_body_accounts (self : @SessionRollback.t B) manifest options :
  hoare no_swap_error (rollback_body stringify self manifest options)
        (fun r s => r = result s /\ (errors s <> [] -> accounted s))
        (fun _ _ => False).
Proof.
  apply hoare_total with (E := fun _ _ => True).
  { unfold rollback_body. apply total_try. intros e.
    apply total_bind; [apply total_modify|intros _; apply total_gets]. }
  unfold rollback_body.
  apply hoare_try with (E' := fun _ _ => True).
  - do 11 z_step'.
    destruct (0 <? _)%nat.
    + (* validation failed *)
      do 5 z_step'.
      apply hoare_gets. intros s Hs. split; [reflexivity|]. intros Hne. now elim Hne.
    + z_step'. destruct (opt_dryRun options).
      * do 4 z_step'.
        apply hoare_gets. intros s Hs. split; [reflexivity|]. intros Hne. now elim Hne.
      * (* the swap phase *)
        apply hoare_ghost with (g := fun s => (stagedFiles s, filesToDelete s, result s)).
        intros [[st td] r0].
        eapply hoare_bind
          with (R := fun sr s => swap_inputs st td r0 s /\ swap_accounts st td sr).
        { eapply hoare_conseq;
            [apply atomicSwap_accounts with (st := st) (td := td) (r0 := r0)
            | |intros ? ? Hx; exact Hx|intros ? ? []].
          intros s [_ Hg]. injection Hg as <- <- <-. repeat split. }
        intros sr. do 4 apply hoare_assign.
        eapply hoare_conseq with (P' := accounted)
                                 (Q' := fun r s => r = result s /\ accounted s)
                                 (E' := fun _ _ => True);
          [| |intros ? ? [Hr Ha]; split; [exact Hr|intros _; exact Ha]|auto].
        2:{ intros s (s3 & (s2 & (s1 & (s0 & [(Hst & Htd & Hr) Hacc] & ->) & ->) & ->) & ->).
            intros Hno p Hp. simpl in *. rewrite Hst, Htd in Hp.
            destruct (Hacc) with (p := p) as [Hin|Hin]; [|exact Hp|now left|].
            - intros e He. apply Hno. apply in_or_app. now right.
            - right. apply in_or_app. now right. }
        a_step.
        eapply hoare_seq_keeps.
        { destruct (swap_success sr); repeat keeps_step; assumption. }
        { auto. }
        intros _. do 2 a_step.
        apply hoare_gets. intros s Hs. split; [reflexivity|exact Hs].
  - intros e.
    apply hoare_assign. apply hoare_gets.
    intros s (s0 & _ & ->). split; [reflexivity|]. intros _ Hno. exfalso.
    apply (Hno (mkFileError "<session>" ("Rollback failed: " ++ exn_msg e)));
      [simpl; apply in_or_app; right; now left|reflexivity].
Qed.

(** C3 (amended): when some file fails in the swap phase, [rollback]
    still returns a result (no exception), with [success = false], every
    failing path in [filesSkipped] and its error in [errors]; and the swap
    went on with the other files: unless the result carries a "<session>"
    error, every file of the swap phase is in [filesReverted] or in
    [filesSkipped].  Here [errors s'] is the array [errors] of
    [atomicSwap], the per-file failures of the swap phase, at the end of
    the run. *)
Theorem swap_failure_reported (self : @SessionRollback.t B) manifest options now w out s' :
  rollback_body stringify self manifest options (initial_state self manifest now w)
    = (out, s') ->
  errors s' <> [] ->
  exists r,
    rollback stringify self manifest options now w = (inr r, world s') /\
    RollbackResult.success r = false /\
    (forall e, In e (errors s') ->
               In (path e) (RollbackResult.filesSkipped r) /\
               In e (RollbackResult.errors r)) /\
    (no_session_error (RollbackResult.errors r) ->
     forall p, In p (map fst (stagedFiles s')) \/ In p (filesToDelete s') ->
               In p (RollbackResult.filesReverted r) \/
               In p (RollbackResult.filesSkipped r)).
Proof.
  intros Hrun Hne.
  assert (Hz : no_swap_error (initial_state self manifest now w)) by reflexivity.
  pose proof (rollback_body_reports self manifest options _ _ _ Hz Hrun) as Hh.
  pose proof (rollback_body_accounts self manifest options _ _ _ Hz Hrun) as Ha.
  destruct out as [e|r]; [contradiction|]. destruct Hh as [-> Hrep].
  destruct Ha as [_ Hacc].
  exists (result s'). split; [unfold rollback; now rewrite Hrun|].
  destruct (Hrep Hne) as [Hfalse Herr].
  split; [exact Hfalse|]. split; [exact Herr|]. exact (Hacc Hne).
Qed.

(** ** Changes that cannot be staged *)

(** An inverse record that restores content but names no digest. *)
Definition unstageable (c : SessionChange) : Prop :=
  Change.op c <> deleted /\ truthy (Change.hNew c) = false.

Definition missing_hash (c : SessionChange) : FileError :=
  mkFileError (Change.p c)
    ("Missing hash for " ++ ChangeOp_string (Change.op c)
       ++ " operation on " ++ Change.p c).

(** [stageChange] throws on such a record, before it touches anything. *)
Lemma stageChange_unstageable (self : @SessionRollback.t B) c dir s :
  unstageable c ->
  stageChange self c dir s = (inl (Error (error (missing_hash c))), s).
Proof.
  intros [Hop Hh]. unfold stageChange. rewrite Hh. simpl.
  destruct (Change.op c); try reflexivity. congruence.
Qed.

(** The record is in [filesSkipped] with its error. *)
Definition skipped_as_missing (c : SessionChange) (s : State) : Prop :=
  In (Change.p c) (RollbackResult.filesSkipped (result s)) /\
  In (missing_hash c) (RollbackResult.errors (result s)).

Definition all_skipped (l : list SessionChange) (s : State) : Prop :=
  forall c, In c l -> unstageable c -> skipped_as_missing c s.

Ltac skipped_tac :=
  unfold skipped_as_missing in *; simpl in *; rewrite ?in_app_iff; simpl;
  intuition auto.

Ltac all_skipped_tac :=
  match goal with
  | H : all_skipped _ _ |- all_skipped _ _ =>
      let c := fresh "c" in let Hin := fresh "Hin" in let Hu := fresh "Hu" in
      intros c Hin Hu; specialize (H c Hin Hu); skipped_tac
  end.

Lemma keeps_skipped_stage c (self : @SessionRollback.t B) options total i change dir :
  keeps (skipped_as_missing c)
    (progress options (10 + (Qnat i / Qnat total) * 40)%Q >>>
     try_catch (stageChange self change dir)
       (fun error =>
          modify (on_result (RollbackResult.push_filesSkipped [Change.p change])) >>>
          modify (on_result (RollbackResult.push_errors
                               [mkFileError (Change.p change) (exn_msg error)])))).
Proof. unfold stageChange. repeat keeps_step; skipped_tac. Qed.

Lemma stage_skips (self : @SessionRollback.t B) options total i change dir :
  hoare (fun _ => True)
    (progress options (10 + (Qnat i / Qnat total) * 40)%Q >>>
     try_catch (stageChange self change dir)
       (fun error =>
          modify (on_result (RollbackResult.push_filesSkipped [Change.p change])) >>>
          modify (on_result (RollbackResult.push_errors
                               [mkFileError (Change.p change) (exn_msg error)]))))
    (fun _ s => unstageable change -> skipped_as_missing change s)
    (fun _ _ => True).
Proof.
  eapply hoare_bind with (R := fun _ _ => True); [apply hoare_top|intros _].
  intros s r s' _ Hrun.
  destruct r as [e|[]]; [exact I|]. intros Hu.
  unfold try_catch in Hrun. rewrite (stageChange_unstageable _ _ _ _ Hu) in Hrun.
  unfold bind, modify in Hrun. injection Hrun as <-. skipped_tac.
Qed.

Lemma rollback_body_skips (self : @SessionRollback.t B) manifest options :
  hoare (fun _ => True) (rollback_body stringify self manifest options)
        (fun _ s => no_session_error (RollbackResult.errors (result s)) ->
                    all_skipped (reverseChanges (filesChanged manifest)) s)
        (fun _ _ => False).
Proof.
  apply hoare_total with (E := fun _ _ => True).
  { unfold rollback_body. apply total_try. intros e.
    apply total_bind; [apply total_modify|intros _; apply total_gets]. }
  unfold rollback_body.
  apply hoare_try with (E' := fun _ _ => True).
  - do 8 t_step.
    eapply hoare_bind
      with (R := fun _ => all_skipped (reverseChanges (filesChanged manifest))).
    { eapply hoare_conseq;
        [apply for_indexed_all
           with (Q := fun c s => unstageable c -> skipped_as_missing c s)
        |auto|intros [] s Hs; exact Hs|auto].
      - intros c i x s r s' Hc Hrun Hu.
        exact (keeps_skipped_stage c self options _ i x _ s r s' (Hc Hu) Hrun).
      - intros i x. apply stage_skips. }
    intros _.
    apply hoare_of_keeps.
    + unfold atomicSwap, swapStaged, swapDeleted.
      repeat keeps_step; all_skipped_tac.
    + intros r s Hs _. exact Hs.
    + auto.
  - intros e.
    apply hoare_assign. apply hoare_gets.
    intros s (s0 & _ & ->) Hno. exfalso.
    apply (Hno (mkFileError "<session>" ("Rollback failed: " ++ exn_msg e)));
      [simpl; apply in_or_app; right; now left|reflexivity].
Qed.

(** X11: A change whose inverse names no digest is skipped, not fatal: unless
    the result carries a "<session>" error, each such change is in
    [filesSkipped], with the error "Missing hash for ... operation on ..."
    in [errors]. *)
Theorem unstageable_changes_skipped (self : @SessionRollback.t B) manifest options now w :
  exists r w',
    rollback stringify self manifest options now w = (inr r, w') /\
    (no_session_error (RollbackResult.errors r) ->
     forall c, In c (reverseChanges (filesChanged manifest)) ->
               Change.op c <> deleted -> truthy (Change.hNew c) = false ->
               In (Change.p c) (RollbackResult.filesSkipped r) /\
               In (missing_hash c) (RollbackResult.errors r)).
Proof.
  destruct (rollback_body stringify self manifest options (initial_state self manifest now w))
    as [out s'] eqn:Hrun.
  assert (Hz : no_swap_error (initial_state self manifest now w)) by reflexivity.
  pose proof (rollback_body_reports self manifest options _ _ _ Hz Hrun) as Hh.
  pose proof (rollback_body_skips self manifest options _ _ _ I Hrun) as Hs.
  destruct out as [e|r]; [contradiction|]. destruct Hh as [-> _].
  exists (result s'), (world s'). split; [unfold rollback; now rewrite Hrun|].
  intros Hno c Hin Hop Hh. exact (Hs Hno c Hin (conj Hop Hh)).
Qed.

(** ** Manifests without old digests *)

Section WithoutOldDigests.
Variable manifest : SessionManifestV1.
Hypothesis Hold : forall c, In c (filesChanged manifest) -> truthy (Change.hOld c) = false.

(** The path of a file the session created. *)
Definition created_path (p : string) : Prop :=
  exists c, In c (filesChanged manifest) /\ Change.op c = created /\ Change.p c = p.

(** Nothing is staged, and only created files are marked or reverted. *)
Definition only_created (s : State) : Prop :=
  stagedFiles s = [] /\
  (forall p, In p (filesToDelete s) -> created_path p) /\
  (forall p, In p (reverted s) -> created_path p) /\
  (forall p, In p (RollbackResult.filesReverted (result s)) -> created_path p).

Ltac only_created_tac :=
  match goal with
  | H : only_created _ |- only_created _ =>
      destruct H as (? & ? & ? & ?); repeat split; simpl; auto;
      try solve [intros ? []];
      try (unfold push; intros ? Hin; apply in_app_iff in Hin as [?|[<-|[]]]; auto)
  end.

Lemma keeps_only_created_stage (self : @SessionRollback.t B) c dir :
  In c (reverseChanges (filesChanged manifest)) ->
  keeps only_created (stageChange self c dir).
Proof.
  unfold reverseChanges. intros Hin. apply in_map_iff in Hin as (c0 & <- & Hc0).
  apply in_rev in Hc0. pose proof (Hold c0 Hc0) as Hh.
  intros s r s' HI. unfold stageChange.
  destruct c0 as [p op from hOld hNew sb sa mb ma ob oa eb ea].
  simpl in Hh. destruct op; simpl; try rewrite Hh; simpl.
  - (* created: its inverse deletes *)
    unfold modify. intros [= <- <-].
    destruct HI as (H1 & H2 & H3 & H4). repeat split; simpl; auto.
    intros q Hq. unfold set_add in Hq.
    destruct (existsb (String.eqb p) (filesToDelete s)); [now apply H2|].
    apply in_app_iff in Hq as [Hq|[<-|[]]]; [now apply H2|].
    eexists. split; [exact Hc0|]. split; reflexivity.
  - intros [= <- <-]. exact HI.
  - intros [= <- <-]. exact HI.
  - intros [= <- <-]. exact HI.
Qed.

Lemma atomicSwap_only_created (self : @SessionRollback.t B) sid options :
  hoare only_created (atomicSwap self sid options)
        (fun sr s => only_created s /\
                     forall p, In p (swap_reverted sr) -> created_path p)
        (fun _ _ => False).
Proof.
  apply hoare_total with (E := fun _ _ => True); [apply total_atomicSwap|].
  unfold atomicSwap.
  do 3 apply hoare_assign.
  eapply hoare_conseq with (P' := only_created)
                           (Q' := fun sr s => only_created s /\
                                              forall p, In p (swap_reverted sr) -> created_path p)
                           (E' := fun _ _ => True);
    [|intros s (s2 & (s1 & (s0 & (H1 & H2 & H3 & H4) & ->) & ->) & ->);
      repeat split; simpl; auto; intros ? []
     |intros ? ? Hx; exact Hx|auto].
  apply hoare_try with (E' := fun _ => only_created).
  - apply hoare_read. intros staged. apply hoare_read. intros toDelete.
    apply hoare_pure with (phi := staged = [] /\ forall p, In p toDelete -> created_path p).
    { intros s [[(Hst & Htd & _) Hs] Ht]. split; [congruence|]. rewrite <- Ht. exact Htd. }
    intros [-> Htd].
    eapply hoare_conseq with (P' := only_created);
      [|intros s [[Hs _] _]; exact Hs|intros ? ? Hx; exact Hx|intros ? ? Hx; exact Hx].
    simpl map. cbn [for_indexed].
    eapply hoare_seq_keeps; [apply keeps_ret|auto|intros _].
    eapply hoare_seq_keeps.
    { apply RollbackLogic.keeps_for_indexed. intros i x Hx.
      pose proof (Htd x Hx) as Hcx.
      unfold swapDeleted. repeat keeps_step; only_created_tac. }
    { auto. }
    intros _.
    eapply hoare_bind with (R := fun a s => a = s /\ only_created s).
    { apply hoare_gets. auto. }
    intros s0. apply hoare_ret. intros s [-> Hs]. split; [exact Hs|].
    simpl. destruct Hs as (_ & _ & H3 & _). exact H3.
  - intros e.
    hk_step; [only_created_tac..|auto|].
    hk_step; [only_created_tac..|auto|].
    eapply hoare_bind with (R := fun a s => a = s /\ only_created s).
    { apply hoare_gets. auto. }
    intros s0. apply hoare_ret. intros s [-> Hs]. split; [exact Hs|].
    simpl. destruct Hs as (_ & _ & H3 & _). exact H3.
Qed.

Ltac c_step :=
  eapply hoare_seq_keeps;
  [repeat keeps_step; only_created_tac|intros ? ? Hx; exact Hx|intros ?].

Lemma rollback_body_only_created (self : @SessionRollback.t B) options :
  hoare only_created (rollback_body stringify self manifest options)
        (fun _ => only_created) (fun _ _ => False).
Proof.
  apply hoare_total with (E := fun _ => only_created).
  { unfold rollback_body. apply total_try. intros e.
    apply total_bind; [apply total_modify|intros _; apply total_gets]. }
  unfold rollback_body.
  apply hoare_try with (E' := fun _ => only_created).
  - do 8 c_step.
    eapply hoare_seq_keeps.
    { apply RollbackLogic.keeps_for_indexed. intros i c Hc.
      apply keeps_bind; [apply RollbackLogic.keeps_progress|intros _].
      apply keeps_try; [now apply keeps_only_created_stage|intros e].
      repeat keeps_step; only_created_tac. }
    { intros ? ? Hx; exact Hx. }
    intros _. c_step.
    apply hoare_read. intros staged.
    apply hoare_pure with (phi := staged = []).
    { intros s [(Hst & _) Hs]. congruence. }
    intros ->.
    eapply hoare_conseq with (P' := only_created);
      [|intros s [Hs _]; exact Hs|intros ? ? Hx; exact Hx|intros ? ? Hx; exact Hx].
    replace (if negb (opt_skipVerification options) then validateStaging [] else [])
      with (@nil FileError) by (destruct (negb _); reflexivity).
    simpl. c_step. destruct (opt_dryRun options).
    + do 4 c_step. apply hoare_gets. auto.
    + eapply hoare_bind
        with (R := fun sr s => only_created s /\
                               forall p, In p (swap_reverted sr) -> created_path p).
      { eapply hoare_conseq;
          [apply atomicSwap_only_created|auto|intros ? ? Hx; exact Hx|intros ? ? []]. }
      intros sr. do 4 apply hoare_assign.
      eapply hoare_conseq with (P' := only_created) (Q' := fun _ => only_created)
                               (E' := fun _ => only_created);
        [| |intros ? ? Hx; exact Hx|intros ? ? Hx; exact Hx].
      2:{ intros s (s3 & (s2 & (s1 & (s0 & [(H1 & H2 & H3 & H4) Hsr] & ->) & ->) & ->) & ->).
          repeat split; simpl; auto. }
      c_step.
      eapply hoare_seq_keeps.
      { destruct (swap_success sr); repeat keeps_step; only_created_tac. }
      { intros ? ? Hx; exact Hx. }
      intros _. do 2 c_step.
      apply hoare_gets. auto.
  - intros e. c_step. apply hoare_gets. auto.
Qed.

(** X12: A rollback of records that carry no old digest writes no content:
    nothing is staged, and the only files it reverts are files the session
    created (which it removes). *)
Theorem rollback_without_old_digests (self : @SessionRollback.t B) options now w :
  exists r w',
    rollback stringify self manifest options now w = (inr r, w') /\
    forall p, In p (RollbackResult.filesReverted r) -> created_path p.
Proof.
  destruct (rollback_body stringify self manifest options (initial_state self manifest now w))
    as [out s'] eqn:Hrun.
  assert (Hz : no_swap_error (initial_state self manifest now w)) by reflexivity.
  assert (Hi : only_created (initial_state self manifest now w)).
  { repeat split; simpl; intros ? []. }
  pose proof (rollback_body_reports self manifest options _ _ _ Hz Hrun) as Hh.
  pose proof (rollback_body_only_created self options _ _ _ Hi Hrun) as Hs.
  destruct out as [e|r]; [contradiction|]. destruct Hh as [-> _].
  exists (result s'), (world s'). split; [unfold rollback; now rewrite Hrun|].
  destruct Hs as (_ & _ & _ & H4). exact H4.
Qed.
End WithoutOldDigests.

End WithStore.
End RollbackFacts.

Module AbortFacts.
Section WithStore.
Context {B : Type} `{BlobStore B}.
Variable stringify : JournalEntry -> bytes.
Import SessionRollback PathFacts.

(** The progress callback, if any, returns. *)
Definition quiet (options : option RollbackOptions) : Prop :=
  match options with
  | Some o =>
      match onProgress o with
      | Some callback => forall q, callback q = None
      | None => True
      end
  | None => True
  end.

(** [get] of the store leaves the world as it is. *)
Definition read_only (b : B) : Prop :=
  forall h w r w', get b h w = (r, w') -> w' = w.

(** The paths of a record are clean relative paths. *)
Definition safe_change (c : SessionChange) : Prop :=
  rel_clean (Change.p c) = true /\
  forall f, Change.from c = Some f -> f <> "" -> rel_clean f = true.

Lemma progress_quiet {St} options q (s : St) :
  quiet options -> progress options q s = (inr tt, s).
Proof.
  unfold quiet, progress. destruct options as [o|]; [|reflexivity].
  destruct (onProgress o) as [cb|]; [|reflexivity].
  intros Hq. now rewrite Hq.
Qed.

Lemma steady_progress {St} (I : St -> Prop) options q :
  quiet options -> steady I (progress options q).
Proof.
  intros Hq s r s' HI. rewrite (progress_quiet options q s Hq). intros [= <- <-]. exact HI.
Qed.

Lemma inverse_safe c : safe_change c -> rel_clean (Change.p (inverse c)) = true.
Proof.
  intros [Hp Hf]. destruct c as [p op from hOld hNew sb sa mb ma ob oa eb ea].
  simpl in *. destruct op; unfold inverse; simpl; try exact Hp.
  destruct from as [f|]; simpl; [|exact Hp].
  destruct (String.eqb_spec f ""); [exact Hp|]. now apply Hf.
Qed.

(** ** What the operations do to the world *)

Lemma mkdir_effect p w r w' :
  mkdir p w = (r, w') ->
  fault w' = fault w /\ files w' = files w /\ dirs w ⊆ dirs w'.
Proof.
  unfold mkdir. munfold. destruct (fault w OpMkdir p); intros [= <- <-]; simpl.
  - repeat split; reflexivity.
  - repeat split; try reflexivity. set_solver.
Qed.

Lemma writeFile_effect p d w r w' :
  writeFile p d w = (r, w') ->
  fault w' = fault w /\ dirs w' = dirs w /\
  forall q, q <> p -> files w' !! q = files w !! q.
Proof.
  unfold writeFile. munfold. destruct (fault w OpWriteFile p); intros [= <- <-]; simpl.
  - repeat split; reflexivity.
  - repeat split; try reflexivity. intros q Hq. now rewrite lookup_insert_ne.
Qed.

Lemma utimes_effect p w r w' : utimes p w = (r, w') -> w' = w.
Proof.
  unfold utimes. munfold. destruct (fault w OpUtimes p); [now intros [= <- <-]|].
  destruct (files w !! p); now intros [= <- <-].
Qed.

Lemma chmod_effect p w r w' : chmod p w = (r, w') -> w' = w.
Proof.
  unfold chmod. munfold. destruct (fault w OpChmod p); [now intros [= <- <-]|].
  destruct (files w !! p); now intros [= <- <-].
Qed.

Lemma under_join sd p :
  abs_clean sd = true -> rel_clean p = true -> under sd (path_join [sd; p]) = true.
Proof.
  intros Hd Hp. unfold path_join. destruct (join_clean sd p Hd Hp) as [-> _].
  unfold under. rewrite <- append_assoc. rewrite prefix_append. apply orb_true_r.
Qed.

Lemma staging_name_clean sid :
  no_slash sid = true -> rel_clean (".snapback-rollback-" ++ sid) = true.
Proof.
  intros Hs. unfold rel_clean.
  rewrite no_slash_split by (apply no_slash_app; [reflexivity|exact Hs]).
  reflexivity.
Qed.

(** ** The run up to the validation *)

Variable self : @SessionRollback.t B.
Variable manifest : SessionManifestV1.
Variable options : option RollbackOptions.
Variable now : Z.
Variable w0 : World.

Let sd := path_join [workspaceRoot self; ".snapback-rollback-" ++ sessionId manifest].
Let jp := path_join [journalDir self; "pending"; sessionId manifest ++ ".json"].
Let j0 := journal (initial_state self manifest now w0).

(** Nothing fails, no file other than the journal or below the staging
    directory has changed, the journal object is as created, and the
    result does not claim success. *)
Definition frame (s : State) : Prop :=
  (forall op p, fault (world s) op p = None) /\
  (forall p, under sd p = false -> p <> jp -> files (world s) !! p = files w0 !! p) /\
  journal s = j0 /\
  RollbackResult.success (result s) = false.

Definition staging (s : State) : Prop := frame s /\ sd ∈ dirs (world s).

Lemma frame_world s w' :
  frame s -> fault w' = fault (world s) ->
  (forall p, under sd p = false -> p <> jp -> files w' !! p = files (world s) !! p) ->
  frame (setW w' s).
Proof.
  intros (Hf & Hfr & Hj & Hs) Hfault Hfiles. repeat split; simpl.
  - intros op p. rewrite Hfault. apply Hf.
  - intros p Hu Hp. rewrite Hfiles by assumption. now apply Hfr.
  - exact Hj.
  - exact Hs.
Qed.

Lemma staging_world s w' :
  staging s -> fault w' = fault (world s) -> dirs (world s) ⊆ dirs w' ->
  (forall p, under sd p = false -> p <> jp -> files w' !! p = files (world s) !! p) ->
  staging (setW w' s).
Proof.
  intros [Hf Hd] Hfault Hdirs Hfiles. split; [now apply frame_world|].
  simpl. set_solver.
Qed.

Hypothesis Hquiet : quiet options.
Hypothesis Hro : read_only (blobStore self).
Hypothesis Hroot : abs_clean (workspaceRoot self) = true.
Hypothesis Hsid : no_slash (sessionId manifest) = true.
Hypothesis Hsafe : Forall safe_change (filesChanged manifest).
Hypothesis Hjp : under sd jp = false.

Lemma sd_clean : abs_clean sd = true.
Proof.
  unfold sd, path_join.
  destruct (join_clean (workspaceRoot self) (".snapback-rollback-" ++ sessionId manifest)
              Hroot (staging_name_clean _ Hsid)) as [-> Hc].
  exact Hc.
Qed.

Lemma keeps_stageChange_staging change :
  rel_clean (Change.p change) = true ->
  keeps staging (stageChange self change sd).
Proof.
  intros Hp. unfold stageChange.
  assert (Hw : forall q, under sd q = false -> q <> path_join [sd; Change.p change]).
  { intros q Hq ->. rewrite (under_join sd _ sd_clean Hp) in Hq. discriminate. }
  destruct (Change.op change);
    repeat
      lazymatch goal with
      | |- keeps _ (liftW (get _ _)) =>
          apply keeps_liftW_run; intros s r w' HI Hrun;
          apply Hro in Hrun; subst w'; destruct s; exact HI
      | |- keeps _ (liftW (mkdir _)) =>
          apply keeps_liftW_run; intros s r w' HI Hrun;
          apply mkdir_effect in Hrun as (Hf & Hfi & Hd);
          apply staging_world; [exact HI|exact Hf|exact Hd|intros; now rewrite Hfi]
      | |- keeps _ (liftW (writeFile _ _)) =>
          apply keeps_liftW_run; intros s r w' HI Hrun;
          apply writeFile_effect in Hrun as (Hf & Hd & Hfi);
          apply staging_world;
          [exact HI|exact Hf|now rewrite Hd|intros q Hq _; apply Hfi; now apply Hw]
      | |- keeps _ (liftW (utimes _)) =>
          apply keeps_liftW_run; intros s r w' HI Hrun;
          apply utimes_effect in Hrun; subst w'; destruct s; exact HI
      | |- keeps _ (liftW (chmod _)) =>
          apply keeps_liftW_run; intros s r w' HI Hrun;
          apply chmod_effect in Hrun; subst w'; destruct s; exact HI
      | |- keeps _ (modify _) => apply keeps_modify; intros s HI; exact HI
      | |- _ => keeps_step
      end.
Qed.

Hypothesis Hnofault : forall op p, fault w0 op p = None.
Hypothesis Hverify : opt_skipVerification options = false.

Lemma frame_initial : frame (initial_state self manifest now w0).
Proof. repeat split; simpl; auto. Qed.

Lemma steady_mkdir_frame p : steady frame (liftW (mkdir p)).
Proof.
  apply steady_liftW_run. intros s HI. unfold mkdir. munfold.
  destruct HI as (Hf & Hfr & Hj & Hs). simpl. rewrite (Hf OpMkdir p).
  eexists _, _. split; [reflexivity|]. repeat split; simpl; auto.
Qed.

Lemma steady_mkdir_staging p : steady staging (liftW (mkdir p)).
Proof.
  apply steady_liftW_run. intros s HI. unfold mkdir. munfold.
  destruct HI as ((Hf & Hfr & Hj & Hs) & Hd). simpl. rewrite (Hf OpMkdir p).
  eexists _, _. split; [reflexivity|]. repeat split; simpl; auto. set_solver.
Qed.

Lemma mkdir_staging : hoare frame (liftW (mkdir sd)) (fun _ => staging) (fun _ _ => False).
Proof.
  intros s r s' HI. unfold liftW, mkdir. munfold.
  destruct HI as (Hf & Hfr & Hj & Hs). simpl. rewrite (Hf OpMkdir sd).
  intros [= <- <-]. repeat split; simpl; auto. set_solver.
Qed.

Lemma steady_write_journal data : steady frame (liftW (writeFile jp data)).
Proof.
  apply steady_liftW_run. intros s HI. unfold writeFile. munfold.
  destruct HI as (Hf & Hfr & Hj & Hs). simpl. rewrite (Hf OpWriteFile jp).
  eexists _, _. split; [reflexivity|]. repeat split; simpl; auto.
  intros p Hu Hp. rewrite lookup_insert_ne by (intros Hq; apply Hp; now symmetry).
  now apply Hfr.
Qed.

Lemma reversed_clean change :
  In change (reverseChanges (filesChanged manifest)) -> rel_clean (Change.p change) = true.
Proof.
  unfold reverseChanges. intros Hin. apply in_map_iff in Hin as (c & <- & Hc).
  apply inverse_safe. apply in_rev in Hc.
  rewrite Forall_forall in Hsafe. apply Hsafe. now apply list_elem_of_In.
Qed.

(** The state a rollback is left in when it aborts on a hash mismatch. *)
Definition aborted (s : State) : Prop :=
  RollbackResult.success (result s) = false /\
  (forall e, In e (validateStaging (stagedFiles s)) ->
             In (path e) (RollbackResult.filesSkipped (result s)) /\
             In e (RollbackResult.errors (result s))) /\
  Journal.status (journal s) = rolled_back /\
  Journal.backups (journal s) = [] /\
  files (world s) !! jp = Some (stringify (journal s)) /\
  (forall p, under sd p = true -> files (world s) !! p = None /\ p ∉ dirs (world s)) /\
  (forall p, under sd p = false -> p <> jp -> files (world s) !! p = files w0 !! p).

Lemma steady_staging_result f :
  (forall r, RollbackResult.success (f r) = RollbackResult.success r) ->
  steady staging (modify (on_result f)).
Proof.
  intros Hf. apply steady_modify. intros s ((H1 & H2 & H3 & H4) & Hd).
  repeat split; simpl; auto. now rewrite Hf.
Qed.

Lemma steady_frame_result f :
  (forall r, RollbackResult.success (f r) = RollbackResult.success r) ->
  steady frame (modify (on_result f)).
Proof.
  intros Hf. apply steady_modify. intros s (H1 & H2 & H3 & H4).
  repeat split; simpl; auto. now rewrite Hf.
Qed.

Definition push_validation (r : RollbackResult.t) (e : FileError) : RollbackResult.t :=
  RollbackResult.push_filesSkipped [path e] (RollbackResult.push_errors [e] r).

Lemma push_all (ve : list FileError) (s : State) :
  for_each ve
    (fun error =>
       modify (on_result (RollbackResult.push_errors [error])) >>>
       modify (on_result (RollbackResult.push_filesSkipped [path error]))) s
  = (inr tt, on_result (fun r => fold_left push_validation ve r) s).
Proof.
  revert s. induction ve as [|e ve IH]; intros s; simpl.
  - destruct s; reflexivity.
  - unfold bind at 1. unfold bind at 1. simpl. rewrite IH. destruct s; reflexivity.
Qed.

Lemma fold_push_validation ve r :
  RollbackResult.success (fold_left push_validation ve r) = RollbackResult.success r /\
  RollbackResult.filesSkipped (fold_left push_validation ve r)
  = (RollbackResult.filesSkipped r ++ map path ve)%list /\
  RollbackResult.errors (fold_left push_validation ve r)
  = (RollbackResult.errors r ++ ve)%list.
Proof.
  revert r. induction ve as [|e ve IH]; intros r; simpl.
  - now rewrite !app_nil_r.
  - destruct (IH (push_validation r e)) as (-> & -> & ->). simpl.
    now rewrite <- !app_assoc.
Qed.

(** The world without what is at or below [d]. *)
Definition removed (d : string) (w : World) : World :=
  mkWorld (filter (fun kv => under d (fst kv) = false) (files w))
          (filter (fun q => under d q = false) (dirs w))
          (fault w).

Lemma removed_under d w p :
  under d p = true -> files (removed d w) !! p = None /\ p ∉ dirs (removed d w).
Proof.
  intros Hu. simpl. split.
  - apply map_lookup_filter_None_2. right. intros x _. simpl. rewrite Hu. discriminate.
  - rewrite elem_of_filter. intros [Hf _]. rewrite Hu in Hf. discriminate.
Qed.

Lemma removed_outside d w p :
  under d p = false -> files (removed d w) !! p = files w !! p.
Proof.
  intros Hu. simpl. destruct (files w !! p) as [c|] eqn:Ep.
  - now apply map_lookup_filter_Some_2.
  - apply map_lookup_filter_None_2. now left.
Qed.

Lemma cleanup_run s :
  staging s -> liftW (cleanupStaging sd) s = (inr tt, on_world (removed sd) s).
Proof.
  intros ((Hf & _) & Hd). unfold cleanupStaging, existsSync, rm. munfold. simpl.
  unfold exists_in. rewrite (bool_decide_eq_true_2 (sd ∈ dirs (world s))) by exact Hd.
  rewrite orb_true_r. simpl. rewrite (Hf OpRm sd). reflexivity.
Qed.

Lemma rollback_body_aborts :
  hoare frame (rollback_body stringify self manifest options)
        (fun r s => validateStaging (stagedFiles s) <> [] -> r = result s /\ aborted s)
        (fun _ _ => False).
Proof.
  apply hoare_total with (E := fun _ _ => True).
  { unfold rollback_body. apply total_try. intros e.
    apply total_bind; [apply total_modify|intros _; apply total_gets]. }
  unfold rollback_body.
  apply hoare_try with (E' := fun _ s => validateStaging (stagedFiles s) = []).
  - fold jp. fold sd.
    apply hoare_seq_steady; [apply steady_mkdir_frame|intros _].
    apply hoare_seq_steady; [apply steady_mkdir_frame|intros _].
    apply hoare_seq_steady; [apply steady_gets|intros j].
    apply hoare_seq_steady; [apply steady_write_journal|intros _].
    apply hoare_seq_steady; [now apply steady_frame_result|intros _].
    apply hoare_seq_steady; [now apply steady_progress|intros _].
    apply hoare_bind with (R := fun _ => staging);
      [eapply hoare_conseq; [apply mkdir_staging|auto|auto|intros ? ? []]|intros _].
    apply hoare_seq_steady; [apply steady_mkdir_staging|intros _].
    apply hoare_seq_steady.
    { apply RollbackLogic.steady_for_indexed. intros i change Hin.
      apply steady_bind; [now apply steady_progress|intros _].
      apply steady_try; [apply keeps_stageChange_staging, reversed_clean, Hin|intros e].
      apply steady_bind; [now apply steady_staging_result|intros _].
      now apply steady_staging_result. }
    intros _.
    apply hoare_seq_steady; [now apply steady_progress|intros _].
    apply hoare_read. intros staged. rewrite Hverify. simpl negb. cbv iota.
    destruct (validateStaging staged) as [|e0 ve] eqn:Eve.
    + (* validation passed: the premise fails *)
      simpl.
      eapply hoare_conseq with (P' := fun s => stagedFiles s = staged);
        [|intros s [_ Hs]; exact Hs|intros ? ? Hx; exact Hx|intros ? ? Hx; exact Hx].
      apply hoare_of_keeps.
      * unfold atomicSwap, swapStaged, swapDeleted.
        repeat keeps_step; simpl; assumption.
      * intros r s Hs Hne. rewrite Hs in Hne. contradiction.
      * intros e s Hs. now rewrite Hs.
    + (* validation failed: the rollback is abandoned *)
      intros s r s' [Hst Hstaged].
      assert (Hlen : (0 <? List.length (e0 :: ve))%nat = true) by reflexivity.
      rewrite Hlen. clear Hlen.
      unfold bind at 1. rewrite push_all.
      unfold bind at 1. rewrite cleanup_run
        by (destruct Hst as ((H1 & H2 & H3 & H4) & H5); repeat split; simpl; auto;
            now rewrite (proj1 (fold_push_validation _ _))).
      destruct Hst as ((Hf & Hfr & Hj & Hs) & Hd).
      unfold writeFile. munfold. simpl. rewrite (Hf OpWriteFile jp).
      intros [= <- <-] _. split; [reflexivity|].
      destruct (fold_push_validation (e0 :: ve) (result s)) as (Hsucc & Hskip & Herr).
      simpl in Hsucc, Hskip, Herr.
      unfold aborted. cbn [world result journal stagedFiles on_world on_result on_journal
                           set_files files dirs fault].
      rewrite Hj, Hstaged, Eve. unfold j0. cbn [journal initial_state].
      split; [now rewrite Hsucc|].
      split.
      { intros e He. split.
        - rewrite Hskip. apply in_or_app. right. now apply (in_map path) in He.
        - rewrite Herr. apply in_or_app. now right. }
      split; [reflexivity|]. split; [reflexivity|].
      split; [apply lookup_insert_eq|].
      split.
      { intros p Hu. destruct (removed_under sd (world s) p Hu) as [Hnf Hnd].
        split; [|exact Hnd].
        rewrite lookup_insert_ne by (intros ->; rewrite Hjp in Hu; discriminate).
        exact Hnf. }
      intros p Hu Hp.
      rewrite lookup_insert_ne by (intros Hq; apply Hp; now symmetry).
      rewrite (removed_outside sd (world s) p Hu). now apply Hfr.
  - intros e.
    apply hoare_of_keeps.
    + repeat keeps_step; simpl; assumption.
    + intros r s Hs Hne. contradiction.
    + auto.
Qed.

Lemma validateStaging_mismatch staged p sf :
  In (p, sf) staged -> sha256_hex (content sf) <> hash sf ->
  exists e, In e (validateStaging staged) /\ path e = p.
Proof.
  intros Hin Hne. unfold validateStaging.
  exists (mkFileError p ("Hash mismatch: expected " ++ hash sf ++ ", got "
                           ++ sha256_hex (content sf))).
  split; [|reflexivity]. apply in_flat_map. exists (p, sf). split; [exact Hin|].
  simpl. apply String.eqb_neq in Hne. rewrite Hne. now left.
Qed.

(** ** Dry runs *)

(** The journal file is there. *)
Definition journaled (s : State) : Prop := is_Some (files (world s) !! jp).

Lemma steady_and {St A} (I J : St -> Prop) (m : M St A) :
  steady I m -> keeps J m -> steady (fun s => I s /\ J s) m.
Proof.
  intros Hs Hk s r s' [HI HJ] Hrun. specialize (Hs s r s' HI Hrun).
  destruct r; [exact Hs|]. split; [exact Hs|exact (Hk s _ s' HJ Hrun)].
Qed.

Lemma keeps_journaled_mkdir p : keeps journaled (liftW (mkdir p)).
Proof.
  apply keeps_liftW_run. intros s r w' HJ Hrun.
  apply mkdir_effect in Hrun as (_ & Hf & _). unfold journaled. simpl. now rewrite Hf.
Qed.

Lemma keeps_journaled_stageChange change :
  rel_clean (Change.p change) = true ->
  keeps journaled (stageChange self change sd).
Proof.
  intros Hp. unfold stageChange.
  assert (Hw : jp <> path_join [sd; Change.p change]).
  { intros Heq. pose proof (under_join sd _ sd_clean Hp) as Hu.
    rewrite <- Heq in Hu. rewrite Hjp in Hu. discriminate. }
  destruct (Change.op change);
    repeat
      lazymatch goal with
      | |- keeps _ (liftW (get _ _)) =>
          apply keeps_liftW_run; intros s r w' HI Hrun;
          apply Hro in Hrun; subst w'; destruct s; exact HI
      | |- keeps _ (liftW (mkdir _)) => apply keeps_journaled_mkdir
      | |- keeps _ (liftW (writeFile _ _)) =>
          apply keeps_liftW_run; intros s r w' HI Hrun;
          apply writeFile_effect in Hrun as (_ & _ & Hfi);
          unfold journaled; simpl; rewrite (Hfi jp Hw); exact HI
      | |- keeps _ (liftW (utimes _)) =>
          apply keeps_liftW_run; intros s r w' HI Hrun;
          apply utimes_effect in Hrun; subst w'; destruct s; exact HI
      | |- keeps _ (liftW (chmod _)) =>
          apply keeps_liftW_run; intros s r w' HI Hrun;
          apply chmod_effect in Hrun; subst w'; destruct s; exact HI
      | |- keeps _ (modify _) => apply keeps_modify; intros s HI; exact HI
      | |- _ => keeps_step
      end.
Qed.

Lemma write_journal_journaled data :
  hoare frame (liftW (writeFile jp data))
        (fun _ s => frame s /\ journaled s) (fun _ _ => False).
Proof.
  intros s r s' HI. unfold liftW, writeFile. munfold.
  destruct HI as (Hf & Hfr & Hj & Hs). simpl. rewrite (Hf OpWriteFile jp).
  intros [= <- <-]. split.
  - repeat split; simpl; auto.
    intros p Hu Hp. rewrite lookup_insert_ne by (intros Hq; apply Hp; now symmetry).
    now apply Hfr.
  - unfold journaled. simpl. rewrite lookup_insert_eq. eauto.
Qed.

Lemma cleanup_run_dirs s :
  fault (world s) OpRm sd = None -> sd ∈ dirs (world s) ->
  liftW (cleanupStaging sd) s = (inr tt, on_world (removed sd) s).
Proof.
  intros Hf Hd. unfold cleanupStaging, existsSync, rm. munfold. simpl.
  unfold exists_in. rewrite (bool_decide_eq_true_2 (sd ∈ dirs (world s))) by exact Hd.
  rewrite orb_true_r. simpl. rewrite Hf. reflexivity.
Qed.

(** The state a dry run ends in. *)
Definition dry (s : State) : Prop :=
  RollbackResult.success (result s) = true /\
  RollbackResult.filesReverted (result s) = map fst (stagedFiles s) /\
  Journal.backups (journal s) = [] /\
  files (world s) !! jp = None /\
  (forall p, under sd p = true -> files (world s) !! p = None /\ p ∉ dirs (world s)) /\
  (forall p, under sd p = false -> p <> jp -> files (world s) !! p = files w0 !! p).

Hypothesis Hdry : opt_dryRun options = true.

Lemma rollback_body_dry :
  hoare frame (rollback_body stringify self manifest options)
        (fun r s => validateStaging (stagedFiles s) = [] -> r = result s /\ dry s)
        (fun _ _ => False).
Proof.
  apply hoare_total with (E := fun _ _ => True).
  { unfold rollback_body. apply total_try. intros e.
    apply total_bind; [apply total_modify|intros _; apply total_gets]. }
  unfold rollback_body.
  apply hoare_try with (E' := fun _ s => validateStaging (stagedFiles s) <> []).
  - fold jp. fold sd.
    apply hoare_seq_steady; [apply steady_mkdir_frame|intros _].
    apply hoare_seq_steady; [apply steady_mkdir_frame|intros _].
    apply hoare_seq_steady; [apply steady_gets|intros j].
    apply hoare_bind with (R := fun _ s => frame s /\ journaled s);
      [eapply hoare_conseq; [apply write_journal_journaled|auto|auto|intros ? ? []]|intros _].
    apply hoare_seq_steady;
      [apply steady_and; [now apply steady_frame_result|repeat keeps_step; assumption]
      |intros _].
    apply hoare_seq_steady;
      [apply steady_and; [now apply steady_progress|apply RollbackLogic.keeps_progress]
      |intros _].
    apply hoare_bind with (R := fun _ s => staging s /\ journaled s).
    { eapply hoare_conseq;
        [apply RollbackFacts.hoare_and;
         [apply mkdir_staging|apply hoare_keeps, keeps_journaled_mkdir]
        |auto|intros ? ? Hx; exact Hx|intros ? ? [[] _]]. }
    intros _.
    apply hoare_seq_steady;
      [apply steady_and; [apply steady_mkdir_staging|apply keeps_journaled_mkdir]|intros _].
    apply hoare_seq_steady.
    { apply steady_and.
      - apply RollbackLogic.steady_for_indexed. intros i change Hin.
        apply steady_bind; [now apply steady_progress|intros _].
        apply steady_try; [apply keeps_stageChange_staging, reversed_clean, Hin|intros e].
        apply steady_bind; [now apply steady_staging_result|intros _].
        now apply steady_staging_result.
      - apply RollbackLogic.keeps_for_indexed. intros i change Hin.
        apply keeps_bind; [apply RollbackLogic.keeps_progress|intros _].
        apply keeps_try; [apply keeps_journaled_stageChange, reversed_clean, Hin|intros e].
        repeat keeps_step; assumption. }
    intros _.
    apply hoare_seq_steady;
      [apply steady_and; [now apply steady_progress|apply RollbackLogic.keeps_progress]
      |intros _].
    apply hoare_read. intros staged. rewrite Hverify. simpl negb. cbv iota.
    destruct (validateStaging staged) as [|e0 ve] eqn:Eve.
    + (* validation passed: the dry run ends here *)
      intros s r s' [[Hst HJ] Hstaged]. simpl.
      unfold bind at 1. rewrite (progress_quiet options _ s Hquiet).
      rewrite Hdry.
      destruct Hst as ((Hf & Hfr & Hj & Hs) & Hd).
      unfold bind at 1. unfold modify at 1. unfold bind at 1. unfold modify at 1.
      unfold bind at 1. rewrite cleanup_run_dirs by (simpl; auto).
      destruct HJ as [data HJ].
      unfold bind at 1. unfold liftW, unlink. munfold. simpl.
      rewrite (Hf OpUnlink jp). rewrite (removed_outside sd (world s) jp Hjp), HJ.
      intros [= <- <-]. intros _. split; [reflexivity|].
      unfold dry. cbn [world result journal stagedFiles on_world on_result on_journal
                       set_files files dirs fault].
      rewrite Hj, Hstaged. unfold j0. cbn [journal initial_state].
      split; [reflexivity|]. split; [reflexivity|]. split; [reflexivity|].
      split; [apply lookup_delete_eq|].
      split.
      { intros p Hu. destruct (removed_under sd (world s) p Hu) as [Hnf Hnd].
        split; [|exact Hnd].
        rewrite lookup_delete_ne by (intros ->; rewrite Hjp in Hu; discriminate).
        exact Hnf. }
      intros p Hu Hp.
      rewrite lookup_delete_ne by (intros Hq; apply Hp; now symmetry).
      rewrite (removed_outside sd (world s) p Hu). now apply Hfr.
    + (* validation failed: not the case at hand *)
      assert (Hlen : (0 <? List.length (e0 :: ve))%nat = true) by reflexivity.
      rewrite Hlen. clear Hlen.
      eapply hoare_conseq with (P' := fun s => stagedFiles s = staged);
        [|intros s [_ Hs]; exact Hs|intros ? ? Hx; exact Hx|intros ? ? Hx; exact Hx].
      apply hoare_of_keeps.
      * repeat keeps_step; simpl; assumption.
      * intros r s Hs Hnil. rewrite Hs, Eve in Hnil. discriminate.
      * intros e s Hs. rewrite Hs, Eve. discriminate.
  - intros e.
    apply hoare_of_keeps.
    + repeat keeps_step; simpl; assumption.
    + intros r s Hs Hnil. contradiction.
    + auto.
Qed.

(** X13: A dry run leaves the workspace as it was.  For a rollback with
    [dryRun] and without [skipVerification], run where no file operation
    fails, the progress callback returns, reading the store does not
    write files and the paths are clean: when the staged files pass
    validation, the result has [success = true] and lists the staged
    paths as [filesReverted]; the journal lists no backup; the journal
    file and everything at or below the staging directory are gone; and
    every other file is as it was before the call. *)
Theorem dry_run_changes_nothing (out : Exn + RollbackResult.t) (s' : State) :
  rollback_body stringify self manifest options (initial_state self manifest now w0)
    = (out, s') ->
  validateStaging (stagedFiles s') = [] ->
  rollback stringify self manifest options now w0 = (inr (result s'), world s') /\
  RollbackResult.success (result s') = true /\
  RollbackResult.filesReverted (result s') = map fst (stagedFiles s') /\
  Journal.backups (journal s') = [] /\
  files (world s') !! jp = None /\
  (forall p, under sd p = true -> files (world s') !! p = None /\ p ∉ dirs (world s')) /\
  (forall p, under sd p = false -> p <> jp -> files (world s') !! p = files w0 !! p).
Proof.
  intros Hrun Hnil.
  pose proof (rollback_body_dry _ _ _ frame_initial Hrun) as Hh.
  destruct out as [e|r]; [contradiction|].
  destruct (Hh Hnil) as [-> Hd].
  split; [unfold rollback; now rewrite Hrun|]. exact Hd.
Qed.

End WithStore.
End AbortFacts.

Module RecoveryFacts.
Import SessionRecovery.

(** The only failures of the environment are cross-device renames. *)
Definition only_exdev (w : World) : Prop :=
  forall op p e, fault w op p = Some e -> op = OpRename /\ exn_code e = Some "EXDEV".

(** Restoring one pair, as the specification words it: if the backup
    exists it is moved back over the original, and no backup is left. *)
Definition restore_pure (f : gmap string bytes) (b : Backup) : gmap string bytes :=
  match f !! backup b with
  | Some c => delete (backup b) (<[original b := c]> f)
  | None => f
  end.

Definition restored (f : gmap string bytes) (b : Backup) : nat :=
  match f !! backup b with Some _ => 1 | None => 0 end.

(** Number of pairs restored, each looked at in its turn. *)
Fixpoint count_restored (f : gmap string bytes) (bs : list Backup) : nat :=
  match bs with
  | [] => 0
  | b :: rest => restored f b + count_restored (restore_pure f b) rest
  end.

Lemma only_exdev_not_rename w op p :
  only_exdev w -> op <> OpRename -> fault w op p = None.
Proof.
  intros Hx Hop. destruct (fault w op p) as [e|] eqn:Ef; [|reflexivity].
  destruct (Hx _ _ _ Ef) as [-> _]. contradiction.
Qed.

Lemma safeRename_moves w src dst c :
  only_exdev w -> files w !! src = Some c ->
  safeRename src dst w
  = (inr tt,
     match fault w OpRename src with
     | Some _ => mkWorld (delete src (<[dst := c]> (files w))) (dirs w) (fault w)
     | None => mkWorld (<[dst := c]> (delete src (files w))) (dirs w) (fault w)
     end).
Proof.
  intros Hx Hsrc. unfold safeRename, rename, copyFile, unlink. munfold.
  destruct (fault w OpRename src) as [e|] eqn:Ef.
  - destruct (Hx _ _ _ Ef) as [_ Hc]. rewrite Hc.
    rewrite bool_decide_eq_true_2 by reflexivity.
    rewrite (only_exdev_not_rename w OpCopyFile src Hx) by discriminate.
    rewrite Hsrc. simpl.
    rewrite (only_exdev_not_rename w OpUnlink src Hx) by discriminate.
    unfold set_files; simpl.
    destruct (decide (dst = src)) as [->|Hne].
    + rewrite lookup_insert_eq. reflexivity.
    + rewrite lookup_insert_ne by exact Hne. rewrite Hsrc. reflexivity.
  - rewrite Hsrc. reflexivity.
Qed.

Ltac state_simpl :=
  unfold on_world, on_restoredCount, on_result, set_files, set_dirs; simpl;
  rewrite ?Nat.add_1_r, ?Nat.add_0_r.

Lemma restoreBackup_spec (s : State) (b : Backup) :
  only_exdev (world s) -> backup b ∉ dirs (world s) ->
  restoreBackup b s
  = (inr tt,
     mkState (mkWorld (restore_pure (files (world s)) b) (dirs (world s)) (fault (world s)))
             (result s)
             (restoredCount s + restored (files (world s)) b)).
Proof.
  intros Hx Hd. destruct s as [w r n]. simpl in *.
  unfold restoreBackup, restore_pure, restored.
  unfold existsSync. munfold. simpl. unfold exists_in.
  rewrite (bool_decide_eq_false_2 (backup b ∈ dirs w)) by exact Hd.
  rewrite orb_false_r.
  destruct (files w !! backup b) as [c|] eqn:Eb.
  - rewrite bool_decide_eq_true_2 by eauto. simpl.
    rewrite (safeRename_moves w (backup b) (original b) c Hx Eb). simpl.
    destruct (fault w OpRename (backup b)) as [e|] eqn:Ef; simpl.
    + rewrite lookup_delete_eq.
      rewrite bool_decide_eq_false_2 by (intros [? ?]; discriminate).
      rewrite (bool_decide_eq_false_2 (backup b ∈ dirs w)) by exact Hd. simpl.
      state_simpl. reflexivity.
    + rewrite (bool_decide_eq_false_2 (backup b ∈ dirs w)) by exact Hd.
      rewrite orb_false_r.
      destruct (decide (original b = backup b)) as [Heq|Hne].
      * rewrite Heq. rewrite lookup_insert_eq.
        rewrite bool_decide_eq_true_2 by eauto. simpl.
        unfold unlink. munfold. simpl.
        rewrite (only_exdev_not_rename w OpUnlink (backup b) Hx) by discriminate.
        cbn [files]. rewrite lookup_insert_eq. simpl. state_simpl.
        rewrite !delete_insert_eq. rewrite delete_delete_eq. reflexivity.
      * rewrite lookup_insert_ne by exact Hne. rewrite lookup_delete_eq.
        rewrite bool_decide_eq_false_2 by (intros [? ?]; discriminate). simpl.
        state_simpl.
        rewrite delete_insert_ne by (intros Hq; apply Hne; now symmetry).
        reflexivity.
  - rewrite bool_decide_eq_false_2 by (intros [? ?]; discriminate). simpl.
    state_simpl. destruct w; reflexivity.
Qed.

Lemma for_each_restore (bs : list Backup) (s : State) :
  only_exdev (world s) ->
  (forall b, In b bs -> backup b ∉ dirs (world s)) ->
  for_each bs restoreBackup s
  = (inr tt,
     mkState (mkWorld (fold_left restore_pure bs (files (world s)))
                      (dirs (world s)) (fault (world s)))
             (result s)
             (restoredCount s + count_restored (files (world s)) bs)).
Proof.
  revert s. induction bs as [|b bs IH]; intros s Hx Hd.
  - simpl. unfold ret. destruct s as [[f d ft] r n]; simpl. now rewrite Nat.add_0_r.
  - simpl. unfold bind at 1.
    rewrite (restoreBackup_spec s b Hx) by (apply Hd; now left).
    rewrite IH; simpl.
    + now rewrite Nat.add_assoc.
    + exact Hx.
    + intros b' Hb'. apply Hd. now right.
Qed.

Lemma restore_other f b p :
  p <> original b -> p <> backup b -> restore_pure f b !! p = f !! p.
Proof.
  intros Ho Hb. unfold restore_pure. destruct (f !! backup b); [|reflexivity].
  rewrite lookup_delete_ne by (intros Hq; apply Hb; now symmetry).
  now rewrite lookup_insert_ne by (intros Hq; apply Ho; now symmetry).
Qed.

Lemma restore_keeps f b p :
  p <> backup b -> is_Some (f !! p) -> is_Some (restore_pure f b !! p).
Proof.
  intros Hb Hp. unfold restore_pure. destruct (f !! backup b); [|exact Hp].
  rewrite lookup_delete_ne by (intros Hq; apply Hb; now symmetry).
  destruct (decide (original b = p)) as [->|Hne].
  - rewrite lookup_insert_eq. eauto.
  - now rewrite lookup_insert_ne.
Qed.

Lemma fold_restore_other bs f p :
  (forall b, In b bs -> p <> original b /\ p <> backup b) ->
  fold_left restore_pure bs f !! p = f !! p.
Proof.
  revert f. induction bs as [|b bs IH]; intros f Hp; [reflexivity|]. simpl.
  rewrite IH by (intros b' Hb'; apply Hp; now right).
  apply restore_other; apply Hp; now left.
Qed.

Lemma fold_restore_keeps bs f p :
  (forall b, In b bs -> p <> backup b) ->
  is_Some (f !! p) -> is_Some (fold_left restore_pure bs f !! p).
Proof.
  revert f. induction bs as [|b bs IH]; intros f Hp Hf; [exact Hf|]. simpl.
  apply IH; [intros b' Hb'; apply Hp; now right|].
  apply restore_keeps; [apply Hp; now left|exact Hf].
Qed.

Lemma fold_restore_none bs f :
  (forall b, In b bs -> f !! backup b = None) ->
  fold_left restore_pure bs f = f /\ count_restored f bs = 0.
Proof.
  induction bs as [|b bs IH]; intros Hn; [split; reflexivity|]. simpl.
  unfold restore_pure at 2 3, restored. rewrite (Hn b) by now left.
  apply IH. intros b' Hb'. apply Hn. now right.
Qed.

(** All the paths named by the pairs are distinct. *)
Definition distinct_paths (bs : list Backup) : Prop :=
  List.NoDup (map original bs ++ map backup bs).

Lemma distinct_paths_cons b bs :
  distinct_paths (b :: bs) ->
  distinct_paths bs /\ original b <> backup b /\
  forall b', In b' bs ->
             original b <> original b' /\ original b <> backup b' /\
             backup b <> original b' /\ backup b <> backup b'.
Proof.
  unfold distinct_paths. simpl. intros Hd.
  apply List.NoDup_cons_iff in Hd as [Hno Hd].
  pose proof (List.NoDup_remove_1 _ _ _ Hd) as Hrest.
  pose proof (List.NoDup_remove_2 _ _ _ Hd) as Hnb.
  rewrite in_app_iff in Hno, Hnb. simpl in Hno.
  split; [exact Hrest|]. split; [intros Heq; apply Hno; right; now left|].
  intros b' Hb'. repeat split; intros Heq.
  - apply Hno. left. rewrite Heq. now apply in_map.
  - apply Hno. right. right. rewrite Heq. now apply in_map.
  - apply Hnb. left. rewrite Heq. now apply in_map.
  - apply Hnb. right. rewrite Heq. now apply in_map.
Qed.

Lemma fold_restore_pair bs : forall f b c,
  distinct_paths bs -> In b bs -> f !! backup b = Some c ->
  fold_left restore_pure bs f !! original b = Some c /\
  fold_left restore_pure bs f !! backup b = None.
Proof.
  induction bs as [|b0 bs IH]; intros f b c Hd Hin Hb; [destruct Hin|].
  apply distinct_paths_cons in Hd as (Hd & Hne & Hoth). simpl.
  destruct Hin as [->|Hin].
  - rewrite !fold_restore_other.
    + unfold restore_pure. rewrite Hb. split.
      * rewrite lookup_delete_ne by (intros Hq; apply Hne; now symmetry).
        apply lookup_insert_eq.
      * apply lookup_delete_eq.
    + intros b' Hb'. destruct (Hoth b' Hb') as (_ & _ & H3 & H4). now split.
    + intros b' Hb'. destruct (Hoth b' Hb') as (H1 & H2 & _ & _). now split.
  - apply IH; [exact Hd|exact Hin|].
    destruct (Hoth b Hin) as (_ & H2 & _ & H4).
    rewrite restore_other; [exact Hb| |]; intros Hq; [apply H2|apply H4]; now symmetry.
Qed.

Lemma unlink_file w p c :
  only_exdev w -> files w !! p = Some c ->
  unlink p w = (inr tt, mkWorld (delete p (files w)) (dirs w) (fault w)).
Proof.
  intros Hx Hp. unfold unlink. munfold.
  rewrite (only_exdev_not_rename w OpUnlink p Hx) by discriminate.
  now rewrite Hp.
Qed.

End RecoveryFacts.

(** * The session manager: what [track] and [finalize] record *)

Module ManagerFacts.
Section WithStore.
Context {B : Type} `{BlobStore B}.
Variable minimatch : string -> string -> bool.
Import SessionManager.

(** The record [track] builds for a call. *)
Definition tracked (o : @Options B) (absolutePath : string) (op : ChangeOp)
           (meta : option TrackMeta) (c : SessionChange) : Prop :=
  Change.p c = normalizePath o absolutePath /\
  Change.op c = op /\
  Change.hOld c = None /\ Change.hNew c = None.

(** With an active session and a path no pattern ignores, [track] appends
    one record, whatever the path is: nothing is rejected. *)
Lemma track_appends (o : @Options B) absolutePath op meta (s : State) a :
  activeSession s = Some a ->
  shouldIgnore minimatch o (normalizePath o absolutePath) = false ->
  exists c,
    tracked o absolutePath op meta c /\
    track minimatch o absolutePath op meta s
    = (inr tt, on_activeSession (fun _ => Some (push_change c a)) s).
Proof.
  intros Ha Hig. unfold track. munfold. rewrite Ha, Hig.
  eexists. split; [|unfold on_activeSession; rewrite Ha; reflexivity].
  repeat split.
Qed.

(** Hashing one record never fails and changes at most its [hNew]. *)
Lemma hashChange_hOld (o : @Options B) c w :
  exists c' w',
    hashChange o c w = (inr c', w') /\
    Change.hOld c' = Change.hOld c /\ Change.p c' = Change.p c /\
    Change.op c' = Change.op c.
Proof.
  unfold hashChange. munfold.
  destruct (negb (bool_decide (Change.op c = deleted))); [|eauto 10].
  destruct (readFile _ w) as [[e|content] w1]; [eauto 10|].
  destruct (put (opt_blobStore o) content w1) as [[e|[value|err]] w2]; eauto 10.
Qed.

Lemma computeDeferredHashes_hOld (o : @Options B) l : forall w,
  exists l' w',
    computeDeferredHashes o l w = (inr l', w') /\
    map Change.hOld l' = map Change.hOld l /\
    map Change.p l' = map Change.p l.
Proof.
  induction l as [|c l IH]; intros w; simpl.
  - exists [], w. repeat split.
  - munfold. destruct (hashChange_hOld o c w) as (c' & w1 & -> & Hh & Hp & _).
    destruct (IH w1) as (l' & w2 & -> & Hhs & Hps).
    exists (c' :: l'), w2. simpl. rewrite Hh, Hp, Hhs, Hps. repeat split.
Qed.

(** [finalize] writes one row per buffered record, and the [hOld] of a
    row is the [hOld] the record had in the buffer. *)
Lemma finalize_rows_hOld (o : @Options B) (s : State) a :
  activeSession s = Some a ->
  exists rows s',
    finalize o s = (inr (active_sessionId a, List.length (changeBuffer a)), s') /\
    session_changes s' = (session_changes s ++ rows)%list /\
    (opt_db o = true ->
     map (fun r => Change.hOld (snd r)) rows = map Change.hOld (changeBuffer a) /\
     map (fun r => Change.p (snd r)) rows = map Change.p (changeBuffer a)).
Proof.
  intros Ha. unfold finalize. munfold. rewrite Ha.
  destruct (computeDeferredHashes_hOld o (changeBuffer a) (getW s))
    as (l' & w' & Hrun & Hh & Hp).
  rewrite Hrun. cbn [setW State_HasWorld on_world on_activeSession world activeSession
                      session_changes].
  destruct (opt_db o && (0 <? List.length l'))%nat eqn:Hdb.
  - eexists _, _. split; [reflexivity|]. split; [reflexivity|]. intros _.
    rewrite !map_map. simpl. rewrite <- Hh, <- Hp. split; reflexivity.
  - exists [], (mkState w' None (session_changes s)).
    split; [reflexivity|]. split; [now rewrite app_nil_r|]. intros Hd.
    rewrite Hd in Hdb. simpl in Hdb.
    destruct l' as [|x l']; [|discriminate Hdb].
    destruct (changeBuffer a); [split; reflexivity | discriminate Hh].
Qed.
End WithStore.
End ManagerFacts.

(** * Concrete runs *)

Module Runs.
Import Fixture.

(** *** C3: one swap fails, the other succeeds *)

Definition two_files : SessionManifestV1 :=
  mkManifest "s1" "file:///work" "Updated a, b" 2
    [ modified_file "a.txt" (bytes_of_string "A0") (bytes_of_string "A1");
      modified_file "b.txt" (bytes_of_string "B0") (bytes_of_string "B1") ].

Definition world_b_locked : World :=
  with_blobs [bytes_of_string "A0"; bytes_of_string "B0"]
    (mkWorld {[ "/work/a.txt" := bytes_of_string "A1";
                "/work/b.txt" := bytes_of_string "B1" ]}
             ∅
             (fail_on OpRename "/work/.snapback-rollback-s1/b.txt"
                      (eacces "/work/.snapback-rollback-s1/b.txt"))).

Definition partial_run :=
  SessionRollback.rollback_body show_journal engine two_files None
    (SessionRollback.initial_state engine two_files 0 world_b_locked).

(** C3 as stated: a rollback whose swap phase fails for some files and
    succeeds for others reports success. *)
Definition partial_success_claim (run : (Exn + RollbackResult.t) * SessionRollback.State)
  : Prop :=
  SessionRollback.errors (snd run) <> [] ->
  SessionRollback.reverted (snd run) <> [] ->
  exists r, fst run = inr r /\ RollbackResult.success r = true /\
            forall e, In e (SessionRollback.errors (snd run)) ->
                      In (path e) (RollbackResult.filesSkipped r).

(** C3, as stated, fails: [b.txt] cannot be moved into place, [a.txt] is
    reverted, and the result says [success = false]. *)
Lemma partial_success_counterexample : ~ partial_success_claim partial_run.
Proof.
  intros Hc. destruct Hc as (r & Hr & Hs & _).
  - vm_compute. discriminate.
  - vm_compute. discriminate.
  - vm_compute in Hr. injection Hr as <-. discriminate Hs.
Qed.

(** The rollback went on after the failure: [a.txt] is reverted. *)
Example partial_run_result :
  fst partial_run
  = inr (RollbackResult.mk false ["a.txt"] ["b.txt"]
           [mkFileError "b.txt"
              "EACCES: permission denied, /work/.snapback-rollback-s1/b.txt"]
           (Some "/work/.sb_journal/pending/s1.json")).
Proof. vm_compute. reflexivity. Qed.

(** The amended C3 on that run. *)
Lemma swap_failure_reported_witness :
  exists r,
    SessionRollback.rollback show_journal engine two_files None 0 world_b_locked
    = (inr r, SessionRollback.world (snd partial_run)) /\
    RollbackResult.success r = false /\
    (forall e, In e (SessionRollback.errors (snd partial_run)) ->
               In (path e) (RollbackResult.filesSkipped r) /\
               In e (RollbackResult.errors r)) /\
    (RollbackFacts.no_session_error (RollbackResult.errors r) ->
     forall p, In p (map fst (SessionRollback.stagedFiles (snd partial_run))) \/
               In p (SessionRollback.filesToDelete (snd partial_run)) ->
               In p (RollbackResult.filesReverted r) \/
               In p (RollbackResult.filesSkipped r)).
Proof.
  apply (RollbackFacts.swap_failure_reported show_journal engine two_files None 0
           world_b_locked (fst partial_run) (snd partial_run)).
  - unfold partial_run. exact (surjective_pairing _).
  - vm_compute. discriminate.
Defined.

(** *** C10: an exception after [success] was set *)

Definition empty_session : SessionManifestV1 :=
  mkManifest "s1" "file:///work" "Empty session" 0 [].

Definition dry_run : option RollbackOptions := Some (mkOptions None true false).

Definition world_journal_locked : World :=
  mkWorld ∅ ∅ (fail_on OpUnlink "/work/.sb_journal/pending/s1.json"
                       (eacces "/work/.sb_journal/pending/s1.json")).

(** C10 (code bug): the dry run sets [success = true], then the removal of
    the pending journal throws; the catch block adds the "<session>" error
    and returns the result with [success] still [true]. *)
Theorem rollback_success_with_session_error :
  fst (SessionRollback.rollback show_journal engine empty_session dry_run 0
         world_journal_locked)
  = inr (RollbackResult.mk true [] []
           [mkFileError "<session>"
              "Rollback failed: EACCES: permission denied, /work/.sb_journal/pending/s1.json"]
           (Some "/work/.sb_journal/pending/s1.json")).
Proof. vm_compute. reflexivity. Qed.

(** The same without any file-system fault: the progress callback throws
    at 100, after the swap of an empty session has set [success]. *)
Definition closing_sink (percent : Q) : option Exn :=
  if Qle_bool 100 percent then Some (Error "sink closed") else None.

Example rollback_success_with_callback_error :
  fst (SessionRollback.rollback show_journal engine empty_session
         (Some (mkOptions (Some closing_sink) false false)) 0
         (mkWorld ∅ ∅ no_fault))
  = inr (RollbackResult.mk true [] []
           [mkFileError "<session>" "Rollback failed: sink closed"]
           (Some "/work/.sb_journal/pending/s1.json")).
Proof. vm_compute. reflexivity. Qed.

(** *** C2 and C9: a session of the manager *)

#[local] Existing Instance SessionManager.State_HasWorld.

Definition world_a : World :=
  mkWorld {[ "/work/a.txt" := bytes_of_string "A" ]} ∅ no_fault.

(** [a.txt] holds "A" before the session; it is rewritten to "B", the
    change is tracked, and the session is finalized. *)
Definition rewrite_session : M SessionManager.State (string * nat) :=
  SessionManager.start manager "s1" 1000 >>>
  liftW (writeFile "/work/a.txt" (bytes_of_string "B")) >>>
  SessionManager.track no_match manager "/work/a.txt" modified None >>>
  SessionManager.finalize manager.

(** C2 (code bug): the finalized record has no [hOld], and the content
    "A" the file had before the session is in no blob. *)
Theorem finalize_leaves_hOld_empty :
  let s := snd (rewrite_session (idle world_a)) in
  fst (rewrite_session (idle world_a)) = inr ("s1", 1%nat) /\
  SessionManager.manifest_changes "s1" s
  = [plain "a.txt" modified None (Some (sha256_hex (bytes_of_string "B")))] /\
  exists_in (SessionManager.world s)
    (FilesystemBlobStore.getFilePath store (sha256_hex (bytes_of_string "A")) "sha256")
  = false.
Proof. vm_compute. repeat split. Qed.

Definition nul_path : string := "/work/a" ++ String Ascii.zero "b".

Definition stray_session : M SessionManager.State (string * nat) :=
  SessionManager.start manager "s1" 1000 >>>
  SessionManager.track no_match manager "/etc/passwd" modified None >>>
  SessionManager.track no_match manager nul_path created None >>>
  SessionManager.finalize manager.

(** C9 (code bug): a path outside the workspace is stored with its [..]
    segment, a path with a NUL byte is stored as it is; neither call is
    rejected. *)
Theorem track_stores_unsafe_paths :
  let s := snd (stray_session (idle world_a)) in
  fst (stray_session (idle world_a)) = inr ("s1", 2%nat) /\
  map Change.p (SessionManager.manifest_changes "s1" s)
  = ["../etc/passwd"; "a" ++ String Ascii.zero "b"].
Proof. vm_compute. repeat split. Qed.

(** *** C4: a staged file that fails validation *)

Definition corrupt_store : Unchecked :=
  unchecked [("00", bytes_of_string "not the content of 00")].

Definition engine_unchecked : SessionRollback.t :=
  SessionRollback.new "/work" corrupt_store None false.

(** [a.txt] was deleted in the session; its old content is blob "00". *)
Definition deleted_a : SessionManifestV1 :=
  mkManifest "s1" "file:///work" "Deleted a" 1
    [plain "a.txt" deleted (Some "00") None].

Definition world_b : World :=
  mkWorld {[ "/work/b.txt" := bytes_of_string "B" ]} ∅ no_fault.

Definition aborted_run :=
  SessionRollback.rollback_body show_journal engine_unchecked deleted_a None
    (SessionRollback.initial_state engine_unchecked deleted_a 0 world_b).


(** *** C5: recovery of a crashed session *)

Definition crashed : JournalEntry :=
  Journal.mk "s1" 0 "/work" [] [mkBackup "/work/a.txt" "/work/a.txt.bak-s1"] pending.

Definition journal_file : string := "/work/.sb_journal/pending/s1.json".

(** The swap had moved [a.txt] to its backup when the process died; the
    backup cannot be renamed back across devices. *)
Definition world_crashed : World :=
  mkWorld {[ "/work/a.txt.bak-s1" := bytes_of_string "A0";
             "/work/a.txt" := bytes_of_string "half written";
             journal_file := show_journal crashed ]}
          ∅
          (fail_on OpRename "/work/a.txt.bak-s1" (exdev "/work/a.txt.bak-s1")).


(** *** C6 and C7: the blob store *)

Definition world_empty : World := mkWorld ∅ ∅ no_fault.


(** A blob file whose content was altered after it was stored. *)
Definition world_tampered : World :=
  mkWorld {[ FilesystemBlobStore.getFilePath store (sha256_hex (bytes_of_string "hello"))
               "sha256" := bytes_of_string "jello" ]} ∅ no_fault.

(** C7 on that file: the read is refused with [HASH_MISMATCH]. *)
Lemma get_verifies_digest_witness :
  exists e,
    FilesystemBlobStore.get store (sha256_hex (bytes_of_string "hello")) world_tampered
    = (inr (Err e), world_tampered) /\
    code e = HASH_MISMATCH.
Proof.
  destruct (get_verifies_digest store (sha256_hex (bytes_of_string "hello")) world_tampered)
    as (_ & Hbad & _).
  apply (Hbad eq_refl eq_refl (bytes_of_string "jello")).
  - vm_compute. reflexivity.
  - vm_compute. discriminate.
Defined.
End Runs.

(** * The blob store beyond the round trip *)

Module StoreFacts.
Import FilesystemBlobStore.

Definition not_initialized {T} : Result T BlobStoreError :=
  err IO_ERROR "BlobStore not initialized" [].

Ltac store_unfold :=
  unfold put, get, FilesystemBlobStore.delete, has, initialize, close,
    existsSync, readFile, writeFile, mkdir, unlink, LZ4.compress, LZ4.decompress in *;
  munfold.

Lemma total_handled {St A} (m : M St A) (h : Exn -> A) :
  total (try_catch m (fun e => ret (h e))).
Proof. apply total_try. intros e. apply total_ret. Qed.

(** X1: [put], [get], [delete], [initialize] and [close] never throw: whatever
    the file system does, the caller gets a [Result]. *)
Theorem store_never_throws (st : FilesystemBlobStore.t) :
  (forall b, total (put st b)) /\
  (forall h, total (get st h)) /\
  (forall h, total (FilesystemBlobStore.delete st h)) /\
  total (initialize st) /\
  total (close st).
Proof.
  repeat split; intros;
    unfold put, get, FilesystemBlobStore.delete, initialize, close;
    try destruct (negb (initialized st));
    first [apply total_ret | apply total_handled].
Qed.

(** X2: A failing system call surfaces as an [IO_ERROR] result that carries
    the system's message: a blob file that cannot be read, a shard
    directory that cannot be created, a blob file that cannot be written
    or removed. *)
Theorem io_failure_is_io_error (st : FilesystemBlobStore.t) (w : World) (e : Exn) :
  initialized st = true ->
  (forall h, let f := getFilePath st h "sha256" in
             exists_in w f = true -> fault w OpReadFile f = Some e ->
             get st h w = (inr (err IO_ERROR ("Failed to retrieve blob: " ++ exn_msg e)
                                    [("hash", h)]), w)) /\
  (forall b, let h := sha256_hex b in
             exists_in w (getFilePath st h "sha256") = false ->
             fault w OpMkdir (getShardPath st h "sha256") = Some e ->
             put st b w = (inr (err IO_ERROR ("Failed to store blob: " ++ exn_msg e) []), w)) /\
  (forall b, let h := sha256_hex b in
             exists_in w (getFilePath st h "sha256") = false ->
             fault w OpMkdir (getShardPath st h "sha256") = None ->
             fault w OpWriteFile (getFilePath st h "sha256") = Some e ->
             fst (put st b w) = inr (err IO_ERROR ("Failed to store blob: " ++ exn_msg e) []) /\
             files (snd (put st b w)) = files w) /\
  (forall h, let f := getFilePath st h "sha256" in
             exists_in w f = true -> fault w OpUnlink f = Some e ->
             FilesystemBlobStore.delete st h w
             = (inr (err IO_ERROR ("Failed to delete blob: " ++ exn_msg e)
                         [("hash", h)]), w)).
Proof.
  intros Hi. split; [|split; [|split]].
  - intros h f He Hf. store_unfold. rewrite Hi. simpl. fold f. rewrite He. simpl.
    rewrite Hf. reflexivity.
  - intros b h He Hf. store_unfold. rewrite Hi. simpl. fold h. rewrite He. simpl.
    rewrite Hf. reflexivity.
  - intros b h He Hm Hf. store_unfold. rewrite Hi. simpl. fold h. rewrite He. simpl.
    rewrite Hm. simpl. rewrite Hf. split; reflexivity.
  - intros h f He Hf. store_unfold. rewrite Hi. simpl. fold f. rewrite He. simpl.
    rewrite Hf. reflexivity.
Qed.

(** X3: A store that was closed, or never initialized, answers [IO_ERROR] to
    [put], [get] and [delete] and leaves the file system as it is. *)
Theorem closed_store_refuses (st : FilesystemBlobStore.t) (w : World) :
  (forall st', initialized st' = false ->
     forall b h w1,
       put st' b w1 = (inr not_initialized, w1) /\
       get st' h w1 = (inr not_initialized, w1) /\
       FilesystemBlobStore.delete st' h w1 = (inr not_initialized, w1)) /\
  exists st', close st w = (inr (Ok tt, st'), w) /\
              initialized st' = false /\ basePath st' = basePath st.
Proof.
  split.
  - intros st' Hi b h w1. store_unfold. rewrite Hi. repeat split.
  - eexists. split; [reflexivity|]. split; reflexivity.
Qed.

(** X4: [get] and [has] only read: whatever they answer, the file system is
    the same afterwards. *)
Theorem get_reads_only (st : FilesystemBlobStore.t) (h : string) (w : World) :
  snd (get st h w) = w /\ snd (has st h w) = w.
Proof.
  split; [|reflexivity].
  store_unfold. destruct (initialized st); simpl; [|reflexivity].
  destruct (exists_in w _); simpl; [|reflexivity].
  destruct (fault w OpReadFile _); simpl; [reflexivity|].
  destruct (files w !! _); simpl; [|reflexivity].
  destruct (String.eqb _ h); reflexivity.
Qed.

(** X5: On an initialized store, [has] answers [false] exactly when [get]
    answers not-found. *)
Theorem has_agrees_with_get (st : FilesystemBlobStore.t) (h : string) (w : World) :
  initialized st = true ->
  (fst (has st h w) = inr false <-> fst (get st h w) = inr (Ok None)).
Proof.
  intros Hi. store_unfold. rewrite Hi. simpl.
  destruct (exists_in w _); simpl.
  - split; [discriminate|].
    destruct (fault w OpReadFile _); simpl; [discriminate|].
    destruct (files w !! _); simpl; [|discriminate].
    destruct (String.eqb _ h); discriminate.
  - split; reflexivity.
Qed.

(** X6: [put] is idempotent: once it has returned a digest, putting the same
    bytes again returns the same digest and changes nothing. *)
Theorem put_idempotent (st : FilesystemBlobStore.t) (b : bytes) (w : World) h :
  fst (put st b w) = inr (Ok h) ->
  put st b (snd (put st b w)) = (inr (Ok h), snd (put st b w)).
Proof.
  store_unfold. destruct (initialized st); simpl; [|discriminate].
  destruct (exists_in w _) eqn:He; simpl.
  - intros [= <-]. rewrite He. reflexivity.
  - destruct (fault w OpMkdir _); simpl; [discriminate|].
    destruct (fault w OpWriteFile _); simpl; [discriminate|].
    intros [= <-].
    rewrite (exists_in_file _ _ b); [reflexivity|].
    simpl. apply lookup_insert_eq.
Qed.

(** X7: [put] writes at most the file named by the digest, and never rewrites
    a blob file that exists. *)
Theorem put_touches_one_file (st : FilesystemBlobStore.t) (b : bytes) (w : World) :
  let f := getFilePath st (sha256_hex b) "sha256" in
  (forall p, p <> f -> files (snd (put st b w)) !! p = files w !! p) /\
  (forall c, files w !! f = Some c -> files (snd (put st b w)) !! f = Some c) /\
  (forall c, files (snd (put st b w)) !! f = Some c -> c = b \/ files w !! f = Some c).
Proof.
  intros f. store_unfold. fold f.
  destruct (initialized st); simpl; [|repeat split; auto].
  destruct (exists_in w f) eqn:He; simpl; [repeat split; auto|].
  destruct (fault w OpMkdir _); simpl; [repeat split; auto|].
  destruct (fault w OpWriteFile f); simpl; [repeat split; auto|].
  split; [|split].
  - intros p Hp. apply lookup_insert_ne. congruence.
  - intros c Hc. apply exists_in_file in Hc. congruence.
  - intros c Hc. rewrite lookup_insert_eq in Hc. left. congruence.
Qed.

(** X8: [delete] of a stored blob removes its file and nothing else:
    afterwards [has] answers [false] and [get] answers not-found. *)
Theorem delete_removes (st : FilesystemBlobStore.t) (h : string) (w : World) c :
  let f := getFilePath st h "sha256" in
  initialized st = true ->
  files w !! f = Some c -> f ∉ dirs w ->
  fault w OpUnlink f = None ->
  exists w',
    FilesystemBlobStore.delete st h w = (inr (Ok tt), w') /\
    has st h w' = (inr false, w') /\
    get st h w' = (inr (Ok None), w') /\
    forall p, p <> f -> files w' !! p = files w !! p.
Proof.
  intros f Hi Hc Hd Hu.
  assert (Hgone : forall w', files w' = base.delete f (files w) -> dirs w' = dirs w ->
                             exists_in w' f = false).
  { intros w' Hf Hds. unfold exists_in. rewrite Hf, Hds, lookup_delete_eq.
    rewrite bool_decide_eq_false_2 by (intros [x Hx]; discriminate).
    rewrite bool_decide_eq_false_2 by exact Hd. reflexivity. }
  store_unfold. rewrite Hi. simpl. fold f.
  rewrite (exists_in_file _ _ _ Hc). simpl. rewrite Hu. simpl. rewrite Hc.
  eexists. split; [reflexivity|].
  rewrite Hgone by reflexivity. simpl.
  split; [reflexivity|]. split; [reflexivity|].
  intros p Hp. apply lookup_delete_ne. congruence.
Qed.

(** [delete] of a blob that is not stored answers [BLOB_NOT_FOUND] and
    changes nothing. *)
Theorem delete_missing (st : FilesystemBlobStore.t) (h : string) (w : World) :
  initialized st = true ->
  exists_in w (getFilePath st h "sha256") = false ->
  FilesystemBlobStore.delete st h w
  = (inr (err BLOB_NOT_FOUND ("Blob not found: " ++ h) [("hash", h)]), w).
Proof.
  intros Hi He. store_unfold. rewrite Hi. simpl. rewrite He. reflexivity.
Qed.
End StoreFacts.

(** * The inverse change list, staging and validation *)

Module InverseFacts.
Import SessionRollback.

(** A record as a session writes it: a created file has no old digest, a
    deleted file no new one, and a renamed file a path and a [from] that
    are not empty. *)
Definition well_formed (c : SessionChange) : Prop :=
  match Change.op c with
  | created => Change.hOld c = None
  | modified => True
  | deleted => Change.hNew c = None
  | renamed => Change.p c <> "" /\ exists f, Change.from c = Some f /\ f <> ""
  end.

Lemma inverse_inverse c : well_formed c -> inverse (inverse c) = c.
Proof.
  destruct c as [p op from hOld hNew sb sa mb ma ob oa eb ea].
  unfold well_formed; destruct op; simpl.
  - intros ->. reflexivity.
  - reflexivity.
  - intros ->. reflexivity.
  - intros (Hp & f & -> & Hf). unfold inverse; simpl.
    apply String.eqb_neq in Hp, Hf. rewrite Hf. simpl. rewrite Hp. reflexivity.
Qed.

(** X9: Inverting twice gives the list back: the inverse of the inverse of a
    list of well-formed records is the list itself. *)
Theorem reverseChanges_involutive (changes : list SessionChange) :
  Forall well_formed changes ->
  reverseChanges (reverseChanges changes) = changes.
Proof.
  intros Hwf. unfold reverseChanges.
  rewrite <- map_rev, rev_involutive, map_map.
  induction Hwf as [|c l Hc _ IH]; simpl; [reflexivity|].
  now rewrite inverse_inverse, IH.
Qed.

Definition two_renames : list SessionChange :=
  [ Change.mk "b.txt" renamed (Some "a.txt") (Some "01") (Some "02")
              None None None None None None None None;
    Change.mk "c.txt" created None None (Some "03")
              None (Some 3%Z) None None None None None None ].

Lemma reverseChanges_involutive_witness :
  reverseChanges (reverseChanges two_renames) = two_renames.
Proof.
  apply reverseChanges_involutive.
  repeat constructor; simpl; try discriminate.
  exists "a.txt". split; [reflexivity|discriminate].
Defined.

(** The inverse list has one record per change, in the opposite order,
    and the inverse of a record that is not a rename is about the same
    path. *)
Theorem reverseChanges_paths (changes : list SessionChange) :
  List.length (reverseChanges changes) = List.length changes /\
  forall i c, nth_error (rev changes) i = Some c ->
    exists c', nth_error (reverseChanges changes) i = Some c' /\
               (Change.op c <> renamed -> Change.p c' = Change.p c) /\
               (Change.op c = renamed -> Change.from c' = Some (Change.p c)).
Proof.
  unfold reverseChanges. split.
  - now rewrite length_map, length_rev.
  - intros i c Hi. exists (inverse c). split.
    + rewrite nth_error_map, Hi. reflexivity.
    + destruct c as [p op from hOld hNew sb sa mb ma ob oa eb ea].
      destruct op; simpl; split; congruence.
Qed.

(** X10: [validateStaging] reports exactly the staged files whose content does
    not hash to the expected digest, each once per staged entry, and
    nothing when all match. *)
Theorem validateStaging_exact (staged : list (string * StagedFile)) :
  (forall p, In p (map path (validateStaging staged)) <->
             exists sf, In (p, sf) staged /\ sha256_hex (content sf) <> hash sf) /\
  (validateStaging staged = [] <->
   forall p sf, In (p, sf) staged -> sha256_hex (content sf) = hash sf).
Proof.
  assert (Hone : forall entry : string * StagedFile,
             forall e, In e (if negb (String.eqb (sha256_hex (content (snd entry)))
                                                 (hash (snd entry)))
                             then [mkFileError (fst entry)
                                     ("Hash mismatch: expected " ++ hash (snd entry)
                                        ++ ", got " ++ sha256_hex (content (snd entry)))]
                             else []) ->
                       path e = fst entry /\
                       sha256_hex (content (snd entry)) <> hash (snd entry)).
  { intros entry e. destruct (String.eqb_spec (sha256_hex (content (snd entry)))
                                              (hash (snd entry))); simpl; [intros []|].
    intros [<-|[]]. split; [reflexivity|assumption]. }
  split.
  - intros p. unfold validateStaging. rewrite in_map_iff. split.
    + intros (e & <- & He). apply in_flat_map in He as ([q sf] & Hin & He).
      apply Hone in He as [Hp Hne]. simpl in *. exists sf. now rewrite Hp.
    + intros (sf & Hin & Hne).
      exists (mkFileError p ("Hash mismatch: expected " ++ hash sf ++ ", got "
                               ++ sha256_hex (content sf))).
      split; [reflexivity|]. apply in_flat_map. exists (p, sf). split; [exact Hin|].
      simpl. apply String.eqb_neq in Hne. rewrite Hne. now left.
  - unfold validateStaging. split.
    + intros Hnil p sf Hin.
      destruct (String.eqb_spec (sha256_hex (content sf)) (hash sf)) as [|Hne]; [assumption|].
      exfalso.
      assert (Hin' : In (mkFileError p ("Hash mismatch: expected " ++ hash sf ++ ", got "
                                          ++ sha256_hex (content sf)))
                        (flat_map
                           (fun entry : string * StagedFile =>
                              if negb (String.eqb (sha256_hex (content (snd entry)))
                                                  (hash (snd entry)))
                              then [mkFileError (fst entry)
                                      ("Hash mismatch: expected " ++ hash (snd entry)
                                         ++ ", got " ++ sha256_hex (content (snd entry)))]
                              else []) staged)).
      { apply in_flat_map. exists (p, sf). split; [exact Hin|].
        simpl. apply String.eqb_neq in Hne. rewrite Hne. now left. }
      rewrite Hnil in Hin'. destruct Hin'.
    + intros Hall. induction staged as [|[p sf] l IH]; [reflexivity|].
      simpl. rewrite (Hall p sf) by now left. rewrite String.eqb_refl. simpl.
      apply IH. intros q sf' Hin. apply (Hall q sf'). now right.
Qed.
End InverseFacts.


(* ===================================================================== *)
(** * The swap, file by file *)
(* ===================================================================== *)

Module SwapFacts.
Section WithStore.
Context {B : Type} `{BlobStore B}.
Import SessionRollback.

Lemma append_grows (a b : string) : b <> "" -> a ++ b <> a.
Proof.
  intros Hb. induction a as [|c a IH]; rewrite ?PathFacts.sapp_nil, ?PathFacts.sapp_cons.
  - exact Hb.
  - intros [= E]. now apply IH.
Qed.

Lemma backup_differs (a sid : string) : a ++ ".bak-" ++ sid <> a.
Proof. apply append_grows. discriminate. Qed.

(** A loop whose invariant speaks of the elements done and to do. *)
Lemma for_indexed_run {St A} (I : list A -> list A -> St -> Prop)
      (body : nat -> A -> M St unit) :
  (forall i done x todo s,
     I done (x :: todo) s ->
     exists s', body i x s = (inr tt, s') /\ I (done ++ [x])%list todo s') ->
  forall todo done i s,
    I done todo s ->
    exists s', for_indexed i todo body s = (inr tt, s') /\ I (done ++ todo)%list [] s'.
Proof.
  intros Hstep todo. induction todo as [|x todo IH]; intros done i s HI; simpl.
  - exists s. rewrite app_nil_r. split; [reflexivity|exact HI].
  - destruct (Hstep i done x todo s HI) as (s1 & Hrun & H1).
    destruct (IH (done ++ [x])%list (S i) s1 H1) as (s2 & Hrest & H2).
    exists s2. unfold bind. rewrite Hrun, Hrest.
    rewrite <- app_assoc in H2. split; [reflexivity|exact H2].
Qed.

Lemma NoDup_fst_inj {V} (l : list (string * V)) k v v' :
  List.NoDup (map fst l) -> In (k, v) l -> In (k, v') l -> v = v'.
Proof.
  induction l as [|[k0 v0] l IH]; simpl; [intros _ []|].
  intros Hnd. apply NoDup_cons_iff in Hnd as [Hk Hnd].
  intros [[= -> ->]|H1] [[= <-]|H2]; try reflexivity.
  - exfalso. apply Hk. apply in_map_iff. now exists (k, v').
  - exfalso. apply Hk. apply in_map_iff. now exists (k0, v).
  - now apply IH.
Qed.

Variable self : @SessionRollback.t B.
Variable sid : string.

(** The three places of a path in [atomicSwap]. *)
Definition absPath (relPath : string) : string :=
  path_join [workspaceRoot self; relPath].
Definition stagingPath (relPath : string) : string :=
  path_join [workspaceRoot self; ".snapback-rollback-" ++ sid; relPath].
Definition backupPath (relPath : string) : string :=
  absPath relPath ++ ".bak-" ++ sid.

(** What one swap of a staged file does when its renames do not fail. *)
Lemma swapStaged_effect (relPath : string) (s : State) (c : bytes) :
  files (world s) !! stagingPath relPath = Some c ->
  stagingPath relPath <> absPath relPath ->
  stagingPath relPath <> backupPath relPath ->
  absPath relPath ∉ dirs (world s) ->
  fault (world s) OpRename (absPath relPath) = None ->
  fault (world s) OpRename (stagingPath relPath) = None ->
  exists s',
    swapStaged self sid relPath s = (inr tt, s') /\
    files (world s') !! absPath relPath = Some c /\
    files (world s') !! stagingPath relPath = None /\
    (forall c0, files (world s) !! absPath relPath = Some c0 ->
                files (world s') !! backupPath relPath = Some c0 /\
                Journal.backups (journal s') =
                  (Journal.backups (journal s)
                     ++ [mkBackup (absPath relPath) (backupPath relPath)])%list) /\
    (files (world s) !! absPath relPath = None ->
     files (world s') !! backupPath relPath = files (world s) !! backupPath relPath /\
     journal s' = journal s) /\
    (forall q, q <> absPath relPath -> q <> stagingPath relPath ->
               q <> backupPath relPath ->
               files (world s') !! q = files (world s) !! q) /\
    reverted s' = (reverted s ++ [relPath])%list /\
    skipped s' = skipped s /\ errors s' = errors s /\
    fault (world s') = fault (world s) /\ dirs (world s') = dirs (world s) /\
    stagedFiles s' = stagedFiles s /\ filesToDelete s' = filesToDelete s /\
    result s' = result s.
Proof.
  intros Hst Hsa Hsb Hdir Hfa Hfs.
  pose proof (backup_differs (absPath relPath) sid) as Hba. fold (backupPath relPath) in Hba.
  unfold swapStaged.
  fold (absPath relPath) (stagingPath relPath). fold (backupPath relPath).
  unfold safeRename, rename, existsSync, exists_in. munfold. simpl.
  rewrite (bool_decide_eq_false_2 (absPath relPath ∈ dirs (world s))) by exact Hdir.
  rewrite orb_false_r.
  destruct (files (world s) !! absPath relPath) as [c0|] eqn:Habs.
  - rewrite bool_decide_eq_true_2 by eauto. simpl.
    rewrite Hfa. simpl. rewrite Habs. simpl. rewrite Hfs. simpl.
    rewrite lookup_insert_ne by congruence.
    rewrite lookup_delete_ne by congruence. rewrite Hst. simpl.
    eexists. split; [reflexivity|]. simpl.
    split; [apply lookup_insert_eq|].
    split; [rewrite lookup_insert_ne by congruence; apply lookup_delete_eq|].
    split.
    { intros c1 [= <-]. split; [|reflexivity].
      rewrite lookup_insert_ne by congruence. rewrite lookup_delete_ne by congruence.
      apply lookup_insert_eq. }
    split; [discriminate|].
    split; [|repeat split].
    intros q Hq1 Hq2 Hq3.
    rewrite lookup_insert_ne by congruence. rewrite lookup_delete_ne by congruence.
    rewrite lookup_insert_ne by congruence. rewrite lookup_delete_ne by congruence.
    reflexivity.
  - rewrite bool_decide_eq_false_2 by (intros [x Hx]; discriminate). simpl.
    rewrite Hfs. simpl. rewrite Hst. simpl.
    eexists. split; [reflexivity|]. simpl.
    split; [apply lookup_insert_eq|].
    split; [rewrite lookup_insert_ne by congruence; apply lookup_delete_eq|].
    split; [discriminate|].
    split.
    { intros _. split; [|reflexivity].
      rewrite lookup_insert_ne by congruence. rewrite lookup_delete_ne by congruence.
      reflexivity. }
    split; [|repeat split].
    intros q Hq1 Hq2 Hq3.
    rewrite lookup_insert_ne by congruence. rewrite lookup_delete_ne by congruence.
    reflexivity.
Qed.

(** What the deletion of one file does: a file that is there goes to
    its backup. *)
Lemma swapDeleted_moves (relPath : string) (s : State) (c0 : bytes) :
  files (world s) !! absPath relPath = Some c0 ->
  fault (world s) OpRename (absPath relPath) = None ->
  exists s',
    swapDeleted self sid relPath s = (inr tt, s') /\
    files (world s') !! absPath relPath = None /\
    files (world s') !! backupPath relPath = Some c0 /\
    (forall q, q <> absPath relPath -> q <> backupPath relPath ->
               files (world s') !! q = files (world s) !! q) /\
    Journal.backups (journal s') =
      (Journal.backups (journal s)
         ++ [mkBackup (absPath relPath) (backupPath relPath)])%list /\
    reverted s' = (reverted s ++ [relPath])%list /\
    skipped s' = skipped s /\ errors s' = errors s /\
    fault (world s') = fault (world s) /\ dirs (world s') = dirs (world s) /\
    stagedFiles s' = stagedFiles s /\ filesToDelete s' = filesToDelete s /\
    result s' = result s.
Proof.
  intros Habs Hfa.
  pose proof (backup_differs (absPath relPath) sid) as Hba. fold (backupPath relPath) in Hba.
  unfold swapDeleted. fold (absPath relPath). fold (backupPath relPath).
  unfold safeRename, rename, existsSync, exists_in. munfold. simpl.
  rewrite (bool_decide_eq_true_2 (is_Some (files (world s) !! absPath relPath))) by eauto.
  simpl. rewrite Hfa. simpl. rewrite Habs. simpl.
  eexists. split; [reflexivity|]. simpl.
  split; [rewrite lookup_insert_ne by congruence; apply lookup_delete_eq|].
  split; [apply lookup_insert_eq|].
  split; [|repeat split].
  intros q Hq1 Hq2.
  rewrite lookup_insert_ne by congruence. rewrite lookup_delete_ne by congruence.
  reflexivity.
Qed.

Lemma swapDeleted_absent (relPath : string) (s : State) :
  exists_in (world s) (absPath relPath) = false ->
  swapDeleted self sid relPath s = (inr tt, on_skipped (push relPath) s).
Proof.
  intros Hno. unfold swapDeleted. fold (absPath relPath).
  unfold existsSync. munfold. simpl. rewrite Hno. destruct s; reflexivity.
Qed.

(** X14: A swap that fails puts the original back: when the file is there
    and is moved to its backup, and the rename of the staged file then
    fails (with an error other than EXDEV), the file is restored from
    the backup with the content it had, the backup is gone, no other
    file changes, and the path is reported as skipped with the error's
    message. *)
Theorem swapStaged_failure_restores (relPath : string) (s : State) (c0 : bytes) (e : Exn) :
  files (world s) !! absPath relPath = Some c0 ->
  stagingPath relPath <> absPath relPath ->
  fault (world s) OpRename (absPath relPath) = None ->
  fault (world s) OpRename (backupPath relPath) = None ->
  fault (world s) OpRename (stagingPath relPath) = Some e ->
  exn_code e <> Some "EXDEV" ->
  exists s',
    swapStaged self sid relPath s = (inr tt, s') /\
    files (world s') !! absPath relPath = Some c0 /\
    files (world s') !! backupPath relPath = None /\
    (forall q, q <> backupPath relPath -> files (world s') !! q = files (world s) !! q) /\
    reverted s' = reverted s /\
    skipped s' = (skipped s ++ [relPath])%list /\
    errors s' = (errors s ++ [mkFileError relPath (exn_msg e)])%list.
Proof.
  intros Habs Hsa Hfa Hfb Hfs Hcode.
  pose proof (backup_differs (absPath relPath) sid) as Hba. fold (backupPath relPath) in Hba.
  unfold swapStaged.
  fold (absPath relPath) (stagingPath relPath). fold (backupPath relPath).
  unfold safeRename, rename, existsSync, exists_in. munfold. simpl.
  rewrite (bool_decide_eq_true_2 (is_Some (files (world s) !! absPath relPath))) by eauto.
  simpl. rewrite Hfa. simpl. rewrite Habs. simpl. rewrite Hfs. simpl.
  rewrite bool_decide_eq_false_2 by exact Hcode. simpl.
  rewrite lookup_insert_eq.
  rewrite (bool_decide_eq_true_2 (is_Some (Some c0))) by eauto. simpl.
  rewrite Hfb. simpl. rewrite lookup_insert_eq. simpl.
  eexists. split; [reflexivity|]. simpl.
  split; [apply lookup_insert_eq|].
  split; [rewrite lookup_insert_ne by congruence; apply lookup_delete_eq|].
  split; [|repeat split].
  intros q Hq.
  destruct (decide (q = absPath relPath)) as [->|Hqa].
  - rewrite lookup_insert_eq. now rewrite Habs.
  - rewrite lookup_insert_ne by congruence. rewrite lookup_delete_ne by congruence.
    rewrite lookup_insert_ne by congruence. rewrite lookup_delete_ne by congruence.
    reflexivity.
Qed.
(** ** The whole swap *)

Definition differ (a b : string) : bool := negb (String.eqb a b).

(** The workspace, staging and backup places of the paths are all
    different. *)
Definition separate (paths : list string) : bool :=
  forallb
    (fun p =>
       forallb
         (fun q =>
            differ (absPath p) (stagingPath q) &&
            differ (absPath p) (backupPath q) &&
            differ (backupPath p) (stagingPath q) &&
            (String.eqb p q ||
             (differ (absPath p) (absPath q) &&
              differ (backupPath p) (backupPath q) &&
              differ (stagingPath p) (stagingPath q))))
         paths)
    paths.

Lemma differ_spec a b : differ a b = true -> a <> b.
Proof. unfold differ. intros Hd. apply negb_true_iff in Hd. now apply String.eqb_neq. Qed.

Lemma separate_spec paths p q :
  separate paths = true -> In p paths -> In q paths ->
  absPath p <> stagingPath q /\ absPath p <> backupPath q /\
  backupPath p <> stagingPath q /\
  (p <> q -> absPath p <> absPath q /\ backupPath p <> backupPath q /\
             stagingPath p <> stagingPath q).
Proof.
  unfold separate. intros Hs Hp Hq.
  rewrite forallb_forall in Hs. specialize (Hs p Hp).
  rewrite forallb_forall in Hs. specialize (Hs q Hq).
  apply andb_true_iff in Hs as [Hs H4]. apply andb_true_iff in Hs as [Hs H3].
  apply andb_true_iff in Hs as [H1 H2].
  apply differ_spec in H1, H2, H3.
  split; [exact H1|]. split; [exact H2|]. split; [exact H3|].
  intros Hne. apply orb_true_iff in H4 as [H4|H4].
  - apply String.eqb_eq in H4. contradiction.
  - apply andb_true_iff in H4 as [H4 H7]. apply andb_true_iff in H4 as [H5 H6].
    apply differ_spec in H5, H6, H7. auto.
Qed.

Section Swap.
Variable options : option RollbackOptions.
Variable s0 : State.

Let st := stagedFiles s0.
Let td := filesToDelete s0.
Let keys := map fst st.
Let w0 := world s0.

Hypothesis Hquiet : AbortFacts.quiet options.
Hypothesis Hfault : forall op p, fault w0 op p = None.
Hypothesis Hstaged :
  forall p sf, In (p, sf) st -> files w0 !! stagingPath p = Some (content sf).
Hypothesis Hkeys : List.NoDup keys.
Hypothesis Hsep : separate (keys ++ td) = true.
Hypothesis Hdirs : forall p, In p (keys ++ td) -> absPath p ∉ dirs w0.

(** Neither of the three places of a path in [l]. *)
Definition clear_of (l : list string) (q : string) : Prop :=
  forall p, In p l -> q <> absPath p /\ q <> stagingPath p /\ q <> backupPath p.

Definition saved (p : string) (s : State) : Prop :=
  forall c0, files w0 !! absPath p = Some c0 ->
             files (world s) !! backupPath p = Some c0 /\
             In (mkBackup (absPath p) (backupPath p)) (Journal.backups (journal s)).

(** Between two swaps of staged files. *)
Definition swapping (done todo : list string) (s : State) : Prop :=
  (done ++ todo)%list = keys /\
  fault (world s) = fault w0 /\ dirs (world s) = dirs w0 /\
  errors s = [] /\ skipped s = [] /\ reverted s = done /\
  (forall p sf, In (p, sf) st -> In p done ->
                files (world s) !! absPath p = Some (content sf)) /\
  (forall p sf, In (p, sf) st -> In p todo ->
                files (world s) !! stagingPath p = Some (content sf)) /\
  (forall p, In p done -> saved p s) /\
  (forall q, clear_of done q -> files (world s) !! q = files w0 !! q).

(** Between two deletions. *)
Definition deleting (done todo : list string) (s : State) : Prop :=
  (done ++ todo)%list = td /\
  fault (world s) = fault w0 /\ dirs (world s) = dirs w0 /\
  errors s = [] /\
  (forall p, In p keys -> In p (reverted s)) /\
  (forall p, In p (skipped s) -> In p done) /\
  (forall p, In p done -> files (world s) !! absPath p = None) /\
  (forall p sf, In (p, sf) st -> ~ In p done ->
                files (world s) !! absPath p = Some (content sf)) /\
  (forall p, In p (keys ++ done) -> ~ (In p keys /\ In p done) -> saved p s) /\
  (forall q, clear_of (keys ++ done) q -> files (world s) !! q = files w0 !! q).

(** What the swap does not touch, and where the journal's backups
    come from. *)
Definition kept (s : State) : Prop :=
  stagedFiles s = st /\ filesToDelete s = td /\ result s = result s0 /\
  forall b, In b (Journal.backups (journal s)) ->
            In b (Journal.backups (journal s0)) \/
            exists p, In p (keys ++ td) /\ b = mkBackup (absPath p) (backupPath p).

Lemma key_staged p : In p keys -> exists sf, In (p, sf) st.
Proof.
  unfold keys. intros Hin. apply in_map_iff in Hin as ([k sf] & <- & Hin).
  now exists sf.
Qed.

Lemma staged_key p sf : In (p, sf) st -> In p keys.
Proof. intros Hin. unfold keys. apply in_map_iff. now exists (p, sf). Qed.

Lemma swapStaged_step total i done x todo s :
  swapping done (x :: todo) s /\ kept s ->
  exists s',
    (progress options (60 + (Qnat (S i) / Qnat total) * 30)%Q >>>
     swapStaged self sid x) s = (inr tt, s') /\
    swapping (done ++ [x]) todo s' /\ kept s'.
Proof.
  intros [(Hk & Hf & Hd & He & Hsk & Hr & Habs & Hstg & Hsaved & Hframe)
            (Kst & Ktd & Kres & Kbak)].
  assert (Hx : In x keys) by (rewrite <- Hk; apply in_or_app; right; now left).
  assert (Hxa : In x (keys ++ td)) by (apply in_or_app; now left).
  assert (Hnd : List.NoDup (done ++ x :: todo)) by (rewrite Hk; exact Hkeys).
  assert (Hxd : ~ In x done).
  { intros Hin. apply NoDup_remove_2 in Hnd. apply Hnd. apply in_or_app. now left. }
  assert (Hxt : ~ In x todo).
  { intros Hin. apply NoDup_remove_2 in Hnd. apply Hnd. apply in_or_app. now right. }
  assert (Hall : forall p, In p done \/ In p todo -> In p (keys ++ td) /\ p <> x).
  { intros p Hp. split.
    - apply in_or_app. left. rewrite <- Hk. apply in_or_app.
      destruct Hp; [now left|right; now right].
    - intros ->. destruct Hp; contradiction. }
  destruct (key_staged x Hx) as (sfx & Hsfx).
  destruct (separate_spec _ x x Hsep Hxa Hxa) as (Hx1 & Hx2 & Hx3 & _).
  destruct (swapStaged_effect x s (content sfx)) as
    (s' & Hrun & Ha' & Hs' & Hb1 & Hb2 & Hfr & Hr' & Hsk' & He' & Hf' & Hd'
     & Hst' & Htd' & Hres').
  { apply (Hstg x sfx Hsfx). now left. }
  { congruence. }
  { congruence. }
  { rewrite Hd. now apply Hdirs. }
  { rewrite Hf. apply Hfault. }
  { rewrite Hf. apply Hfault. }
  assert (Hsame : files (world s) !! absPath x = files w0 !! absPath x).
  { apply Hframe. intros p Hp. destruct (Hall p (or_introl Hp)) as [Hpa Hne].
    destruct (separate_spec _ x p Hsep Hxa Hpa) as (H1 & H2 & _ & H4).
    destruct (H4 (not_eq_sym Hne)) as (H5 & _). auto. }
  assert (Hmono : forall b, In b (Journal.backups (journal s)) ->
                            In b (Journal.backups (journal s'))).
  { intros b Hb. destruct (files (world s) !! absPath x) as [c0|] eqn:E.
    - destruct (Hb1 c0 eq_refl) as [_ ->]. apply in_or_app. now left.
    - destruct (Hb2 eq_refl) as [_ ->]. exact Hb. }
  exists s'. split.
  { unfold bind. rewrite (AbortFacts.progress_quiet options _ s Hquiet). exact Hrun. }
  split.
  2:{ split; [congruence|]. split; [congruence|]. split; [congruence|].
      intros b Hb. destruct (files (world s) !! absPath x) as [c0|] eqn:E.
      - destruct (Hb1 c0 eq_refl) as [_ Hj]. rewrite Hj in Hb.
        apply in_app_or in Hb as [Hb|[<-|[]]]; [now apply Kbak|].
        right. exists x. split; [exact Hxa|reflexivity].
      - destruct (Hb2 eq_refl) as [_ Hj]. rewrite Hj in Hb. now apply Kbak. }
  unfold swapping. rewrite <- app_assoc. simpl.
  split; [exact Hk|]. split; [congruence|]. split; [congruence|].
  split; [congruence|]. split; [congruence|]. split; [congruence|].
  split; [|split; [|split]].
  - intros p sf Hin Hp. apply in_app_or in Hp as [Hp|[<-|[]]].
    + destruct (Hall p (or_introl Hp)) as [Hpa Hne].
      destruct (separate_spec _ p x Hsep Hpa Hxa) as (H1 & H2 & _ & H4).
      destruct (H4 Hne) as (H5 & _).
      rewrite Hfr by auto. now apply Habs.
    + rewrite Ha'. f_equal. f_equal.
      exact (NoDup_fst_inj st x sfx sf Hkeys Hsfx Hin).
  - intros p sf Hin Hp.
    destruct (Hall p (or_intror Hp)) as [Hpa Hne].
    destruct (separate_spec _ x p Hsep Hxa Hpa) as (H1 & _ & H3 & H4).
    destruct (H4 (not_eq_sym Hne)) as (_ & _ & H7).
    rewrite Hfr by auto. apply Hstg; [exact Hin|now right].
  - intros p Hp c0 Hc0. apply in_app_or in Hp as [Hp|[<-|[]]].
    + destruct (Hall p (or_introl Hp)) as [Hpa Hne].
      destruct (separate_spec _ x p Hsep Hxa Hpa) as (_ & H2 & _ & H4).
      destruct (separate_spec _ p x Hsep Hpa Hxa) as (_ & _ & H3 & _).
      destruct (H4 (not_eq_sym Hne)) as (_ & H6 & _).
      destruct (Hsaved p Hp c0 Hc0) as [Hb Hj].
      split; [|now apply Hmono].
      rewrite Hfr by auto. exact Hb.
    + rewrite <- Hsame in Hc0. destruct (Hb1 c0 Hc0) as [Hb Hj].
      split; [exact Hb|]. rewrite Hj. apply in_or_app. right. now left.
  - intros q Hq.
    destruct (Hq x) as (Hq1 & Hq2 & Hq3); [apply in_or_app; right; now left|].
    rewrite Hfr by auto. apply Hframe.
    intros p Hp. apply Hq. apply in_or_app. now left.
Qed.
Lemma swapDeleted_step total i done x todo s :
  deleting done (x :: todo) s /\ kept s ->
  exists s',
    (progress options (60 + (Qnat (S i) / Qnat total) * 30)%Q >>>
     swapDeleted self sid x) s = (inr tt, s') /\
    deleting (done ++ [x]) todo s' /\ kept s'.
Proof.
  intros [(Hk & Hf & Hd & He & Hrev & Hskip & Hgone & Habs & Hsaved & Hframe)
            (Kst & Ktd & Kres & Kbak)].
  assert (Hx : In x td) by (rewrite <- Hk; apply in_or_app; right; now left).
  assert (Hxa : In x (keys ++ td)) by (apply in_or_app; now right).
  assert (Hall : forall p, In p (keys ++ done) -> In p (keys ++ td)).
  { intros p Hp. apply in_app_or in Hp as [Hp|Hp]; apply in_or_app; [now left|right].
    rewrite <- Hk. apply in_or_app. now left. }
  assert (Hfresh : ~ In x keys -> ~ In x done ->
                   files (world s) !! absPath x = files w0 !! absPath x).
  { intros Hxk Hxd. apply Hframe. intros p Hp.
    assert (Hne : x <> p) by (intros <-; apply in_app_or in Hp as [Hp|Hp]; contradiction).
    destruct (separate_spec _ x p Hsep Hxa (Hall p Hp)) as (H1 & H2 & _ & H4).
    destruct (H4 Hne) as (H5 & _). auto. }
  destruct (files (world s) !! absPath x) as [c1|] eqn:Ex.
  - (* the file is there: it goes to its backup *)
    destruct (swapDeleted_moves x s c1 Ex) as
      (s' & Hrun & Ha' & Hb' & Hfr & Hj' & Hr' & Hsk' & He' & Hf' & Hd'
       & Hst' & Htd' & Hres').
    { rewrite Hf. apply Hfault. }
    assert (Hxd : ~ In x done).
    { intros Hin. rewrite (Hgone x Hin) in Ex. discriminate. }
    exists s'. split.
    { unfold bind. rewrite (AbortFacts.progress_quiet options _ s Hquiet). exact Hrun. }
    split.
    2:{ split; [congruence|]. split; [congruence|]. split; [congruence|].
        intros b Hb. rewrite Hj' in Hb.
        apply in_app_or in Hb as [Hb|[<-|[]]]; [now apply Kbak|].
        right. exists x. split; [exact Hxa|reflexivity]. }
    unfold deleting. rewrite <- app_assoc. simpl.
    split; [exact Hk|]. split; [congruence|]. split; [congruence|].
    split; [congruence|].
    split; [intros p Hp; rewrite Hr'; apply in_or_app; left; now apply Hrev|].
    split; [intros p Hp; rewrite Hsk' in Hp; apply in_or_app; left; now apply Hskip|].
    split; [|split; [|split]].
    + intros p Hp. destruct (string_dec p x) as [->|Hne]; [exact Ha'|].
      apply in_app_or in Hp as [Hp|[Hp|[]]]; [|congruence].
      assert (Hpa : In p (keys ++ td)) by (apply Hall; apply in_or_app; now right).
      destruct (separate_spec _ p x Hsep Hpa Hxa) as (_ & H2 & _ & H4).
      destruct (H4 Hne) as (H5 & _).
      rewrite Hfr by auto. now apply Hgone.
    + intros p sf Hin Hp.
      assert (Hne : p <> x) by (intros ->; apply Hp; apply in_or_app; right; now left).
      assert (Hpa : In p (keys ++ td)) by (apply in_or_app; left; eapply staged_key; eauto).
      destruct (separate_spec _ p x Hsep Hpa Hxa) as (_ & H2 & _ & H4).
      destruct (H4 Hne) as (H5 & _).
      rewrite Hfr by auto. apply (Habs p sf Hin).
      intros Hpd. apply Hp. apply in_or_app. now left.
    + intros p Hp Hnot c0 Hc0. destruct (string_dec p x) as [->|Hne].
      * assert (Hxk : ~ In x keys).
        { intros Hin. apply Hnot. split; [exact Hin|]. apply in_or_app. right. now left. }
        rewrite <- (Hfresh Hxk Hxd) in Hc0. injection Hc0 as <-.
        split; [exact Hb'|]. rewrite Hj'. apply in_or_app. right. now left.
      * assert (Hp' : In p (keys ++ done)).
        { apply in_app_or in Hp as [Hp|Hp]; apply in_or_app; [now left|right].
          apply in_app_or in Hp as [Hp|[Hp|[]]]; [exact Hp|congruence]. }
        assert (Hnot' : ~ (In p keys /\ In p done)).
        { intros [H1 H2]. apply Hnot. split; [exact H1|]. apply in_or_app. now left. }
        destruct (Hsaved p Hp' Hnot' c0 Hc0) as [Hb Hj].
        destruct (separate_spec _ x p Hsep Hxa (Hall p Hp')) as (_ & H2 & _ & H4).
        destruct (H4 (not_eq_sym Hne)) as (_ & H6 & _).
        split.
        -- rewrite Hfr by auto. exact Hb.
        -- rewrite Hj'. apply in_or_app. now left.
    + intros q Hq.
      destruct (Hq x) as (Hq1 & _ & Hq3).
      { apply in_or_app. right. apply in_or_app. right. now left. }
      rewrite Hfr by auto. apply Hframe.
      intros p Hp. apply Hq. apply in_app_or in Hp as [Hp|Hp]; apply in_or_app;
        [now left|right; apply in_or_app; now left].
  - (* nothing is there: the path is skipped *)
    assert (Hno : exists_in (world s) (absPath x) = false).
    { unfold exists_in. rewrite Ex.
      rewrite bool_decide_eq_false_2 by (intros [y Hy]; discriminate).
      rewrite bool_decide_eq_false_2; [reflexivity|].
      rewrite Hd. now apply Hdirs. }
    exists (on_skipped (push x) s). split.
    { unfold bind. rewrite (AbortFacts.progress_quiet options _ s Hquiet).
      now apply swapDeleted_absent. }
    split; [|repeat split; assumption].
    unfold deleting. rewrite <- app_assoc. simpl.
    split; [exact Hk|]. split; [exact Hf|]. split; [exact Hd|].
    split; [exact He|]. split; [exact Hrev|].
    split.
    { intros p Hp. unfold push in Hp. apply in_app_or in Hp as [Hp|[<-|[]]];
        apply in_or_app; [left; now apply Hskip|right; now left]. }
    split; [|split; [|split]].
    + intros p Hp. apply in_app_or in Hp as [Hp|[<-|[]]]; [now apply Hgone|exact Ex].
    + intros p sf Hin Hp. apply (Habs p sf Hin).
      intros Hpd. apply Hp. apply in_or_app. now left.
    + intros p Hp Hnot c0 Hc0. destruct (string_dec p x) as [->|Hne].
      * assert (Hxk : ~ In x keys).
        { intros Hin. apply Hnot. split; [exact Hin|]. apply in_or_app. right. now left. }
        destruct (in_dec string_dec x done) as [Hxd|Hxd].
        -- apply (Hsaved x); [apply in_or_app; now right| |exact Hc0].
           intros [H1 _]. contradiction.
        -- rewrite <- (Hfresh Hxk Hxd) in Hc0. discriminate.
      * apply (Hsaved p); [| |exact Hc0].
        -- apply in_app_or in Hp as [Hp|Hp]; apply in_or_app; [now left|right].
           apply in_app_or in Hp as [Hp|[Hp|[]]]; [exact Hp|congruence].
        -- intros [H1 H2]. apply Hnot. split; [exact H1|]. apply in_or_app. now left.
    + intros q Hq. apply Hframe.
      intros p Hp. apply Hq. apply in_app_or in Hp as [Hp|Hp]; apply in_or_app;
        [now left|right; apply in_or_app; now left].
Qed.

Lemma bind_run {St X Y} (m : M St X) (k : X -> M St Y) s a s1 res :
  m s = (inr a, s1) -> k a s1 = res -> bind m k s = res.
Proof. intros Hm Hk. unfold bind. now rewrite Hm. Qed.

Lemma try_run {St X} (m : M St X) h s (a : X) s1 :
  m s = (inr a, s1) -> try_catch m h s = (inr a, s1).
Proof. intros Hm. unfold try_catch. now rewrite Hm. Qed.

(** The run of the whole swap, with what it keeps. *)
Lemma atomicSwap_run :
  exists s',
    atomicSwap self sid options s0
    = (inr (mkSwap true (reverted s') (skipped s') []), s') /\
    deleting td [] s' /\ kept s'.
Proof.
  set (s1 := on_reverted (fun _ => [])
               (on_skipped (fun _ => []) (on_errors (fun _ => []) s0))).
  set (total := (List.length st + List.length td)%nat).
  assert (K1 : kept s1).
  { split; [reflexivity|]. split; [reflexivity|]. split; [reflexivity|].
    intros b Hb. now left. }
  assert (H1 : swapping [] keys s1).
  { unfold swapping. simpl.
    do 6 (split; [reflexivity|]).
    split; [intros p sf _ []|].
    split; [intros p sf Hin _; now apply Hstaged|].
    split; [intros p []|].
    intros q _. reflexivity. }
  destruct (for_indexed_run (fun done todo s => swapping done todo s /\ kept s)
              (fun i relPath =>
                 progress options (60 + (Qnat (S i) / Qnat total) * 30)%Q >>>
                 swapStaged self sid relPath)
              (fun i => swapStaged_step total i) keys [] 0%nat s1 (conj H1 K1))
    as (s2 & Hrun1 & (_ & Hf2 & Hd2 & He2 & Hsk2 & Hr2 & Habs2 & _ & Hsaved2 & Hframe2)
        & K2).
  simpl in Hr2, Habs2, Hsaved2, Hframe2.
  assert (H2 : deleting [] td s2).
  { unfold deleting. simpl. rewrite app_nil_r.
    split; [reflexivity|]. split; [exact Hf2|]. split; [exact Hd2|].
    split; [exact He2|].
    split; [intros p Hp; now rewrite Hr2|].
    split; [intros p Hp; rewrite Hsk2 in Hp; destruct Hp|].
    split; [intros p []|].
    split.
    { intros p sf Hin _. apply (Habs2 p sf Hin). eapply staged_key; eauto. }
    split; [|exact Hframe2].
    intros p Hp _. now apply Hsaved2. }
  destruct (for_indexed_run (fun done todo s => deleting done todo s /\ kept s)
              (fun i relPath =>
                 progress options (60 + (Qnat (S i) / Qnat total) * 30)%Q >>>
                 swapDeleted self sid relPath)
              (fun i => swapDeleted_step total i) td [] (List.length st) s2
              (conj H2 K2))
    as (s3 & Hrun2 & H3 & K3).
  simpl in H3.
  exists s3. split; [|split; [exact H3|exact K3]].
  destruct H3 as (_ & _ & _ & He3 & _).
  unfold atomicSwap.
  eapply bind_run; [reflexivity|]. eapply bind_run; [reflexivity|].
  eapply bind_run; [reflexivity|]. apply try_run.
  eapply bind_run; [reflexivity|]. eapply bind_run; [reflexivity|].
  eapply bind_run; [exact Hrun1|]. eapply bind_run; [exact Hrun2|].
  eapply bind_run; [reflexivity|]. cbv beta. unfold ret, id. rewrite He3. reflexivity.
Qed.

End Swap.
End WithStore.
End SwapFacts.


(* ===================================================================== *)
(** * The rollback that goes through *)
(* ===================================================================== *)

Module CommitFacts.
Section WithStore.
Context {B : Type} `{BlobStore B}.
Variable stringify : JournalEntry -> bytes.
Import SessionRollback PathFacts.

(** ** The staging map and the deletion set *)

Lemma map_set_keys {V} (k : string) (v : V) m q :
  In q (map fst (map_set k v m)) -> q = k \/ In q (map fst m).
Proof.
  induction m as [|[k' v'] m IH]; simpl.
  - intros [<-|[]]. now left.
  - destruct (String.eqb_spec k' k) as [->|Hne]; simpl.
    + intros [<-|Hin]; [now left|right; now right].
    + intros [<-|Hin]; [right; now left|].
      destruct (IH Hin) as [->|Hq]; [now left|right; now right].
Qed.

Lemma map_set_NoDup {V} (k : string) (v : V) m :
  List.NoDup (map fst m) -> List.NoDup (map fst (map_set k v m)).
Proof.
  induction m as [|[k' v'] m IH]; simpl; intros Hnd.
  - constructor; [intros []|constructor].
  - apply NoDup_cons_iff in Hnd as [Hk Hnd].
    destruct (String.eqb_spec k' k) as [->|Hne]; simpl.
    + constructor; assumption.
    + constructor; [|now apply IH].
      intros Hin. destruct (map_set_keys k v m k' Hin) as [->|Hq]; contradiction.
Qed.

Lemma map_set_in {V} (k : string) (v : V) m p x :
  List.NoDup (map fst m) ->
  In (p, x) (map_set k v m) -> (p = k /\ x = v) \/ (p <> k /\ In (p, x) m).
Proof.
  induction m as [|[k' v'] m IH]; simpl; intros Hnd.
  - intros [[= <- <-]|[]]. now left.
  - apply NoDup_cons_iff in Hnd as [Hk Hnd].
    destruct (String.eqb_spec k' k) as [->|Hne]; simpl.
    + intros [[= <- <-]|Hin]; [now left|]. right. split; [|now right].
      intros ->. apply Hk. apply in_map_iff. now exists (k, x).
    + intros [[= <- <-]|Hin]; [right; split; [exact Hne|now left]|].
      destruct (IH Hnd Hin) as [Hl|[Hp Hr]]; [now left|right; split; [exact Hp|now right]].
Qed.

Lemma set_add_in (k : string) (l : list string) p :
  In p (set_add k l) <-> p = k \/ In p l.
Proof.
  unfold set_add. destruct (existsb (String.eqb k) l) eqn:E.
  - split; [now right|]. intros [->|Hin]; [|exact Hin].
    apply existsb_exists in E as (x & Hx & Heq). apply String.eqb_eq in Heq. now subst.
  - rewrite in_app_iff. simpl. split.
    + intros [Hl|[<-|[]]]; [now right|now left].
    + intros [->|Hl]; [right; now left|now left].
Qed.

Lemma truthy_some (o : option string) : truthy o = true -> o = Some (or_else o "").
Proof.
  destruct o as [x|]; simpl; [|discriminate].
  destruct (String.eqb x ""); [discriminate|reflexivity].
Qed.

(** ** Joining clean paths *)

Lemma join_two (a b : string) :
  a <> "" -> b <> "" -> path_join [a; b] = Path.normalize (a ++ "/" ++ b).
Proof.
  intros Ha Hb. unfold path_join, Path.join. simpl.
  apply String.eqb_neq in Ha, Hb. now rewrite Ha, Hb.
Qed.

Lemma join_three (a b c : string) :
  a <> "" -> b <> "" -> c <> "" ->
  path_join [a; b; c] = Path.normalize (a ++ "/" ++ b ++ "/" ++ c).
Proof.
  intros Ha Hb Hc. unfold path_join, Path.join. simpl.
  apply String.eqb_neq in Ha, Hb, Hc. now rewrite Ha, Hb, Hc.
Qed.

Lemma abs_clean_nonempty d : abs_clean d = true -> d <> "".
Proof. intros Hd ->. discriminate Hd. Qed.

Lemma join_nested (d a p : string) :
  abs_clean d = true -> rel_clean a = true -> rel_clean p = true ->
  path_join [d; a; p] = path_join [path_join [d; a]; p].
Proof.
  intros Hd Ha Hp.
  pose proof (abs_clean_nonempty d Hd) as Hdn.
  pose proof (rel_clean_nonempty a Ha) as Han.
  pose proof (rel_clean_nonempty p Hp) as Hpn.
  destruct (join_clean d a Hd Ha) as [Hj Hc]. unfold path_join in *.
  rewrite Hj.
  change (Path.join [d; a; p]) with (path_join [d; a; p]).
  change (Path.join [d ++ "/" ++ a; p]) with (path_join [d ++ "/" ++ a; p]).
  rewrite join_three by assumption.
  rewrite join_two by (try assumption; now apply abs_clean_nonempty).
  now rewrite !append_assoc.
Qed.
(** ** The run *)

Variable self : @SessionRollback.t B.
Variable manifest : SessionManifestV1.
Variable options : option RollbackOptions.
Variable now : Z.
Variable w0 : World.

Let sid := sessionId manifest.
Let sd := path_join [workspaceRoot self; ".snapback-rollback-" ++ sid].
Let deletedDir := path_join [sd; ".deleted"].
Let pendingDir := path_join [journalDir self; "pending"].
Let committedDir := path_join [journalDir self; "committed"].
Let jp := path_join [journalDir self; "pending"; sid ++ ".json"].
Let jc := path_join [journalDir self; "committed"; sid ++ ".json"].
Let j0 := journal (initial_state self manifest now w0).
Let reversed := reverseChanges (filesChanged manifest).
Let paths := map Change.p reversed.

(** The places the engine uses for itself: the two journal files, the
    directories it creates. *)
Definition reserved : list string :=
  [jp; jc; pendingDir; committedDir; sd; deletedDir]
    ++ map (fun q => dirname (path_join [sd; q])) paths.

(** The workspace, staging and backup places of the paths are all
    different, no workspace place is below the staging directory, no
    workspace or backup place is a place the engine uses for itself, and
    the journal files are different and not below the staging
    directory. *)
Definition apart : bool :=
  SwapFacts.separate self sid paths &&
  forallb
    (fun p =>
       negb (under sd (SwapFacts.absPath self p)) &&
       forallb
         (fun r =>
            SwapFacts.differ r (SwapFacts.absPath self p) &&
            SwapFacts.differ r (SwapFacts.backupPath self sid p))
         reserved)
    paths &&
  negb (under sd jp) && negb (under sd jc) && SwapFacts.differ jp jc.

Hypothesis Hquiet : AbortFacts.quiet options.
Hypothesis Hro : AbortFacts.read_only (blobStore self).
Hypothesis Hhonest :
  forall h w c w', get (blobStore self) h w = (inr (Ok (Some c)), w') -> sha256_hex c = h.
Hypothesis Hroot : abs_clean (workspaceRoot self) = true.
Hypothesis Hsid : no_slash sid = true.
Hypothesis Hsafe : Forall AbortFacts.safe_change (filesChanged manifest).
Hypothesis Hnofault : forall op p, fault w0 op p = None.
Hypothesis Hwet : opt_dryRun options = false.
Hypothesis Hapart : apart = true.
Hypothesis Hdirs :
  forall p, In p paths ->
            (SwapFacts.absPath self p ∉ dirs w0) /\
            (SwapFacts.backupPath self sid p ∉ dirs w0).

Lemma apart_separate : SwapFacts.separate self sid paths = true.
Proof.
  unfold apart in Hapart.
  apply andb_true_iff in Hapart as [Ha _]. apply andb_true_iff in Ha as [Ha _].
  apply andb_true_iff in Ha as [Ha _]. apply andb_true_iff in Ha as [Ha _]. exact Ha.
Qed.

Lemma apart_journals : under sd jp = false /\ under sd jc = false /\ jp <> jc.
Proof.
  unfold apart in Hapart.
  apply andb_true_iff in Hapart as [Ha H3]. apply andb_true_iff in Ha as [Ha H2].
  apply andb_true_iff in Ha as [Ha H1].
  apply negb_true_iff in H1, H2. apply SwapFacts.differ_spec in H3. auto.
Qed.

Lemma apart_place p :
  In p paths ->
  under sd (SwapFacts.absPath self p) = false /\
  forall r, In r reserved ->
            r <> SwapFacts.absPath self p /\ r <> SwapFacts.backupPath self sid p.
Proof.
  intros Hp. unfold apart in Hapart.
  apply andb_true_iff in Hapart as [Ha _]. apply andb_true_iff in Ha as [Ha _].
  apply andb_true_iff in Ha as [Ha _]. apply andb_true_iff in Ha as [_ Ha].
  rewrite forallb_forall in Ha. specialize (Ha p Hp).
  apply andb_true_iff in Ha as [Hu Hr]. apply negb_true_iff in Hu.
  split; [exact Hu|]. intros r Hin.
  rewrite forallb_forall in Hr. specialize (Hr r Hin).
  apply andb_true_iff in Hr as [H1 H2].
  split; now apply SwapFacts.differ_spec.
Qed.

Lemma path_clean p : In p paths -> rel_clean p = true.
Proof.
  unfold paths. intros Hin. apply in_map_iff in Hin as (c & <- & Hc).
  exact (AbortFacts.reversed_clean manifest Hsafe c Hc).
Qed.

Lemma sd_abs_clean : abs_clean sd = true.
Proof. exact (AbortFacts.sd_clean self manifest Hroot Hsid). Qed.

Lemma staging_place p :
  In p paths -> SwapFacts.stagingPath self sid p = path_join [sd; p].
Proof.
  intros Hp. unfold SwapFacts.stagingPath, sd.
  apply join_nested; [exact Hroot|now apply AbortFacts.staging_name_clean|].
  now apply path_clean.
Qed.

Lemma staging_under p : In p paths -> under sd (path_join [sd; p]) = true.
Proof. intros Hp. apply AbortFacts.under_join; [exact sd_abs_clean|now apply path_clean]. Qed.

(** ** Staging *)

Definition made : list string := [pendingDir; committedDir; sd; deletedDir].

(** The state between two changes of the staging loop. *)
Definition staged_ok (s : State) : Prop :=
  fault (world s) = fault w0 /\
  (forall d, d ∈ dirs (world s) ->
             d ∈ dirs w0 \/ In d made \/
             exists q, In q paths /\ d = dirname (path_join [sd; q])) /\
  sd ∈ dirs (world s) /\
  files (world s) !! jp = Some (stringify j0) /\
  (forall q, under sd q = false -> q <> jp -> files (world s) !! q = files w0 !! q) /\
  journal s = j0 /\
  (forall p sf,
     In (p, sf) (stagedFiles s) ->
     files (world s) !! path_join [sd; p] = Some (content sf) /\
     sha256_hex (content sf) = hash sf /\
     exists c, In c reversed /\ Change.p c = p /\ Change.op c <> deleted /\
               Change.hNew c = Some (hash sf)) /\
  List.NoDup (map fst (stagedFiles s)) /\
  (forall p, In p (filesToDelete s) ->
             exists c, In c reversed /\ Change.p c = p /\ Change.op c = deleted).

Definition staging (done todo : list SessionChange) (s : State) : Prop :=
  (done ++ todo)%list = reversed /\ staged_ok s /\
  forall c, In c done -> Change.op c = deleted -> In (Change.p c) (filesToDelete s).

Definition stage_body (i : nat) (change : SessionChange) : M State unit :=
  progress options (10 + (Qnat i / Qnat (List.length reversed)) * 40)%Q >>>
  try_catch (stageChange self change sd)
    (fun error =>
       modify (on_result (RollbackResult.push_filesSkipped [Change.p change])) >>>
       modify (on_result
                 (RollbackResult.push_errors
                    [mkFileError (Change.p change) (exn_msg error)]))).

Lemma stageChange_other (change : SessionChange) :
  Change.op change <> deleted ->
  stageChange self change sd =
  (let stagingPath := path_join [sd; Change.p change] in
   if negb (truthy (Change.hNew change)) then
     throw (Error ("Missing hash for " ++ ChangeOp_string (Change.op change)
                     ++ " operation on " ++ Change.p change))
   else
     let hash := or_else (Change.hNew change) "" in
     let! blobResult := liftW (get (blobStore self) hash) in
     match blobResult with
     | Err e => throw (Error ("Failed to retrieve blob " ++ hash ++ ": " ++ message e))
     | Ok None => throw (Error ("Blob not found: " ++ hash))
     | Ok (Some content) =>
         liftW (mkdir (dirname stagingPath)) >>>
         liftW (writeFile stagingPath content) >>>
         when (truthyZ (Change.mtimeAfter change)) (liftW (utimes stagingPath)) >>>
         when (truthyZ (Change.modeAfter change) && negb (win32 self))
              (liftW (chmod stagingPath)) >>>
         modify (on_stagedFiles (map_set (Change.p change) (mkStaged hash content)))
     end).
Proof.
  intros Hop. unfold stageChange. destruct (Change.op change); try reflexivity.
  contradiction.
Qed.

(** A change that cannot be staged only adds to the result. *)
Lemma staged_ok_result f s : staged_ok s -> staged_ok (on_result f s).
Proof. destruct s. exact (fun H => H). Qed.

Lemma stage_step i done x todo s :
  staging done (x :: todo) s ->
  exists s', stage_body i x s = (inr tt, s') /\ staging (done ++ [x]) todo s'.
Proof.
  intros (Hk & Hok & Hdone).
  assert (Hx : In x reversed) by (rewrite <- Hk; apply in_or_app; right; now left).
  assert (Hxp : In (Change.p x) paths) by (unfold paths; now apply in_map).
  unfold stage_body. unfold bind at 1. rewrite (AbortFacts.progress_quiet options _ s Hquiet).
  destruct (decide (Change.op x = deleted)) as [Hdel|Hother].
  - (* a deletion is only noted *)
    unfold stageChange. rewrite Hdel. unfold try_catch, modify.
    eexists. split; [reflexivity|].
    destruct s as [w r j st td rv sk er].
    destruct Hok as (H1 & H2 & H3 & H4 & H5 & H6 & H7 & H8 & H9).
    split; [now rewrite <- app_assoc|]. simpl in *. split.
    + split; [exact H1|]. split; [exact H2|]. split; [exact H3|].
      split; [exact H4|]. split; [exact H5|]. split; [exact H6|].
      split; [exact H7|]. split; [exact H8|].
      intros p Hp. apply set_add_in in Hp as [->|Hp]; [|now apply H9].
      exists x. auto.
    + intros c Hc Hcd. apply set_add_in.
      apply in_app_or in Hc as [Hc|[<-|[]]]; [right; now apply Hdone|now left].
  - (* any other change is staged, or skipped with an error *)
    assert (Hskip : forall e,
               exists s',
                 (modify (on_result (RollbackResult.push_filesSkipped [Change.p x])) >>>
                  modify (on_result
                            (RollbackResult.push_errors
                               [mkFileError (Change.p x) (exn_msg e)]))) s = (inr tt, s') /\
                 staging (done ++ [x]) todo s').
    { intros e. eexists. split; [reflexivity|].
      split; [now rewrite <- app_assoc|].
      split; [do 2 apply staged_ok_result; exact Hok|].
      intros c Hc Hcd. apply in_app_or in Hc as [Hc|[<-|[]]]; [|contradiction].
      destruct s; simpl. now apply Hdone. }
    rewrite (stageChange_other x Hother). cbv zeta.
    destruct (truthy (Change.hNew x)) eqn:Ht; simpl negb; cbv iota.
    2:{ unfold try_catch, throw. apply Hskip. }
    unfold try_catch. unfold bind at 1. unfold liftW at 1.
    destruct (get (blobStore self) (or_else (Change.hNew x) "") (getW s))
      as [res w'] eqn:Hget.
    pose proof (Hro _ _ _ _ Hget) as ->.
    assert (Hsame : setW (getW s) s = s) by (destruct s; reflexivity).
    rewrite Hsame.
    destruct res as [e|[[content|]|e]]; try (unfold throw; apply Hskip).
    (* the blob is there *)
    pose proof (Hhonest _ _ _ _ Hget) as Hdigest.
    destruct s as [w r j st td rv sk er].
    destruct Hok as (H1 & H2 & H3 & H4 & H5 & H6 & H7 & H8 & H9). simpl in *.
    assert (Hnf : forall op p, fault w op p = None) by (intros; rewrite H1; apply Hnofault).
    set (sp := path_join [sd; Change.p x]) in *.
    assert (Hrun :
              (liftW (mkdir (dirname sp)) >>>
               liftW (writeFile sp content) >>>
               when (truthyZ (Change.mtimeAfter x)) (liftW (utimes sp)) >>>
               when (truthyZ (Change.modeAfter x) && negb (win32 self))
                    (liftW (chmod sp)) >>>
               modify (on_stagedFiles
                         (map_set (Change.p x)
                                  (mkStaged (or_else (Change.hNew x) "") content))))
                (mkState w r j st td rv sk er)
              = (inr tt,
                 mkState (mkWorld (<[sp := content]> (files w))
                                  ({[dirname sp]} ∪ dirs w) (fault w))
                         r j
                         (map_set (Change.p x)
                                  (mkStaged (or_else (Change.hNew x) "") content) st)
                         td rv sk er)).
    { unfold liftW, mkdir, writeFile, utimes, chmod, set_files, set_dirs. munfold. simpl.
      rewrite !Hnf. simpl.
      destruct (truthyZ (Change.mtimeAfter x));
        destruct (truthyZ (Change.modeAfter x) && negb (win32 self))%bool;
        unfold on_world; cbn;
        repeat (progress (rewrite ?Hnf, ?lookup_insert_eq; cbn));
        reflexivity. }
    rewrite Hrun. eexists. split; [reflexivity|].
    split; [now rewrite <- app_assoc|]. split.
    + assert (Hu : under sd sp = true) by now apply staging_under.
      destruct apart_journals as (Hjp & _ & _).
      unfold staged_ok. simpl.
      split; [exact H1|]. split.
      { intros d Hd. apply elem_of_union in Hd as [Hd|Hd]; [|now apply H2].
        apply elem_of_singleton in Hd as ->. right. right. now exists (Change.p x). }
      split; [apply elem_of_union; now right|].
      split.
      { rewrite lookup_insert_ne; [exact H4|]. intros Heq. rewrite Heq in Hu. congruence. }
      split.
      { intros q Hq Hqj. rewrite lookup_insert_ne; [now apply H5|].
        intros Heq. rewrite Heq in Hu. congruence. }
      split; [exact H6|].
      split.
      { intros p sf Hin. apply map_set_in in Hin as [[-> ->]|[Hne Hin]]; [| |exact H8].
        - simpl. split; [apply lookup_insert_eq|]. split; [exact Hdigest|].
          exists x. split; [exact Hx|]. split; [reflexivity|]. split; [exact Hother|].
          now apply truthy_some.
        - destruct (H7 p sf Hin) as (Hf & Hd & c & Hc & Hcp & Hcop & Hch).
          split; [|split; [exact Hd|now exists c]].
          rewrite lookup_insert_ne; [exact Hf|].
          assert (Hpp : In p paths) by (rewrite <- Hcp; unfold paths; now apply in_map).
          rewrite <- (staging_place p Hpp). unfold sp.
          rewrite <- (staging_place (Change.p x) Hxp).
          destruct (SwapFacts.separate_spec self sid paths (Change.p x) p apart_separate
                      Hxp Hpp) as (_ & _ & _ & H4').
          apply H4'. congruence. }
      split; [now apply map_set_NoDup|exact H9].
    + intros c Hc Hcd. apply in_app_or in Hc as [Hc|[<-|[]]]; [|contradiction].
      now apply Hdone.
Qed.
(** ** Validation, commit and cleanup *)

Lemma validate_passes (staged : list (string * StagedFile)) :
  (forall p sf, In (p, sf) staged -> sha256_hex (content sf) = hash sf) ->
  validateStaging staged = [].
Proof.
  intros Hall. induction staged as [|[p sf] l IH]; [reflexivity|].
  unfold validateStaging in *. simpl.
  rewrite (Hall p sf) by now left. rewrite String.eqb_refl. simpl.
  apply IH. intros q sf' Hin. apply (Hall q sf'). now right.
Qed.

Lemma mkdir_run (s : State) p :
  fault (world s) OpMkdir p = None ->
  liftW (mkdir p) s = (inr tt, on_world (set_dirs (fun d => {[p]} ∪ d)) s).
Proof. intros Hf. unfold liftW, mkdir. munfold. simpl. now rewrite Hf. Qed.

Lemma writeFile_run (s : State) p data :
  fault (world s) OpWriteFile p = None ->
  liftW (writeFile p data) s
  = (inr tt, on_world (set_files (fun f => <[p := data]> f)) s).
Proof. intros Hf. unfold liftW, writeFile. munfold. simpl. now rewrite Hf. Qed.

Lemma unlink_run (s : State) p c :
  fault (world s) OpUnlink p = None -> files (world s) !! p = Some c ->
  liftW (unlink p) s = (inr tt, on_world (set_files (base.delete p)) s).
Proof. intros Hf Hc. unfold liftW, unlink. munfold. simpl. now rewrite Hf, Hc. Qed.

Lemma cleanup_staging_run (s : State) :
  fault (world s) OpRm sd = None -> sd ∈ dirs (world s) ->
  liftW (cleanupStaging sd) s = (inr tt, on_world (AbortFacts.removed sd) s).
Proof.
  intros Hf Hd. unfold cleanupStaging, existsSync, rm. munfold. simpl.
  unfold exists_in. rewrite (bool_decide_eq_true_2 (sd ∈ dirs (world s))) by exact Hd.
  rewrite orb_true_r. simpl. rewrite Hf. reflexivity.
Qed.

(** The files without the backups of a journal. *)
Definition unlink_all (bs : list Backup) (f : gmap string bytes) : gmap string bytes :=
  fold_left (fun f b => base.delete (backup b) f) bs f.

Lemma unlink_all_none bs f q : f !! q = None -> unlink_all bs f !! q = None.
Proof.
  revert f. induction bs as [|b bs IH]; intros f Hq; simpl; [exact Hq|].
  apply IH. destruct (decide (q = backup b)) as [->|Hne].
  - apply lookup_delete_eq.
  - now rewrite lookup_delete_ne by congruence.
Qed.

Lemma unlink_all_gone bs f b : In b bs -> unlink_all bs f !! backup b = None.
Proof.
  revert f. induction bs as [|a bs IH]; intros f; simpl; [intros []|].
  intros [->|Hin]; [|now apply IH].
  apply unlink_all_none. apply lookup_delete_eq.
Qed.

Lemma unlink_all_other bs f q :
  (forall b, In b bs -> q <> backup b) -> unlink_all bs f !! q = f !! q.
Proof.
  revert f. induction bs as [|a bs IH]; intros f Hq; simpl; [reflexivity|].
  rewrite IH by (intros b Hb; apply Hq; now right).
  apply lookup_delete_ne. intros Heq. apply (Hq a); [now left|now symmetry].
Qed.

Lemma unlink_backups_run (bs : list Backup) (s : State) :
  (forall op p, fault (world s) op p = None) ->
  (forall b, In b bs -> backup b ∉ dirs (world s)) ->
  for_each bs
    (fun b =>
       let! present := liftW (existsSync (backup b)) in
       when present (liftW (unlink (backup b)))) s
  = (inr tt, on_world (set_files (unlink_all bs)) s).
Proof.
  revert s. induction bs as [|b bs IH]; intros s Hf Hd; simpl.
  - destruct s as [[f d fl] r j st td rv sk er]. reflexivity.
  - assert (Hstep :
              (let! present := liftW (existsSync (backup b)) in
               when present (liftW (unlink (backup b)))) s
              = (inr tt, on_world (set_files (base.delete (backup b))) s)).
    { unfold bind at 1. unfold liftW at 1, existsSync, gets. simpl.
      assert (Hsame : on_world (fun _ => world s) s = s) by (destruct s; reflexivity).
      rewrite Hsame. unfold exists_in.
      rewrite (bool_decide_eq_false_2 (backup b ∈ dirs (world s)))
        by (apply Hd; now left).
      rewrite orb_false_r.
      destruct (files (world s) !! backup b) as [c|] eqn:Eb.
      - rewrite bool_decide_eq_true_2 by eauto. simpl.
        apply (unlink_run s (backup b) c); [apply Hf|exact Eb].
      - rewrite bool_decide_eq_false_2 by (intros [y Hy]; discriminate). simpl.
        unfold ret. destruct s as [[f d fl] r j st td rv sk er]. simpl in *.
        unfold on_world, set_files. simpl. now rewrite delete_id. }
    eapply SwapFacts.bind_run; [exact Hstep|]. cbv beta. rewrite IH.
    + destruct s as [[f d fl] r j st td rv sk er]. reflexivity.
    + intros op p. destruct s as [[f d fl] r j st td rv sk er]. apply Hf.
    + intros b' Hb'. destruct s as [[f d fl] r j st td rv sk er]. simpl.
      apply (Hd b'). now right.
Qed.
Lemma removed_none d w q : files w !! q = None -> files (AbortFacts.removed d w) !! q = None.
Proof. intros Hq. simpl. apply map_lookup_filter_None_2. now left. Qed.

Lemma separate_incl (l l' : list string) :
  (forall p, In p l' -> In p l) ->
  SwapFacts.separate self sid l = true -> SwapFacts.separate self sid l' = true.
Proof.
  unfold SwapFacts.separate. rewrite !forallb_forall. intros Hincl Hs p Hp.
  rewrite forallb_forall. intros q Hq.
  specialize (Hs p (Hincl p Hp)). rewrite forallb_forall in Hs.
  exact (Hs q (Hincl q Hq)).
Qed.

Lemma made_reserved d : In d made -> In d reserved.
Proof.
  unfold made, reserved. intros Hd. apply in_or_app. left.
  simpl in *. intuition auto.
Qed.

(** The state when staging begins: the journal is written, the
    directories are made. *)
Definition prepared : State :=
  on_world (set_dirs (fun d => {[deletedDir]} ∪ d))
    (on_world (set_dirs (fun d => {[sd]} ∪ d))
       (on_result (RollbackResult.set_journalPath jp)
          (on_world (set_files (fun f => <[jp := stringify j0]> f))
             (on_world (set_dirs (fun d => {[committedDir]} ∪ d))
                (on_world (set_dirs (fun d => {[pendingDir]} ∪ d))
                   (initial_state self manifest now w0)))))).

Lemma prepared_ok : staging [] reversed prepared.
Proof.
  split; [reflexivity|]. split; [|intros c []].
  destruct apart_journals as (Hjp & _ & _).
  unfold staged_ok, prepared. simpl.
  split; [reflexivity|]. split.
  { intros d Hd. rewrite !elem_of_union, !elem_of_singleton in Hd.
    unfold made. simpl. intuition auto. }
  split; [apply elem_of_union; right; apply elem_of_union; left; now apply elem_of_singleton|].
  split; [apply lookup_insert_eq|].
  split; [intros q _ Hq; now apply lookup_insert_ne|].
  split; [reflexivity|].
  split; [intros p sf []|]. split; [constructor|intros p []].
Qed.

End WithStore.
End CommitFacts.

(** * Recovery: outcomes, manual recovery, renames *)

Module RecoveryOutcomes.
Import SessionRecovery.

Lemma total_rollbackFromBackups bs : total (rollbackFromBackups bs).
Proof.
  unfold rollbackFromBackups.
  apply total_bind; [apply total_modify|intros _].
  apply total_bind; [|intros _; apply total_gets].
  apply total_for_each. intros b. unfold restoreBackup.
  apply total_try. intros e. apply total_ret.
Qed.

Lemma unlink_gone p w w1 : unlink p w = (inr tt, w1) -> files w1 !! p = None.
Proof.
  unfold unlink. munfold. destruct (fault w OpUnlink p); [discriminate|].
  destruct (files w !! p); [|discriminate].
  intros [= <-]. simpl. apply lookup_delete_eq.
Qed.

Lemma unlink_fails p w e w1 : unlink p w = (inl e, w1) -> w1 = w.
Proof.
  unfold unlink. munfold. destruct (fault w OpUnlink p); [now intros [= _ <-]|].
  destruct (files w !! p); [discriminate|]. now intros [= _ <-].
Qed.

(** The result is still the one of a recovery that has not failed. *)
Definition sound (sid : string) (s : State) : Prop :=
  RecoveryResult.sessionId (result s) = sid /\
  RecoveryResult.error (result s) = None /\
  RecoveryResult.status (result s) <> failed.

Ltac sound_tac :=
  match goal with
  | H : sound _ _ |- sound _ _ =>
      destruct H as (? & ? & ?); repeat split; simpl; auto; discriminate
  end.

Lemma keeps_sound_rollbackFromBackups sid bs : keeps (sound sid) (rollbackFromBackups bs).
Proof.
  unfold rollbackFromBackups, restoreBackup. repeat keeps_step; try sound_tac; assumption.
Qed.

Lemma unlink_journal sid p :
  hoare (sound sid) (liftW (unlink p))
        (fun _ s => sound sid s /\ files (world s) !! p = None)
        (fun _ => sound sid).
Proof.
  intros s r s' Hs. unfold liftW. simpl getW.
  destruct (unlink p (world s)) as [[e|[]] w1] eqn:Hu; intros [= <- <-].
  - destruct s; exact Hs.
  - split; [destruct s; exact Hs|]. simpl. exact (unlink_gone _ _ _ Hu).
Qed.

Definition outcome (sid p : string) (r : RecoveryResult.t) (s : State) : Prop :=
  r = result s /\
  RecoveryResult.sessionId r = sid /\
  ((RecoveryResult.status r = failed /\ is_Some (RecoveryResult.error r)) \/
   (RecoveryResult.status r <> failed /\ RecoveryResult.error r = None /\
    files (world s) !! p = None)).

Lemma recoverJournal_body_outcome journal journalPath :
  hoare (sound (Journal.sessionId journal)) (recoverJournal_body journal journalPath)
        (outcome (Journal.sessionId journal) journalPath) (fun _ _ => False).
Proof.
  apply hoare_total with (E := fun _ _ => True).
  { unfold recoverJournal_body. apply total_try. intros e.
    do 2 (apply total_bind; [apply total_modify|intros _]). apply total_gets. }
  unfold recoverJournal_body.
  apply hoare_try with (E' := fun _ => sound (Journal.sessionId journal)).
  - eapply hoare_seq_keeps;
      [unfold checkBackupsExist; repeat keeps_step; sound_tac|auto|intros backupExists].
    destruct (negb backupExists).
    + apply hoare_bind
        with (R := fun _ s => sound (Journal.sessionId journal) s /\
                              files (world s) !! journalPath = None);
        [apply unlink_journal|intros _].
      apply hoare_assign. apply hoare_gets.
      intros s (s0 & [(H1 & H2 & H3) Hg] & ->). unfold outcome. simpl.
      split; [reflexivity|]. split; [exact H1|]. right. repeat split; auto; discriminate.
    + eapply hoare_seq_keeps; [apply keeps_sound_rollbackFromBackups|auto|intros count].
      do 2 apply hoare_assign.
      eapply hoare_conseq with (P' := sound (Journal.sessionId journal));
        [|intros s (s1 & (s0 & (H1 & H2 & H3) & ->) & ->); repeat split; simpl; auto;
          try discriminate
         |intros ? ? Hx; exact Hx|intros ? ? Hx; exact Hx].
      apply hoare_bind
        with (R := fun _ s => sound (Journal.sessionId journal) s /\
                              files (world s) !! journalPath = None);
        [apply unlink_journal|intros _].
      apply hoare_gets.
      intros s [(H1 & H2 & H3) Hg]. unfold outcome.
      split; [reflexivity|]. split; [exact H1|]. right. repeat split; auto.
  - intros e. do 2 apply hoare_assign. apply hoare_gets.
    intros s (s1 & (s0 & (H1 & H2 & H3) & ->) & ->). unfold outcome. simpl.
    split; [reflexivity|]. split; [exact H1|]. left. split; [reflexivity|eauto].
Qed.

(** X17: [recoverJournal] never throws.  Either it deleted the journal file
    and reports [cleaned] or [recovered] without an error; or the journal
    file could not be deleted, and it reports [failed] with the message of
    the exception.  The result names the session of the journal. *)
Theorem recoverJournal_outcome (journal : JournalEntry) (journalPath : string) (w : World) :
  exists r w',
    recoverJournal journal journalPath w = (inr r, w') /\
    RecoveryResult.sessionId r = Journal.sessionId journal /\
    ((RecoveryResult.status r = failed /\ is_Some (RecoveryResult.error r)) \/
     (RecoveryResult.status r <> failed /\ RecoveryResult.error r = None /\
      files w' !! journalPath = None)).
Proof.
  unfold recoverJournal.
  set (s0 := mkState w (RecoveryResult.mk (Journal.sessionId journal) cleaned 0 None) 0).
  destruct (recoverJournal_body journal journalPath s0) as [out s'] eqn:Hrun.
  assert (H0 : sound (Journal.sessionId journal) s0).
  { repeat split; simpl; discriminate. }
  pose proof (recoverJournal_body_outcome journal journalPath _ _ _ H0 Hrun) as Hh.
  destruct out as [e|r]; [contradiction|].
  destruct Hh as (-> & Hsid & Hcases).
  exists (result s'), (world s'). split; [reflexivity|]. split; [exact Hsid|exact Hcases].
Qed.

(** ** Manual recovery *)

Section Manual.
Variable parse : bytes -> Exn + JournalEntry.

(** X18: [recoverJournalById]: without a journal file the result is [failed]
    with "Journal not found" and nothing changes; a journal that does not
    parse makes the call throw the parse error (there is no handler here), 
    with nothing changed; a journal that parses is recovered as
    [recoverJournal] does it. *)
Theorem recoverJournalById_cases (self : SessionRecovery.t) (sessionId : string) (w : World) :
  let journalPath := path_join [journalDir self; "pending"; sessionId ++ ".json"] in
  (exists_in w journalPath = false ->
   recoverJournalById parse self sessionId w
   = (inr (RecoveryResult.mk sessionId failed 0 (Some "Journal not found")), w)) /\
  (forall content,
     files w !! journalPath = Some content -> fault w OpReadFile journalPath = None ->
     match parse content with
     | inl e => recoverJournalById parse self sessionId w = (inl e, w)
     | inr journal =>
         recoverJournalById parse self sessionId w = recoverJournal journal journalPath w
     end).
Proof.
  intros journalPath. unfold recoverJournalById. fold journalPath. split.
  - intros He. unfold existsSync. munfold. now rewrite He.
  - intros content Hc Hf. unfold existsSync, readFile. munfold.
    unfold exists_in. rewrite Hc.
    rewrite bool_decide_eq_true_2 by eauto. simpl. rewrite Hf. simpl. rewrite Hc.
    destruct (parse content); reflexivity.
Qed.
End Manual.

(** X19: [deleteJournal] removes the pending and the committed journal of a
    session and nothing else, when their removal does not fail. *)
Theorem deleteJournal_removes_both (self : SessionRecovery.t) (sessionId : string)
        (w : World) :
  let pendingPath := path_join [journalDir self; "pending"; sessionId ++ ".json"] in
  let committedPath := path_join [journalDir self; "committed"; sessionId ++ ".json"] in
  fault w OpUnlink pendingPath = None -> fault w OpUnlink committedPath = None ->
  pendingPath ∉ dirs w -> committedPath ∉ dirs w ->
  exists w',
    deleteJournal self sessionId w = (inr tt, w') /\
    files w' !! pendingPath = None /\ files w' !! committedPath = None /\
    forall p, p <> pendingPath -> p <> committedPath -> files w' !! p = files w !! p.
Proof.
  intros pp cp Hfp Hfc Hdp Hdc.
  assert (Hstep : forall p w1, fault w1 OpUnlink p = None -> p ∉ dirs w1 ->
            (let! present := existsSync p in when present (unlink p)) w1
            = (inr tt, mkWorld (base.delete p (files w1)) (dirs w1) (fault w1))).
  { intros p w1 Hf Hd. unfold existsSync, unlink, when. munfold. unfold exists_in.
    rewrite (bool_decide_eq_false_2 (p ∈ dirs w1)) by exact Hd. rewrite orb_false_r.
    destruct (files w1 !! p) as [c|] eqn:Hp.
    - rewrite bool_decide_eq_true_2 by eauto. simpl. rewrite Hf. simpl. rewrite Hp.
      reflexivity.
    - rewrite bool_decide_eq_false_2 by (intros [x Hx]; discriminate). simpl.
      destruct w1 as [f d fl]. simpl in *. f_equal. f_equal.
      symmetry. now apply delete_id. }
  unfold deleteJournal. fold pp. fold cp. unfold bind at 1. rewrite Hstep by assumption.
  rewrite Hstep by (simpl; assumption). simpl.
  eexists. split; [reflexivity|]. simpl. split; [|split].
  - destruct (decide (pp = cp)) as [->|Hne]; [apply lookup_delete_eq|].
    rewrite lookup_delete_ne by congruence. apply lookup_delete_eq.
  - apply lookup_delete_eq.
  - intros p Hp Hc. rewrite !lookup_delete_ne by congruence. reflexivity.
Qed.

(** ** Renames with the cross-device fallback *)

(** X20: [safeRename] (the engine's and the recovery's are the same) is a
    rename: when renaming raises [EXDEV] and the copy and the removal go
    through, the files are what a rename would have left. *)
Theorem safeRename_is_rename (src dst : string) (w : World) (c : bytes) :
  files w !! src = Some c -> src <> dst ->
  (forall e, fault w OpRename src = Some e ->
             exn_code e = Some "EXDEV" /\
             fault w OpCopyFile src = None /\ fault w OpUnlink src = None) ->
  let w' := mkWorld (<[dst := c]> (base.delete src (files w))) (dirs w) (fault w) in
  SessionRecovery.safeRename src dst w = (inr tt, w') /\
  SessionRollback.safeRename src dst w = (inr tt, w').
Proof.
  intros Hc Hne Hx w'.
  assert (Hboth : SessionRecovery.safeRename src dst w = (inr tt, w')).
  { unfold safeRename, rename, copyFile, unlink. munfold.
    destruct (fault w OpRename src) as [e|] eqn:Hf.
    - destruct (Hx e eq_refl) as (He & Hcp & Hu). rewrite He.
      rewrite bool_decide_eq_true_2 by reflexivity.
      rewrite Hcp, Hc. simpl. rewrite Hu. simpl.
      rewrite lookup_insert_ne by congruence. rewrite Hc.
      unfold w', set_files. simpl. f_equal. f_equal.
      apply delete_insert_ne. congruence.
    - rewrite Hc. reflexivity. }
  split; [exact Hboth|exact Hboth].
Qed.

(** Any other failure of the rename is thrown on, and nothing changes. *)
Theorem safeRename_rethrows (src dst : string) (w : World) (e : Exn) :
  fault w OpRename src = Some e -> exn_code e <> Some "EXDEV" ->
  SessionRecovery.safeRename src dst w = (inl e, w) /\
  SessionRollback.safeRename src dst w = (inl e, w).
Proof.
  intros Hf He.
  assert (Hboth : SessionRecovery.safeRename src dst w = (inl e, w)).
  { unfold safeRename, rename. munfold. rewrite Hf.
    rewrite bool_decide_eq_false_2 by exact He. reflexivity. }
  split; exact Hboth.
Qed.
End RecoveryOutcomes.

(** * Session deduplication *)

Module DedupOrder.
Import SessionDeduplication DedupFacts.

Lemma ascii_compare_N a b :
  Ascii.compare a b = N.compare (Ascii.N_of_ascii a) (Ascii.N_of_ascii b).
Proof. reflexivity. Qed.

Lemma compare_trans_le : forall a b c : string,
  String.compare a b <> Gt -> String.compare b c <> Gt -> String.compare a c <> Gt.
Proof.
  induction a as [|x a IH]; intros [|y b] [|z c]; simpl; try congruence.
  rewrite !ascii_compare_N.
  destruct (N.compare_spec (Ascii.N_of_ascii x) (Ascii.N_of_ascii y)) as [Hxy|Hxy|Hxy];
    destruct (N.compare_spec (Ascii.N_of_ascii y) (Ascii.N_of_ascii z)) as [Hyz|Hyz|Hyz];
    destruct (N.compare_spec (Ascii.N_of_ascii x) (Ascii.N_of_ascii z)) as [Hxz|Hxz|Hxz];
    try congruence; try lia.
  - apply IH.
Qed.

Lemma leb_trans a b c : le_str a b -> le_str b c -> le_str a c.
Proof.
  unfold le_str, String.leb. intros Hab Hbc.
  pose proof (compare_trans_le a b c) as Ht.
  destruct (String.compare a b); destruct (String.compare b c);
    destruct (String.compare a c); try reflexivity; try discriminate;
    exfalso; apply Ht; congruence.
Qed.

Lemma sorted_all_le x l : Sorted le_str (x :: l) -> forall y, In y l -> le_str x y.
Proof.
  revert x. induction l as [|z l IH]; intros x Hs y Hy; [destruct Hy|].
  inversion Hs as [|? ? Hl Hhd]; subst. inversion Hhd as [|? ? Hxz]; subst.
  destruct Hy as [<-|Hy]; [exact Hxz|].
  apply leb_trans with z; [exact Hxz|]. now apply IH.
Qed.

(** Two sorted lists with the same elements are the same list. *)
Lemma sorted_perm_eq : forall l l',
  Sorted le_str l -> Sorted le_str l' -> Permutation l l' -> l = l'.
Proof.
  induction l as [|x l IH]; intros l' Hs Hs' Hp.
  - apply Permutation_nil in Hp. now subst.
  - destruct l' as [|x' l'].
    { apply Permutation_sym, Permutation_nil in Hp. discriminate. }
    assert (Hxx : x = x').
    { apply String.leb_antisym.
      - assert (Hin : In x' (x :: l)).
        { apply Permutation_in with (x' :: l'); [now symmetry|now left]. }
        destruct Hin as [->|Hin]; [destruct (String.leb_total x' x'); assumption|].
        now apply (sorted_all_le x l Hs).
      - assert (Hin : In x (x' :: l')).
        { apply Permutation_in with (x :: l); [exact Hp|now left]. }
        destruct Hin as [->|Hin]; [destruct (String.leb_total x x); assumption|].
        now apply (sorted_all_le x' l' Hs'). }
    subst x'. f_equal. apply IH.
    + now inversion Hs.
    + now inversion Hs'.
    + now apply Permutation_cons_inv with x.
Qed.

Lemma sort_permutation l l' : Permutation l l' -> sort l = sort l'.
Proof.
  intros Hp. apply sorted_perm_eq; [apply sort_sorted..|].
  rewrite !sort_perm. exact Hp.
Qed.

(** X21: The fingerprint does not depend on the order of the changes. *)
Theorem computeFingerprint_order (changes changes' : list SessionChange) :
  Permutation changes changes' ->
  computeFingerprint changes = computeFingerprint changes'.
Proof.
  intros Hp. unfold computeFingerprint.
  rewrite (Permutation_length Hp).
  rewrite (sort_permutation (map item changes) (map item changes'))
    by now apply Permutation_map.
  reflexivity.
Qed.

Lemma computeFingerprint_order_witness :
  computeFingerprint [change_a; change_b] = computeFingerprint [change_b; change_a].
Proof. apply computeFingerprint_order. apply perm_swap. Defined.

Section WithCache.
Variable Cache : Type.
Variable cache_new : Z -> Cache.
Variable cache_get : Cache -> string -> option SessionFingerprint * Cache.
Variable cache_set : Cache -> string -> SessionFingerprint -> Cache.
Variable number_string : Z -> string.

Abbreviation check := (checkDuplicate Cache cache_get number_string).

(** X22: [checkDuplicate] answers with the fingerprint of the changes; it
    reports a duplicate exactly when the session has at least
    [minFilesForDedup] changes and the cache holds an entry for the
    fingerprint that is at most [timeDeltaMs] older than the timestamp (an
    entry from the future counts), and then it names the session of that
    entry; for a smaller session the cache is not consulted. *)
Theorem checkDuplicate_exact (self : t Cache) (changes : list SessionChange)
        (timestamp : Z) :
  let r := fst (check self changes timestamp) in
  let fp := computeFingerprint changes in
  fingerprint r = fp /\
  (isDuplicate r = true <->
   (minFilesForDedup Cache self <= Z.of_nat (List.length changes))%Z /\
   exists e, fst (cache_get (fingerprintCache Cache self) fp) = Some e /\
             (timestamp - fp_timestamp e <= timeDeltaMs Cache self)%Z /\
             existingSessionId r = Some (fp_sessionId e)) /\
  ((Z.of_nat (List.length changes) < minFilesForDedup Cache self)%Z ->
   snd (check self changes timestamp) = self).
Proof.
  intros r fp. subst r. unfold checkDuplicate. fold fp.
  destruct (Z.ltb_spec (Z.of_nat (List.length changes)) (minFilesForDedup Cache self))
    as [Hsmall|Hbig]; simpl.
  - split; [reflexivity|]. split; [|reflexivity].
    split; [discriminate|]. intros [Hle _]. lia.
  - destruct (cache_get (fingerprintCache Cache self) fp) as [[e|] c]; simpl.
    + destruct (Z.gtb_spec (timestamp - fp_timestamp e) (timeDeltaMs Cache self))
        as [Hold|Hnew]; simpl.
      * split; [reflexivity|]. split; [|lia].
        split; [discriminate|]. intros (_ & e' & [= <-] & Hle & _). lia.
      * split; [reflexivity|]. split; [|lia].
        split; [|reflexivity]. intros _. split; [exact Hbig|].
        exists e. repeat split. exact Hnew.
    + split; [reflexivity|]. split; [|lia].
      split; [discriminate|]. intros (_ & e' & He & _). discriminate.
Qed.

(** A cache that gives back what was last set under a key. *)
Hypothesis get_after_set :
  forall c k v, fst (cache_get (cache_set c k v) k) = Some v.

(** X23: A registered session is found again: the same changes, in any order,
    checked no more than [timeDeltaMs] after the registration, are a
    duplicate of the registered session. *)
Theorem registered_is_duplicate (self : t Cache) (sessionId : string)
        (changes changes' : list SessionChange) (t0 t1 : Z) :
  Permutation changes changes' ->
  (minFilesForDedup Cache self <= Z.of_nat (List.length changes'))%Z ->
  (t1 - t0 <= timeDeltaMs Cache self)%Z ->
  let self' := register Cache cache_set self sessionId changes t0 in
  let r := fst (check self' changes' t1) in
  isDuplicate r = true /\ existingSessionId r = Some sessionId.
Proof.
  intros Hp Hmin Hdelta self' r. subst r self'.
  unfold checkDuplicate, register. simpl.
  assert (Hfp : computeFingerprint changes' = computeFingerprint changes).
  { unfold computeFingerprint. rewrite <- (Permutation_length Hp).
    now rewrite (sort_permutation (map item changes) (map item changes'))
      by now apply Permutation_map. }
  rewrite Hfp.
  destruct (Z.ltb_spec (Z.of_nat (List.length changes')) (minFilesForDedup Cache self));
    [lia|].
  pose proof (get_after_set (fingerprintCache Cache self) (computeFingerprint changes)
                (mkFingerprint (computeFingerprint changes) t0 sessionId
                               (List.length changes))) as Hg.
  destruct (cache_get _ (computeFingerprint changes)) as [o c]. simpl in Hg. subst o.
  simpl. destruct (Z.gtb_spec (t1 - t0) (timeDeltaMs Cache self)); [lia|].
  split; reflexivity.
Qed.
End WithCache.
End DedupOrder.

(** * The session manager beyond [track] *)

Module TriggerFacts.
Import SessionManager.
Local Open Scope Z_scope.

Definition known : list SessionTrigger := [filewatch; pre_commit; manual; idle_finalize].

(** The bit of a trigger; the triggers the code does not test have none. *)
Definition bit (t : SessionTrigger) : Z :=
  match t with
  | filewatch => 1
  | pre_commit => 2
  | manual => 4
  | idle_finalize => 8
  | _ => 0
  end.

Definition mem (t : SessionTrigger) (l : list SessionTrigger) : bool :=
  existsb (fun t' => bool_decide (t' = t)) l.

Lemma encodeTrigger_lor mask t : encodeTrigger mask t = Z.lor mask (bit t).
Proof. destruct t; unfold encodeTrigger; simpl; now rewrite ?Z.lor_0_r. Qed.

Lemma encode_from l : forall acc,
  fold_left encodeTrigger l acc = Z.lor acc (fold_left encodeTrigger l 0).
Proof.
  induction l as [|t l IH]; intros acc; simpl.
  - now rewrite Z.lor_0_r.
  - rewrite IH, (IH (encodeTrigger 0 t)), !encodeTrigger_lor, Z.lor_0_l.
    now rewrite Z.lor_assoc.
Qed.

Lemma encode_cons t l : encodeTriggers (t :: l) = Z.lor (bit t) (encodeTriggers l).
Proof.
  unfold encodeTriggers. simpl. rewrite encode_from, encodeTrigger_lor.
  now rewrite Z.lor_0_l.
Qed.

(** A bit of the mask is set exactly when its trigger is in the set. *)
Lemma encode_land l t :
  In t known -> Z.land (encodeTriggers l) (bit t) = if mem t l then bit t else 0.
Proof.
  intros Ht. induction l as [|t' l IH]; [destruct t; reflexivity|].
  rewrite encode_cons, Z.land_lor_distr_l, IH. unfold mem. simpl.
  destruct (decide (t' = t)) as [->|Hne].
  - rewrite bool_decide_eq_true_2 by reflexivity. simpl.
    rewrite Z.land_diag. destruct (existsb _ l); [apply Z.lor_diag|apply Z.lor_0_r].
  - rewrite bool_decide_eq_false_2 by exact Hne. simpl.
    assert (Hz : Z.land (bit t') (bit t) = 0).
    { destruct Ht as [<-|[<-|[<-|[<-|[]]]]]; destruct t'; try reflexivity; congruence. }
    now rewrite Hz, Z.lor_0_l.
Qed.

(** X24: Decoding an encoded set gives the triggers of the set that have a
    bit, in the order of the bits; [blur], [task] and [max_duration] are
    lost. *)
Theorem decode_encode (triggers : list SessionTrigger) :
  decodeTriggers (encodeTriggers triggers)
  = List.filter (fun t => mem t triggers) known.
Proof.
  unfold decodeTriggers, known. simpl.
  change 1 with (bit filewatch). change 2 with (bit pre_commit).
  change 4 with (bit manual). change 8 with (bit idle_finalize).
  rewrite !encode_land by (simpl; auto).
  destruct (mem filewatch triggers), (mem pre_commit triggers),
    (mem manual triggers), (mem idle_finalize triggers); reflexivity.
Qed.

Lemma land_bit m k :
  0 <= k -> Z.land m (2 ^ k) = if Z.testbit m k then 2 ^ k else 0.
Proof.
  intros Hk. apply Z.bits_inj'. intros n Hn.
  rewrite Z.land_spec, Z.pow2_bits_eqb by exact Hk.
  destruct (Z.eqb_spec k n) as [->|Hne].
  - rewrite andb_true_r. destruct (Z.testbit m n) eqn:Hb.
    + now rewrite Z.pow2_bits_true.
    + now rewrite Z.bits_0.
  - rewrite andb_false_r. destruct (Z.testbit m k).
    + rewrite Z.pow2_bits_false; [reflexivity|exact Hne].
    + now rewrite Z.bits_0.
Qed.

(** X25: Encoding a decoded mask keeps its four low bits, for every mask. *)
Theorem encode_decode (mask : Z) :
  encodeTriggers (decodeTriggers mask) = Z.land mask 15.
Proof.
  assert (H15 : Z.land mask 15
                = Z.lor (Z.land mask 1)
                    (Z.lor (Z.land mask 2) (Z.lor (Z.land mask 4) (Z.land mask 8)))).
  { rewrite <- !Z.land_lor_distr_r. reflexivity. }
  assert (H1 : Z.land mask 1 = if Z.testbit mask 0 then 1 else 0)
    by (apply (land_bit mask 0); lia).
  assert (H2 : Z.land mask 2 = if Z.testbit mask 1 then 2 else 0)
    by (apply (land_bit mask 1); lia).
  assert (H4 : Z.land mask 4 = if Z.testbit mask 2 then 4 else 0)
    by (apply (land_bit mask 2); lia).
  assert (H8 : Z.land mask 8 = if Z.testbit mask 3 then 8 else 0)
    by (apply (land_bit mask 3); lia).
  rewrite H15. unfold decodeTriggers. rewrite H1, H2, H4, H8.
  destruct (Z.testbit mask 0), (Z.testbit mask 1), (Z.testbit mask 2), (Z.testbit mask 3);
    reflexivity.
Qed.
End TriggerFacts.

Module SessionFacts.
Section WithStore.
Context {B : Type} `{BlobStore B}.
Variable minimatch : string -> string -> bool.
Import SessionManager.

(** X26: [track] does nothing without an active session and nothing for a path
    an ignore pattern matches; otherwise it appends exactly one record to
    the buffer, with the normalized path, the operation, the metadata it
    was given and no digest, and leaves the rest of the session as it is.
    It never throws and never touches the file system. *)
Theorem track_cases (o : @Options B) (absolutePath : string) (op : ChangeOp)
        (meta : option TrackMeta) (s : State) :
  exists s',
    track minimatch o absolutePath op meta s = (inr tt, s') /\
    world s' = world s /\ session_changes s' = session_changes s /\
    match activeSession s with
    | None => s' = s
    | Some a =>
        if shouldIgnore minimatch o (normalizePath o absolutePath) then s' = s
        else exists c,
            activeSession s'
            = Some (mkActive (active_sessionId a) (startedAt a) (triggers a)
                             (changeBuffer a ++ [c])%list) /\
            Change.p c = normalizePath o absolutePath /\ Change.op c = op /\
            Change.hOld c = None /\ Change.hNew c = None /\
            Change.sizeAfter c = meta ≫= meta_size /\
            Change.mtimeAfter c = meta ≫= meta_mtime /\
            Change.modeAfter c = meta ≫= meta_mode
    end.
Proof.
  unfold track. munfold. destruct (activeSession s) as [a|] eqn:Ha.
  - destruct (shouldIgnore minimatch o (normalizePath o absolutePath)).
    + exists s. auto.
    + eexists. split; [reflexivity|]. simpl. split; [reflexivity|].
      split; [reflexivity|]. eexists. split; [rewrite Ha; reflexivity|].
      repeat split.
  - exists s. auto.
Qed.

(** X27: With an active session, [finalize] returns whatever the file system
    and the store do (the database accepts every row): it gives the id of
    the session and the number of tracked changes, and clears the active
    session, so that finalizing again throws "No active session to
    finalize" and changes nothing, and [autoFinalize] then does nothing. *)
Theorem finalize_once (o : @Options B) (s : State) a :
  activeSession s = Some a ->
  exists s',
    finalize o s = (inr (active_sessionId a, List.length (changeBuffer a)), s') /\
    activeSession s' = None /\
    finalize o s' = (inl (Error "No active session to finalize"), s') /\
    autoFinalize o s' = (inr tt, s').
Proof.
  intros Ha.
  destruct (ManagerFacts.finalize_rows_hOld o s a Ha) as (rows & s' & Hrun & _).
  exists s'. split; [exact Hrun|].
  assert (Hnone : activeSession s' = None).
  { revert Hrun. unfold finalize. munfold. rewrite Ha.
    destruct (computeDeferredHashes o (changeBuffer a) (getW s)) as [[e|l] w'].
    - discriminate.
    - destruct (opt_db o && _)%bool; intros [= <-]; reflexivity. }
  split; [exact Hnone|].
  unfold finalize, autoFinalize. munfold. rewrite Hnone. split; reflexivity.
Qed.

(** X28: [start] while a session is active finalizes that session first: its
    changes are persisted, one row per change in the order they were
    tracked, under the id of the old session; then the new session begins
    with an empty buffer and the trigger [filewatch]. *)
Theorem start_finalizes_previous (o : @Options B) (sessionId : string) (now : Z)
        (s : State) a :
  activeSession s = Some a ->
  exists s' rows,
    start o sessionId now s = (inr sessionId, s') /\
    activeSession s' = Some (mkActive sessionId now [filewatch] []) /\
    session_changes s' = (session_changes s ++ rows)%list /\
    (opt_db o = true ->
     map fst rows = map (fun _ => active_sessionId a) (changeBuffer a) /\
     map (fun r => Change.p (snd r)) rows = map Change.p (changeBuffer a) /\
     map (fun r => Change.op (snd r)) rows = map Change.op (changeBuffer a)).
Proof.
  intros Ha. unfold start, finalize. munfold. rewrite Ha. cbv beta. rewrite ?Ha. cbv beta.
  assert (Hhash : forall l w, exists l' w',
             computeDeferredHashes o l w = (inr l', w') /\
             map Change.p l' = map Change.p l /\ map Change.op l' = map Change.op l).
  { induction l as [|c l IH]; intros w; simpl.
    - exists [], w. repeat split.
    - munfold.
      destruct (ManagerFacts.hashChange_hOld o c w) as (c' & w1 & -> & _ & Hp & Hop).
      destruct (IH w1) as (l' & w2 & -> & Hps & Hops).
      exists (c' :: l'), w2. simpl. rewrite Hp, Hop, Hps, Hops. repeat split. }
  destruct (Hhash (changeBuffer a) (getW s)) as (l' & w' & Hrun & Hp & Hop).
  rewrite Hrun. cbn [setW State_HasWorld on_world on_activeSession world activeSession
                      session_changes].
  destruct (opt_db o && (0 <? List.length l')%nat)%bool eqn:Hdb; simpl.
  - eexists _, _. split; [reflexivity|]. split; [reflexivity|]. split; [reflexivity|].
    intros _. rewrite !map_map. simpl. rewrite <- Hp, <- Hop.
    split; [|split; reflexivity].
    apply (f_equal (@List.length _)) in Hp. rewrite !length_map in Hp.
    clear -Hp. revert Hp. generalize (changeBuffer a).
    induction l' as [|x l' IH]; intros [|y l]; simpl; try discriminate; [reflexivity|].
    intros [= Hl]. f_equal. now apply IH.
  - exists (mkState w' (Some (mkActive sessionId now [filewatch] [])) (session_changes s)), [].
    split; [reflexivity|]. split; [reflexivity|]. split; [now rewrite app_nil_r|].
    intros Hd. rewrite Hd in Hdb. simpl in Hdb.
    destruct l' as [|x l']; [|discriminate Hdb].
    destruct (changeBuffer a); [repeat split|discriminate Hp].
Qed.
End WithStore.
End SessionFacts.

Module HashingFacts.
Import SessionManager.

Ltac store_method := unfold put, FilesystemBlobStore_BlobStore.

Import FilesystemBlobStore.

(** X29: At finalize, a change whose file can be read gets the SHA-256 of the
    content the file has then as [hNew], and the store holds that content
    under that digest: [get] of the digest returns it, and no file but
    the blob's is written.  Here the store is the file-system store,
    initialized, and no operation on the file and on the blob fails. *)
Theorem hashChange_stores_digest
        (o : @SessionManager.Options FilesystemBlobStore.t)
        (c : SessionChange) (w : World) (content : bytes) :
  let absPath := path_join [opt_workspaceRoot o; Change.p c] in
  let h := sha256_hex content in
  let f := getFilePath (opt_blobStore o) h "sha256" in
  Change.op c <> deleted ->
  files w !! absPath = Some content ->
  initialized (opt_blobStore o) = true ->
  fault w OpReadFile absPath = None ->
  fault w OpMkdir (getShardPath (opt_blobStore o) h "sha256") = None ->
  fault w OpWriteFile f = None ->
  fault w OpReadFile f = None ->
  (exists_in w f = true -> files w !! f = Some content) ->
  exists w',
    hashChange o c w = (inr (Change.set_hNew (Some h) c), w') /\
    FilesystemBlobStore.get (opt_blobStore o) h w' = (inr (Ok (Some content)), w') /\
    forall p, p <> f -> files w' !! p = files w !! p.
Proof.
  intros absPath h f Hop Hfile Hi Hr Hm Hw Hrf Hslot.
  unfold hashChange. fold absPath.
  rewrite bool_decide_eq_false_2 by exact Hop. simpl negb. cbv iota.
  unfold readFile. munfold. rewrite Hr. simpl. rewrite Hfile. simpl.
  store_method. unfold FilesystemBlobStore.put.
  rewrite Hi. simpl.
  unfold existsSync, mkdir, writeFile, LZ4.compress. munfold.
  fold h. fold f.
  destruct (exists_in w f) eqn:He.
  - exists w. split; [reflexivity|]. split; [|reflexivity].
    rewrite (get_of_file _ h w content Hi Hrf (Hslot eq_refl)).
    unfold h. rewrite String.eqb_refl. reflexivity.
  - simpl. rewrite Hm. simpl. rewrite Hw. simpl.
    eexists. split; [reflexivity|]. split.
    + rewrite (get_of_file _ h _ content Hi).
      * unfold h. rewrite String.eqb_refl. reflexivity.
      * simpl. exact Hrf.
      * simpl. apply lookup_insert_eq.
    + intros p Hp. simpl. apply lookup_insert_ne. congruence.
Qed.

Section AnyStore.
Context {B : Type} `{BlobStore B}.

(** A change is left as it is, with the file system untouched, when it
    records a deletion or when its file is no longer there: finalize
    does not fail on a file that has gone. *)
Theorem hashChange_skips_missing (o : @SessionManager.Options B)
        (c : SessionChange) (w : World) :
  Change.op c = deleted \/
  files w !! path_join [opt_workspaceRoot o; Change.p c] = None ->
  hashChange o c w = (inr c, w).
Proof.
  intros [Hop|Hnone]; unfold hashChange.
  - rewrite bool_decide_eq_true_2 by exact Hop. reflexivity.
  - destruct (bool_decide (Change.op c = deleted)); [reflexivity|].
    simpl negb. cbv iota. unfold readFile. munfold.
    destruct (fault w OpReadFile _); simpl; [reflexivity|].
    rewrite Hnone. reflexivity.
Qed.
End AnyStore.
End HashingFacts.

Module NormalizeFacts.
Section WithStore.
Context {B : Type} `{BlobStore B}.
Import SessionManager Path PathFacts.

Lemma stripCommon_prefix (l q : list string) : stripCommon l (l ++ q) = ([], q).
Proof.
  induction l as [|x l IH]; simpl.
  - now destruct q.
  - now rewrite String.eqb_refl.
Qed.

Lemma append_longer (a b : string) : b <> "" -> a <> a ++ b.
Proof.
  intros Hb. induction a as [|c a IH]; rewrite ?sapp_nil, ?sapp_cons.
  - congruence.
  - intros [= E]. now apply IH.
Qed.

(** X30: The path that [track] records is the one the rollback joins back
    onto the workspace root: for a root that is a clean absolute path
    and a clean relative path [p], normalising [join(root, p)] gives [p]
    again. *)
Theorem normalizePath_join (o : @Options B) (p : string) :
  abs_clean (opt_workspaceRoot o) = true ->
  rel_clean p = true ->
  normalizePath o (path_join [opt_workspaceRoot o; p]) = p.
Proof.
  intros Hd Hp. set (d := opt_workspaceRoot o) in *.
  destruct (join_clean d p Hd Hp) as [Hj _].
  destruct (abs_clean_split d Hd) as (l & Hs & Hne & Hl & Hdeq).
  unfold normalizePath, path_join. fold d. rewrite Hj.
  unfold relative.
  assert (Hneq : String.eqb d (d ++ "/" ++ p) = false).
  { apply String.eqb_neq. apply append_longer. discriminate. }
  rewrite Hneq.
  assert (Hrd : resolve (opt_cwd o) d = l).
  { unfold resolve. rewrite Hdeq at 1. rewrite isAbsolute_slash.
    unfold normalizeSegments. rewrite Hs. simpl.
    now rewrite normalize_clean. }
  assert (Hrt : resolve (opt_cwd o) (d ++ "/" ++ p) = (l ++ split p)%list).
  { unfold resolve.
    assert (Habs : isAbsolute (d ++ "/" ++ p) = true).
    { rewrite Hdeq. rewrite append_assoc. apply isAbsolute_slash. }
    rewrite Habs. unfold normalizeSegments. rewrite split_app, Hs. simpl.
    rewrite normalize_clean; [reflexivity|].
    rewrite forallb_app, Hl. exact Hp. }
  rewrite Hrd, Hrt, stripCommon_prefix. simpl.
  rewrite concat_split. unfold join_sep. apply concat_split.
Qed.
End WithStore.
End NormalizeFacts.


(* ===================================================================== *)
(** * More concrete runs *)
(* ===================================================================== *)

Module MoreRuns.
Import Fixture.

#[local] Existing Instance SessionManager.State_HasWorld.

Definition hello : bytes := bytes_of_string "hello".
Definition hello_file : string :=
  FilesystemBlobStore.getFilePath store (sha256_hex hello) "sha256".

Definition world_clean : World := mkWorld ∅ ∅ no_fault.

(** ** The blob store *)

(** The blob is stored, but its file cannot be read. *)
Definition world_unreadable : World :=
  mkWorld {[ hello_file := hello ]} ∅ (fail_on OpReadFile hello_file (eacces hello_file)).

Lemma io_failure_is_io_error_witness :
  FilesystemBlobStore.get store (sha256_hex hello) world_unreadable
  = (inr (FilesystemBlobStore.err IO_ERROR
            ("Failed to retrieve blob: " ++ exn_msg (eacces hello_file))
            [("hash", sha256_hex hello)]),
     world_unreadable).
Proof.
  destruct (StoreFacts.io_failure_is_io_error store world_unreadable (eacces hello_file)
              eq_refl) as (Hget & _).
  apply Hget; vm_compute; reflexivity.
Defined.

Lemma has_agrees_with_get_witness :
  fst (FilesystemBlobStore.has store (sha256_hex hello) world_clean) = inr false <->
  fst (FilesystemBlobStore.get store (sha256_hex hello) world_clean) = inr (Ok None).
Proof. apply StoreFacts.has_agrees_with_get. reflexivity. Defined.

Lemma put_idempotent_witness :
  FilesystemBlobStore.put store hello (snd (FilesystemBlobStore.put store hello world_clean))
  = (inr (Ok (sha256_hex hello)), snd (FilesystemBlobStore.put store hello world_clean)).
Proof. apply StoreFacts.put_idempotent. vm_compute. reflexivity. Defined.

Definition world_stored : World := mkWorld {[ hello_file := hello ]} ∅ no_fault.

Lemma delete_removes_witness :
  exists w',
    FilesystemBlobStore.delete store (sha256_hex hello) world_stored = (inr (Ok tt), w') /\
    FilesystemBlobStore.has store (sha256_hex hello) w' = (inr false, w') /\
    FilesystemBlobStore.get store (sha256_hex hello) w' = (inr (Ok None), w') /\
    forall p, p <> hello_file -> files w' !! p = files world_stored !! p.
Proof.
  apply (StoreFacts.delete_removes store (sha256_hex hello) world_stored hello).
  - reflexivity.
  - vm_compute. reflexivity.
  - apply not_elem_of_empty.
  - reflexivity.
Defined.

(** ** Rollbacks *)

(** A session that created [c.txt]; the record has no old digest. *)
Definition created_c : SessionManifestV1 :=
  mkManifest "s1" "file:///work" "Created c" 1
    [plain "c.txt" created None (Some (sha256_hex (bytes_of_string "C")))].

Definition world_c : World :=
  mkWorld {[ "/work/c.txt" := bytes_of_string "C" ]} ∅ no_fault.

Lemma rollback_without_old_digests_witness :
  exists r w',
    SessionRollback.rollback show_journal engine created_c None 0 world_c = (inr r, w') /\
    forall p, In p (RollbackResult.filesReverted r) ->
              RollbackFacts.created_path created_c p.
Proof.
  apply RollbackFacts.rollback_without_old_digests.
  intros c [<-|[]]. reflexivity.
Defined.

(** [a.txt] was deleted in the session; the store holds its content. *)
Definition honest_store : Unchecked :=
  unchecked [(sha256_hex (bytes_of_string "A"), bytes_of_string "A")].

Definition engine_honest : SessionRollback.t :=
  SessionRollback.new "/work" honest_store None false.

Definition deleted_a : SessionManifestV1 :=
  mkManifest "s1" "file:///work" "Deleted a" 1
    [plain "a.txt" deleted (Some (sha256_hex (bytes_of_string "A"))) None].

Definition world_b : World :=
  mkWorld {[ "/work/b.txt" := bytes_of_string "B" ]} ∅ no_fault.

Lemma unchecked_reads_only (st : Unchecked) : AbortFacts.read_only st.
Proof. intros h w r w' Hget. injection Hget as _ <-. reflexivity. Qed.

Definition dry : option RollbackOptions := Some (mkOptions None true false).

Definition dry_result :=
  SessionRollback.rollback_body show_journal engine_honest deleted_a dry
    (SessionRollback.initial_state engine_honest deleted_a 0 world_b).

(** The dry run reports [a.txt] as reverted and does not create it. *)
Lemma dry_run_changes_nothing_witness :
  SessionRollback.rollback show_journal engine_honest deleted_a dry 0 world_b
  = (inr (SessionRollback.result (snd dry_result)),
     SessionRollback.world (snd dry_result)) /\
  RollbackResult.success (SessionRollback.result (snd dry_result)) = true /\
  RollbackResult.filesReverted (SessionRollback.result (snd dry_result)) = ["a.txt"] /\
  files (SessionRollback.world (snd dry_result)) !! "/work/a.txt" = None /\
  files (SessionRollback.world (snd dry_result)) !! "/work/b.txt"
  = Some (bytes_of_string "B").
Proof.
  destruct (AbortFacts.dry_run_changes_nothing show_journal engine_honest
              deleted_a dry 0 world_b) with (out := fst dry_result) (s' := snd dry_result)
    as (Hrun & Htrue & Hrev & _ & _ & _ & Hframe).
  - exact I.
  - apply unchecked_reads_only.
  - reflexivity.
  - reflexivity.
  - repeat constructor. intros f Hf. discriminate Hf.
  - vm_compute. reflexivity.
  - intros op p. reflexivity.
  - reflexivity.
  - reflexivity.
  - unfold dry_result. exact (surjective_pairing _).
  - vm_compute. reflexivity.
  - split; [exact Hrun|]. split; [exact Htrue|]. split.
    + rewrite Hrev. vm_compute. reflexivity.
    + split.
      * rewrite (Hframe "/work/a.txt");
          [reflexivity | vm_compute; reflexivity | vm_compute; discriminate].
      * rewrite (Hframe "/work/b.txt");
          [reflexivity | vm_compute; reflexivity | vm_compute; discriminate].
Defined.

(** ** The swap *)

(** [a.txt] is staged with "A0" and holds "A1"; [c.txt] is to be deleted. *)
Definition swap_world (fl : FsOp -> string -> option Exn) : World :=
  mkWorld {[ "/work/.snapback-rollback-s1/a.txt" := bytes_of_string "A0";
             "/work/a.txt" := bytes_of_string "A1";
             "/work/c.txt" := bytes_of_string "C" ]} ∅ fl.

Definition swap_state (fl : FsOp -> string -> option Exn) : SessionRollback.State :=
  SessionRollback.mkState (swap_world fl)
    (RollbackResult.mk false [] [] [] None)
    (Journal.mk "s1" 0 "/work" [] [] pending)
    [("a.txt", mkStaged (sha256_hex (bytes_of_string "A0")) (bytes_of_string "A0"))]
    ["c.txt"] [] [] [].

Definition staged_locked : FsOp -> string -> option Exn :=
  fail_on OpRename "/work/.snapback-rollback-s1/a.txt"
          (eacces "/work/.snapback-rollback-s1/a.txt").

Lemma swapStaged_failure_restores_witness :
  exists s',
    SessionRollback.swapStaged engine "s1" "a.txt" (swap_state staged_locked)
    = (inr tt, s') /\
    files (SessionRollback.world s') !! "/work/a.txt" = Some (bytes_of_string "A1") /\
    files (SessionRollback.world s') !! "/work/a.txt.bak-s1" = None /\
    SessionRollback.skipped s' = ["a.txt"].
Proof.
  destruct (SwapFacts.swapStaged_failure_restores engine "s1" "a.txt"
              (swap_state staged_locked) (bytes_of_string "A1")
              (eacces "/work/.snapback-rollback-s1/a.txt"))
    as (s' & Hrun & Ha & Hb & _ & _ & Hs & _).
  - vm_compute. reflexivity.
  - vm_compute. discriminate.
  - vm_compute. reflexivity.
  - vm_compute. reflexivity.
  - vm_compute. reflexivity.
  - vm_compute. discriminate.
  - exists s'. split; [exact Hrun|]. split; [exact Ha|]. split; [exact Hb|exact Hs].
Defined.


(** ** Recovery *)

Definition sweeper : SessionRecovery.t := SessionRecovery.new "/work" None.

Definition world_journals : World :=
  mkWorld {[ "/work/.sb_journal/pending/s1.json" := bytes_of_string "p";
             "/work/.sb_journal/committed/s1.json" := bytes_of_string "c";
             "/work/a.txt" := bytes_of_string "A" ]} ∅ no_fault.

Lemma deleteJournal_removes_both_witness :
  exists w',
    SessionRecovery.deleteJournal sweeper "s1" world_journals = (inr tt, w') /\
    files w' !! "/work/.sb_journal/pending/s1.json" = None /\
    files w' !! "/work/.sb_journal/committed/s1.json" = None /\
    files w' !! "/work/a.txt" = Some (bytes_of_string "A").
Proof.
  destruct (RecoveryOutcomes.deleteJournal_removes_both sweeper "s1" world_journals)
    as (w' & Hrun & Hp & Hc & Hframe).
  - reflexivity.
  - reflexivity.
  - apply not_elem_of_empty.
  - apply not_elem_of_empty.
  - exists w'. split; [exact Hrun|]. split; [exact Hp|]. split; [exact Hc|].
    rewrite Hframe; [reflexivity | vm_compute; discriminate | vm_compute; discriminate].
Defined.

(** The backup is on another device than the file. *)
Definition world_across : World :=
  mkWorld {[ "/work/a.txt.bak-s1" := bytes_of_string "A0" ]} ∅
          (fail_on OpRename "/work/a.txt.bak-s1" (exdev "/work/a.txt.bak-s1")).

Lemma safeRename_is_rename_witness :
  SessionRecovery.safeRename "/work/a.txt.bak-s1" "/work/a.txt" world_across
  = (inr tt,
     mkWorld (<["/work/a.txt" := bytes_of_string "A0"]>
                (base.delete "/work/a.txt.bak-s1" (files world_across)))
             (dirs world_across) (fault world_across)).
Proof.
  destruct (RecoveryOutcomes.safeRename_is_rename "/work/a.txt.bak-s1" "/work/a.txt"
              world_across (bytes_of_string "A0")) as [Hrun _].
  - vm_compute. reflexivity.
  - discriminate.
  - intros e He. vm_compute in He. injection He as <-. repeat split.
  - exact Hrun.
Defined.

(** ** Deduplication *)

(** A cache that keeps every entry, newest first. *)
Definition Entries : Type := list (string * SessionDeduplication.SessionFingerprint).

Fixpoint entry (k : string) (c : Entries) : option SessionDeduplication.SessionFingerprint :=
  match c with
  | [] => None
  | (k', v) :: rest => if String.eqb k' k then Some v else entry k rest
  end.

Definition entries_get (c : Entries) (k : string)
  : option SessionDeduplication.SessionFingerprint * Entries := (entry k c, c).
Definition entries_set (c : Entries) (k : string)
           (v : SessionDeduplication.SessionFingerprint) : Entries := (k, v) :: c.
Definition no_digits (n : Z) : string := "".

Definition dedup : SessionDeduplication.t Entries :=
  SessionDeduplication.new Entries (fun _ => []) None None None.

Definition five : list SessionChange :=
  [ plain "a" created None None; plain "b" created None None;
    plain "c" created None None; plain "d" created None None;
    plain "e" created None None ].

Lemma registered_is_duplicate_witness :
  let self' := SessionDeduplication.register Entries entries_set dedup "s1" five 0 in
  let r := fst (SessionDeduplication.checkDuplicate Entries entries_get no_digits
                  self' (rev five) 1000) in
  SessionDeduplication.isDuplicate r = true /\
  SessionDeduplication.existingSessionId r = Some "s1".
Proof.
  apply (DedupOrder.registered_is_duplicate Entries entries_get entries_set no_digits).
  - intros c k v. unfold entries_get, entries_set. simpl. now rewrite String.eqb_refl.
  - apply Permutation_rev.
  - vm_compute. discriminate.
  - vm_compute. discriminate.
Defined.

(** ** The session manager *)

Definition world_a : World :=
  mkWorld {[ "/work/a.txt" := bytes_of_string "A" ]} ∅ no_fault.

Definition first_session : ActiveSessionState :=
  mkActive "s1" 1000 [filewatch]
    [plain "a.txt" modified None None].

Definition busy : SessionManager.State :=
  SessionManager.mkState world_a (Some first_session) [].

Lemma finalize_once_witness :
  exists s',
    SessionManager.finalize manager busy = (inr ("s1", 1%nat), s') /\
    SessionManager.activeSession s' = None /\
    SessionManager.finalize manager s'
    = (inl (Error "No active session to finalize"), s') /\
    SessionManager.autoFinalize manager s' = (inr tt, s').
Proof. apply (SessionFacts.finalize_once manager busy first_session). reflexivity. Defined.

Lemma start_finalizes_previous_witness :
  exists s' rows,
    SessionManager.start manager "s2" 2000 busy = (inr "s2", s') /\
    SessionManager.activeSession s'
    = Some (mkActive "s2" 2000 [filewatch] []) /\
    SessionManager.session_changes s' = (SessionManager.session_changes busy ++ rows)%list /\
    (SessionManager.opt_db manager = true ->
     map fst rows = ["s1"] /\
     map (fun r => Change.p (snd r)) rows = ["a.txt"] /\
     map (fun r => Change.op (snd r)) rows = [modified]).
Proof.
  apply (SessionFacts.start_finalizes_previous manager "s2" 2000 busy first_session).
  reflexivity.
Defined.

Lemma hashChange_stores_digest_witness :
  exists w',
    SessionManager.hashChange manager (plain "a.txt" modified None None) world_a
    = (inr (plain "a.txt" modified None (Some (sha256_hex (bytes_of_string "A")))), w') /\
    FilesystemBlobStore.get store (sha256_hex (bytes_of_string "A")) w'
    = (inr (Ok (Some (bytes_of_string "A"))), w') /\
    forall p,
      p <> FilesystemBlobStore.getFilePath store (sha256_hex (bytes_of_string "A")) "sha256" ->
      files w' !! p = files world_a !! p.
Proof.
  apply (HashingFacts.hashChange_stores_digest manager (plain "a.txt" modified None None)
           world_a (bytes_of_string "A")).
  - discriminate.
  - vm_compute. reflexivity.
  - reflexivity.
  - reflexivity.
  - reflexivity.
  - reflexivity.
  - reflexivity.
  - vm_compute. discriminate.
Defined.

Lemma hashChange_skips_missing_witness :
  SessionManager.hashChange manager (plain "gone.txt" modified None None) world_a
  = (inr (plain "gone.txt" modified None None), world_a).
Proof.
  apply HashingFacts.hashChange_skips_missing. right. vm_compute. reflexivity.
Defined.

Lemma normalizePath_join_witness :
  SessionManager.normalizePath manager (path_join ["/work"; "src/a.txt"]) = "src/a.txt".
Proof.
  apply (NormalizeFacts.normalizePath_join manager "src/a.txt"); reflexivity.
Defined.
(** ** A rollback that goes through *)

Lemma held_in h l c : held h l = Some c -> In (h, c) l.
Proof.
  induction l as [|[k v] l IH]; simpl; [discriminate|].
  destruct (String.eqb_spec k h) as [->|Hne].
  - intros [= ->]. now left.
  - intros Hh. right. now apply IH.
Qed.

Lemma unchecked_honest (st : Unchecked) :
  (forall k v, In (k, v) (blobs st) -> sha256_hex v = k) ->
  forall h w c w', get st h w = (inr (Ok (Some c)), w') -> sha256_hex c = h.
Proof.
  intros Hall h w c w' Hget. injection Hget as Hheld _.
  apply Hall. now apply held_in.
Qed.

(** The session rewrote [a.txt] from "A0" to "A1" and created [c.txt];
    the store holds "A0". *)
Definition old_a : Unchecked :=
  unchecked [(sha256_hex (bytes_of_string "A0"), bytes_of_string "A0")].

Definition engine_old_a : SessionRollback.t :=
  SessionRollback.new "/work" old_a None false.

Definition rewrote_a_created_c : SessionManifestV1 :=
  mkManifest "s1" "file:///work" "Updated a, created c" 2
    [ modified_file "a.txt" (bytes_of_string "A0") (bytes_of_string "A1");
      plain "c.txt" created None (Some (sha256_hex (bytes_of_string "C"))) ].

Definition world_abc : World :=
  mkWorld {[ "/work/a.txt" := bytes_of_string "A1";
             "/work/b.txt" := bytes_of_string "B";
             "/work/c.txt" := bytes_of_string "C" ]} ∅ no_fault.

Definition restored :=
  SessionRollback.rollback_body show_journal engine_old_a rewrote_a_created_c None
    (SessionRollback.initial_state engine_old_a rewrote_a_created_c 0 world_abc).

End MoreRuns.
